(** * openconnect-gp-okta: a shallow embedding of [openconnect-gp-okta.py]

    The script logs a user in at Okta (with multi-factor negotiation),
    trades the session for a GlobalProtect prelogin cookie and starts
    [openconnect] underneath a SIGTERM-forwarding supervisor.

    Layout: the embedding of the program comes first (Python values and
    exceptions, base64 as the [base64] and [fido2.utils] modules compute it,
    the world the script talks to, then the script's functions in source
    order); the lemmas and theorems about it follow. *)

From Stdlib Require Import ZArith NArith Lia Strings.Byte Ascii String List.
From Stdlib Require Import Sorting.Sorted Sorting.Permutation.
From stdpp Require Import base option list strings gmap.

Set Warnings "-register-all,-clear-no-such-hyp".

Local Open Scope string_scope.
Local Open Scope list_scope.

(** ** Python exceptions and results *)

(** The exceptions the script can die with.  The script catches only
    [KeyError] (once, inside the push loop); everything else unwinds to the
    interpreter. *)
Inductive exn : Type :=
| KeyError (key : string)
| IndexError
| TypeError
| AttributeError
| AssertionError
| HTTPError (code : Z)
| JSONDecodeError
| XMLSyntaxError
| BinasciiError
| UnicodeError
| OtherError (what : string)
| Exception (msg : string).

Inductive result (A : Type) : Type :=
| Ok (a : A)
| Err (e : exn).
Arguments Ok {A} a.
Arguments Err {A} e.

Definition result_bind {A B} (r : result A) (k : A -> result B) : result B :=
  match r with
  | Ok a => k a
  | Err e => Err e
  end.

Fixpoint result_mapM {A B} (f : A -> result B) (l : list A) : result (list B) :=
  match l with
  | [] => Ok []
  | x :: l' =>
      result_bind (f x) (fun y =>
      result_bind (result_mapM f l') (fun ys => Ok (y :: ys)))
  end.

(** ** Base64, as [base64.b64encode], [base64.b64decode] and their URL-safe
    and [fido2.utils] "websafe" variants compute it (RFC 4648) *)

Module Base64.

Definition ord (b : byte) : N := Byte.to_N b.

Definition chr (n : N) : byte :=
  match Byte.of_N (n mod 256) with
  | Some b => b
  | None => "000"%byte
  end.

Definition pad : byte := "="%byte.

Definition is_pad (c : byte) : bool := Byte.eqb c pad.

(** The standard alphabet; the URL-safe one differs in the last two. *)
Definition alphabet : list byte :=
  list_byte_of_string
    "ABCDEFGHIJKLMNOPQRSTUVWXYZabcdefghijklmnopqrstuvwxyz0123456789+/".

(** Sextet to character. *)
Definition enc6 (n : N) : byte := nth (N.to_nat n) alphabet pad.

Fixpoint index_of (c : byte) (l : list byte) (i : N) : option N :=
  match l with
  | [] => None
  | x :: l' => if Byte.eqb c x then Some i else index_of c l' (N.succ i)
  end.

(** Character to sextet; [None] outside the alphabet. *)
Definition dec6 (c : byte) : option N := index_of c alphabet 0.

(** The four sextets of a 24-bit group, most significant first. *)
Definition sextet0 (a : N) : N := a / 4.
Definition sextet1 (a b : N) : N := (a mod 4) * 16 + b / 16.
Definition sextet2 (b c : N) : N := (b mod 16) * 4 + c / 64.
Definition sextet3 (c : N) : N := c mod 64.

(** [base64.b64encode]: three bytes give four characters; a tail of one
    or two bytes is zero-filled and padded with [=]. *)
Fixpoint b64encode (bs : list byte) : list byte :=
  match bs with
  | [] => []
  | [a] =>
      [enc6 (sextet0 (ord a)); enc6 (sextet1 (ord a) 0); pad; pad]
  | [a; b] =>
      [enc6 (sextet0 (ord a)); enc6 (sextet1 (ord a) (ord b));
       enc6 (sextet2 (ord b) 0); pad]
  | a :: b :: c :: rest =>
      enc6 (sextet0 (ord a)) :: enc6 (sextet1 (ord a) (ord b))
      :: enc6 (sextet2 (ord b) (ord c)) :: enc6 (sextet3 (ord c))
      :: b64encode rest
  end.

(** The byte the decoder writes at each place of a group of four:
    [(leftchar << 2) | (this_ch >> 4)], [(leftchar << 4) | (this_ch >> 2)]
    and [(leftchar << 6) | this_ch], stored in an [unsigned char]. *)
Definition octet0 (leftchar this_ch : N) : byte :=
  chr (N.lor (N.shiftl leftchar 2) (N.shiftr this_ch 4)).
Definition octet1 (leftchar this_ch : N) : byte :=
  chr (N.lor (N.shiftl leftchar 4) (N.shiftr this_ch 2)).
Definition octet2 (leftchar this_ch : N) : byte :=
  chr (N.lor (N.shiftl leftchar 6) this_ch).

(** [bin_data] with one more byte in front of what the rest of the text
    gives. *)
Definition written (b : byte) (r : result (list byte)) : result (list byte) :=
  result_bind r (fun bs => Ok (b :: bs)).

(** The loop of [binascii.a2b_base64] without strict mode, from a state
    [quad_pos], [leftchar], [pads] on.  A [=] ends the text once at least
    two characters of the group are read and the padding fills the group;
    every other [=] and every character outside the alphabet is skipped; a
    text that ends inside a group is a [binascii.Error]. *)
Fixpoint a2b_base64_loop (quad_pos : nat) (leftchar : N) (pads : nat)
    (ascii_data : list byte) : result (list byte) :=
  match ascii_data with
  | [] => if Nat.eqb quad_pos 0 then Ok [] else Err BinasciiError
  | this_ch :: rest =>
      if is_pad this_ch then
        if Nat.leb 2 quad_pos then
          if Nat.leb 4 (quad_pos + S pads) then Ok []
          else a2b_base64_loop quad_pos leftchar (S pads) rest
        else a2b_base64_loop quad_pos leftchar pads rest
      else
        match dec6 this_ch with
        | None => a2b_base64_loop quad_pos leftchar pads rest
        | Some this_ch =>
            match quad_pos with
            | 0 => a2b_base64_loop 1 this_ch 0 rest
            | 1 => written (octet0 leftchar this_ch)
                     (a2b_base64_loop 2 (N.land this_ch 15) 0 rest)
            | 2 => written (octet1 leftchar this_ch)
                     (a2b_base64_loop 3 (N.land this_ch 3) 0 rest)
            | _ => written (octet2 leftchar this_ch)
                     (a2b_base64_loop 0 0 0 rest)
            end
        end
  end.

(** [base64.b64decode(s)] of bytes, [validate] being [False]:
    [binascii.a2b_base64(s)]. *)
Definition b64decode (cs : list byte) : result (list byte) :=
  a2b_base64_loop 0 0 0 cs.

(** [bytes.maketrans(b'+/', b'-_')] and its inverse. *)
Definition urlsafe_encode_translation (c : byte) : byte :=
  if Byte.eqb c "+"%byte then "-"%byte
  else if Byte.eqb c "/"%byte then "_"%byte
  else c.

Definition urlsafe_decode_translation (c : byte) : byte :=
  if Byte.eqb c "-"%byte then "+"%byte
  else if Byte.eqb c "_"%byte then "/"%byte
  else c.

Definition urlsafe_b64encode (bs : list byte) : list byte :=
  map urlsafe_encode_translation (b64encode bs).

Definition urlsafe_b64decode (cs : list byte) : result (list byte) :=
  b64decode (map urlsafe_decode_translation cs).

(** [str.encode('ascii')] and [bytes.decode('ascii')]. *)
Definition is_ascii (b : byte) : bool := (ord b <? 128)%N.

Definition encode_ascii (s : string) : result (list byte) :=
  let bs := list_byte_of_string s in
  if forallb is_ascii bs then Ok bs else Err UnicodeError.

Definition decode_ascii (bs : list byte) : result string :=
  if forallb is_ascii bs then Ok (string_of_list_byte bs) else Err UnicodeError.

(** [fido2.utils.websafe_encode]:
    [urlsafe_b64encode(data).replace(b"=", b"").decode("ascii")]. *)
Definition websafe_encode (data : list byte) : result string :=
  decode_ascii (List.filter (fun c => negb (is_pad c)) (urlsafe_b64encode data)).

(** [-len(data) % 4], Python's non-negative remainder. *)
Definition missing_padding (len : nat) : nat :=
  Z.to_nat ((- Z.of_nat len) mod 4).

(** [fido2.utils.websafe_decode] of a [str]:
    [data = data.encode("ascii"); data += b"=" * (-len(data) % 4);
     return urlsafe_b64decode(data)]. *)
Definition websafe_decode (data : string) : result (list byte) :=
  result_bind (encode_ascii data) (fun bs =>
  urlsafe_b64decode (bs ++ repeat pad (missing_padding (length bs)))).

End Base64.

(** ** Python values

    Everything the script handles at run time is a decoded JSON document, a
    string or a number; [json] is the universe of those values.  [JNull] is
    Python's [None]. *)

Inductive json : Type :=
| JNull
| JBool (b : bool)
| JNum (n : Z)
| JStr (s : string)
| JArr (items : list json)
| JObj (fields : list (string * json)).

Fixpoint assoc {A} (k : string) (l : list (string * A)) : option A :=
  match l with
  | [] => None
  | (k', v) :: l' => if String.eqb k k' then Some v else assoc k l'
  end.

(** [v[k]] for a string key [k]. *)
Definition getitem (v : json) (k : string) : result json :=
  match v with
  | JObj fields =>
      match assoc k fields with
      | Some x => Ok x
      | None => Err (KeyError k)
      end
  | _ => Err TypeError
  end.

(** [v == 'text'] for a string literal. *)
Definition is_str (v : json) (text : string) : bool :=
  match v with
  | JStr s => String.eqb s text
  | _ => false
  end.

(** [v is None]. *)
Definition is_None (v : json) : bool :=
  match v with
  | JNull => true
  | _ => false
  end.

(** What a [for] loop (or [sorted]) sees when it iterates over [v]: the items
    of a list, the keys of a dict, the characters of a string. *)
Definition iterate (v : json) : result (list json) :=
  match v with
  | JArr items => Ok items
  | JObj fields => Ok (map (fun kv => JStr (fst kv)) fields)
  | JStr s => Ok (map (fun c => JStr (String c EmptyString)) (list_ascii_of_string s))
  | _ => Err TypeError
  end.

(** [d.get(key, default)] on a dict with string keys: lists and dicts are
    unhashable, and no other non-string key is ever present. *)
Definition dict_get (d : gmap string Z) (key : json) (default : Z) : result Z :=
  match key with
  | JStr s => Ok (match d !! s with Some v => v | None => default end)
  | JArr _ | JObj _ => Err TypeError
  | _ => Ok default
  end.

(** [re.match('token(?::|$)', s)]: the text starts with [token] followed by a
    colon or by the end of the text ([$] also matches before a final
    newline). *)
Definition newline : string := String (ascii_of_nat 10) EmptyString.

Definition re_match_token (v : json) : result bool :=
  match v with
  | JStr s =>
      Ok (String.prefix "token:" s || String.eqb s "token"
          || String.eqb s ("token" ++ newline))
  | _ => Err TypeError
  end.

(** ** The world outside the interpreter

    The script is single-threaded and blocks on every HTTP call, prompt and
    authenticator call.  What the outside will answer is given up front as
    scripts which the run consumes from the front; what the script did is
    collected in the transcript and on the console. *)

(** The payload handed to [session.post]. *)
Inductive post_body : Type :=
| NoBody
| JsonBody (data : json)                      (* data=json.dumps(data), JSON content type *)
| FormBody (fields : list (string * string)). (* data=<dict of form fields> *)

Inductive request : Type :=
| POST (url : json) (body : post_body)
| GET (url : json) (params : list (string * json)).

(** A [requests.Response], by what the script observes of it; header names
    are kept in the one spelling the script looks them up by. *)
Record Response : Type := {
  status_code : Z;
  headers : list (string * string);
  content : list byte;
  json_body : option json          (* what [r.json()] decodes, if it decodes *)
}.

Inductive reply : Type :=
| Reply (r : Response)
| Fails (e : exn).       (* the transport itself raises: bad URL, no route, ... *)

(** One line written to the terminal, with the values formatted into it. *)
Inductive console_line : Type :=
| Echo (text : string) (values : list json)
| Prompt (text : string) (values : list json)
| Confirm (text : string).

Definition device : Type := nat.

(** The three binary fields of a FIDO2 assertion response. *)
Record assertion : Type := {
  authenticatorData : list byte;
  clientData : list byte;
  signature : list byte
}.

(** The [publicKey] request options handed to the FIDO2 client. *)
Record pubkey_request : Type := {
  challenge : list byte;
  rpId : string;
  allowCredentials : list (string * list byte)      (* type, id *)
}.

Record world : Type := {
  inbox : list reply;                (* answers to the requests to come *)
  transcript : list (request * option reply);  (* requests made, oldest first *)
  typed : list string;               (* what the user will type at prompts *)
  answers : list bool;               (* what the user will answer to confirmations *)
  plugged : list (option device);    (* what each scan for authenticators finds *)
  console : list console_line;       (* terminal output, oldest first *)
  totp_now : string -> result string;        (* pyotp.TOTP(key).now() *)
  get_assertion : option device -> string -> pubkey_request -> result assertion
}.

Definition set_http (ib : list reply) (tr : list (request * option reply))
    (w : world) : world :=
  {| inbox := ib; transcript := tr; typed := typed w; answers := answers w;
     plugged := plugged w; console := console w; totp_now := totp_now w;
     get_assertion := get_assertion w |}.

Definition set_terminal (ty : list string) (an : list bool)
    (co : list console_line) (w : world) : world :=
  {| inbox := inbox w; transcript := transcript w; typed := ty; answers := an;
     plugged := plugged w; console := co; totp_now := totp_now w;
     get_assertion := get_assertion w |}.

Definition set_plugged (pl : list (option device)) (w : world) : world :=
  {| inbox := inbox w; transcript := transcript w; typed := typed w;
     answers := answers w; plugged := pl; console := console w;
     totp_now := totp_now w; get_assertion := get_assertion w |}.

(** How a piece of the script ends. *)
Inductive outcome (A : Type) : Type :=
| Returns (a : A)
| Raises (e : exn)
| Blocks            (* waits for an answer the scripts do not contain *)
| Unfinished.       (* a loop was cut off by its iteration budget *)
Arguments Returns {A} a.
Arguments Raises {A} e.
Arguments Blocks {A}.
Arguments Unfinished {A}.

Definition M (A : Type) : Type := world -> outcome A * world.

Definition ret {A} (a : A) : M A := fun w => (Returns a, w).

Definition bind {A B} (m : M A) (k : A -> M B) : M B :=
  fun w =>
    match m w with
    | (Returns a, w') => k a w'
    | (Raises e, w') => (Raises e, w')
    | (Blocks, w') => (Blocks, w')
    | (Unfinished, w') => (Unfinished, w')
    end.

Declare Scope py_scope.
Delimit Scope py_scope with py.
Notation "'let*' x ':=' m 'in' k" := (bind m (fun x => k))
  (at level 10, x name, m at level 100, k at level 200) : py_scope.
Notation "'run' m 'in' k" := (bind m (fun _ => k))
  (at level 10, m at level 100, k at level 200) : py_scope.
Local Open Scope py_scope.

Definition raise {A} (e : exn) : M A := fun w => (Raises e, w).

Definition lift {A} (r : result A) : M A :=
  match r with
  | Ok a => ret a
  | Err e => raise e
  end.

(** [assert cond]. *)
Definition assert (cond : bool) : M unit :=
  if cond then ret tt else raise AssertionError.

(** [try: body / except KeyError: handler]. *)
Definition except_KeyError {A} (body : M A) (handler : M A) : M A :=
  fun w =>
    match body w with
    | (Raises (KeyError _), w') => handler w'
    | other => other
    end.

(** [while True:] with a body that either goes round again with new values
    of the loop's variables ([inl]) or leaves the loop ([inr]). *)
Fixpoint while_true {S A} (budget : nat) (body : S -> M (S + A)) (s : S) : M A :=
  match budget with
  | O => fun w => (Unfinished, w)
  | Datatypes.S budget' =>
      let* x := body s in
      match x with
      | inl s' => while_true budget' body s'
      | inr a => ret a
      end
  end.

(** A loop whose every round consumes one scripted answer needs no more
    rounds than there are answers left, plus the round that finds none. *)
Definition while_consuming {S A} (left : world -> nat)
    (body : S -> M (S + A)) (s : S) : M A :=
  fun w => while_true (Datatypes.S (left w)) body s w.

(** [session.post] and [session.get]: the request goes out and the next
    scripted answer comes back. *)
Definition send (req : request) : M Response :=
  fun w =>
    match inbox w with
    | [] => (Blocks, set_http [] (transcript w ++ [(req, None)]) w)
    | Reply r :: rest =>
        (Returns r, set_http rest (transcript w ++ [(req, Some (Reply r))]) w)
    | Fails e :: rest =>
        (Raises e, set_http rest (transcript w ++ [(req, Some (Fails e))]) w)
    end.

(** [click.echo]. *)
Definition click_echo (text : string) (values : list json) : M unit :=
  fun w => (Returns tt,
            set_terminal (typed w) (answers w) (console w ++ [Echo text values]) w).

(** [click.prompt] without a default: the question is put again as long as
    the answer is empty. *)
Fixpoint ask_until_answered (question : console_line) (lines : list string)
    (co : list console_line) : outcome json * list string * list console_line :=
  match lines with
  | [] => (Blocks, [], co ++ [question])
  | line :: rest =>
      if String.eqb line "" then ask_until_answered question rest (co ++ [question])
      else (Returns (JStr line), rest, co ++ [question])
  end.

Definition click_prompt (text : string) (values : list json) : M json :=
  fun w =>
    let '(o, rest, co) :=
      ask_until_answered (Prompt text values) (typed w) (console w) in
    (o, set_terminal rest (answers w) co w).

(** [click.confirm]. *)
Definition click_confirm (text : string) : M bool :=
  fun w =>
    let co := console w ++ [Confirm text] in
    match answers w with
    | [] => (Blocks, set_terminal (typed w) [] co w)
    | b :: rest => (Returns b, set_terminal (typed w) rest co w)
    end.

(** [next(list_devices(), None)]; once the script of scans is used up
    nothing is plugged in. *)
Definition next_device : M (option device) :=
  fun w =>
    match plugged w with
    | [] => (Returns None, w)
    | d :: rest => (Returns d, set_plugged rest w)
    end.

Definition ask {A} (f : world -> A) : M A := fun w => (Returns (f w), w).

(** ** The script: HTTP helpers *)

(** [check(r)]: [raise_for_status] raises for a 4xx or 5xx status. *)
Definition check (r : Response) : M Response :=
  if (400 <=? status_code r)%Z && (status_code r <? 600)%Z
  then raise (HTTPError (status_code r))
  else ret r.

(** [r.json()]. *)
Definition Response_json (r : Response) : M json :=
  match json_body r with
  | Some j => ret j
  | None => raise JSONDecodeError
  end.

Definition post_json (url : json) (data : json) : M json :=
  let* r := (let* r := send (POST url (JsonBody data)) in check r) in
  Response_json r.

Fixpoint getpath (v : json) (keys : list string) : result json :=
  match keys with
  | [] => Ok v
  | k :: keys' => result_bind (getitem v k) (fun v' => getpath v' keys')
  end.

(** ** The script: factor ordering *)

(** [priority(factor)] inside [okta_auth]. *)
Definition priority (factor_priorities : gmap string Z) (factor : json) : result Z :=
  result_bind (getitem factor "factorType") (fun ft =>
  dict_get factor_priorities ft 0).

(** [sorted(..., key=..., reverse=True)] keeps items with equal keys in
    their original order; with the keys computed, it is this stable
    insertion sort by decreasing key. *)
Fixpoint insert_desc {A} (x : Z * A) (l : list (Z * A)) : list (Z * A) :=
  match l with
  | [] => [x]
  | y :: l' =>
      if (fst x <? fst y)%Z then y :: insert_desc x l' else x :: y :: l'
  end.

Definition sort_desc {A} (l : list (Z * A)) : list (Z * A) :=
  foldr insert_desc [] l.

(** [sorted(factors, key=priority, reverse=True)]: the keys are computed
    first, in order (the first failing one raises), then the items sorted. *)
Definition sorted_factors (factor_priorities : gmap string Z)
    (factors : list json) : result (list json) :=
  result_bind (result_mapM (priority factor_priorities) factors) (fun keys =>
  Ok (map snd (sort_desc (zip keys factors)))).

(** The [factor_priorities] dict built at the end of [main]:
    [{'token:software:totp': 0 if totp_key is None else 2, 'push': 1,
      **dict(factor_priorities)}].  In [dict(pairs)] a later pair replaces an
    earlier one with the same key. *)
Definition dict_of_pairs (pairs : list (string * Z)) : gmap string Z :=
  foldl (fun d kv => <[fst kv := snd kv]> d) ∅ pairs.

Definition main_factor_priorities (totp_key : option string)
    (factor_priorities : list (string * Z)) : gmap string Z :=
  dict_of_pairs factor_priorities
  ∪ dict_of_pairs
      [("token:software:totp", match totp_key with None => 0%Z | Some _ => 2%Z end);
       ("push", 1%Z)].

(** ** The script: [OktaWebauthn] *)

Definition WEBAUTHN_URL_TEMPLATE (domain : string) : string :=
  "https://" ++ domain ++ "/api/v1/authn/factors/webauthn/verify".

(** [OktaWebauthn.get_device]; the result is [self._device], and the method
    returns whether it is not [None]. *)
Definition get_device_round (dev : option device) : M (option device + option device) :=
  match dev with
  | Some _ => ret (inr dev)
  | None =>
      run click_echo
        "Please insert a suitable device if you wish to continue with webauthn MFA." [] in
      let* go := click_confirm "Continue with webauthn MFA?" in
      if go : bool then
        let* dev' := next_device in ret (inl dev')
      else
        run click_echo "Falling back to other MFA method." [] in
        ret (inr None)
  end.

Definition get_device : M (option device) :=
  let* dev := next_device in
  while_consuming (fun w => length (answers w)) get_device_round dev.

(** [websafe_decode] applied to a decoded JSON value. *)
Definition websafe_decode_value (v : json) : result (list byte) :=
  match v with
  | JStr s => Base64.websafe_decode s
  | _ => Err TypeError
  end.

(** The local function [b64] of [okta_verify]:
    [base64.b64encode(websafe_decode(websafe_encode(obj))).decode('ascii')]. *)
Definition b64 (obj : list byte) : result string :=
  result_bind (Base64.websafe_encode obj) (fun text =>
  result_bind (Base64.websafe_decode text) (fun raw =>
  Base64.decode_ascii (Base64.b64encode raw))).

Definition allow_credential (f : json) : result (string * list byte) :=
  result_bind (getpath f ["profile"; "credentialId"]) (fun cid =>
  result_bind (websafe_decode_value cid) (fun id => Ok ("public-key", id))).

(** The [payload] dict of [okta_verify]. *)
Definition okta_verify_payload (a : assertion) (r : json) : result json :=
  result_bind (b64 (authenticatorData a)) (fun ad =>
  result_bind (b64 (clientData a)) (fun cd =>
  result_bind (b64 (signature a)) (fun sd =>
  result_bind (getitem r "stateToken") (fun tok =>
  Ok (JObj [("authenticatorData", JStr ad); ("clientData", JStr cd);
            ("signatureData", JStr sd); ("stateToken", tok)]))))).

Definition okta_verify (dev : option device) (domain : string) (stateToken : json) : M json :=
  let url := WEBAUTHN_URL_TEMPLATE domain in
  let* r := post_json (JStr url) (JObj [("stateToken", stateToken)]) in
  let* st := lift (getitem r "status") in
  run assert (is_str st "MFA_CHALLENGE") in
  let* ch := lift (getpath r ["_embedded"; "challenge"; "challenge"]) in
  let* ch_bytes := lift (websafe_decode_value ch) in
  let* fs := lift (getpath r ["_embedded"; "factors"]) in
  let* fl := lift (iterate fs) in
  let* creds := lift (result_mapM allow_credential fl) in
  let pubkey_req :=
    {| challenge := ch_bytes; rpId := domain; allowCredentials := creds |} in
  let* a := (fun w => lift (get_assertion w dev ("https://" ++ domain) pubkey_req) w) in
  let* next_url := lift (getpath r ["_links"; "next"; "href"]) in
  let* payload := lift (okta_verify_payload a r) in
  post_json next_url payload.

(** ** The script: [okta_auth] *)

Section Okta.

(** Whether [fido2] could be imported. *)
Variable HAS_FIDO2 : bool.

(** One round of the [while True] loop of the [push] branch; the loop's
    variables are the last response [r] and [correct_answer]. *)
Definition push_round (url : json) (vars : json * json) : M (json * json + json) :=
  let '(r, correct_answer) := vars in
  let* tok := lift (getitem r "stateToken") in
  let* r := post_json url (JObj [("stateToken", tok)]) in
  let* st := lift (getitem r "status") in
  if negb (is_str st "MFA_CHALLENGE") then ret (inr r)
  else
    let* fr := lift (getitem r "factorResult") in
    run assert (is_str fr "WAITING") in
    let* correct_answer :=
      (if is_None correct_answer then
         except_KeyError
           (let* ca := lift (getpath r ["_embedded"; "factor"; "_embedded";
                                         "challenge"; "correctAnswer"]) in
            run click_echo "Correct 3-number answer is: {}" [ca] in
            ret ca)
           (ret correct_answer)
       else ret correct_answer) in
    ret (inl (r, correct_answer)).

Definition verify_push (factor r : json) : M json :=
  let* url := lift (getpath factor ["_links"; "verify"; "href"]) in
  while_consuming (fun w => length (inbox w)) (push_round url) (r, JNull).

Definition verify_sms (factor r : json) : M json :=
  let* url := lift (getpath factor ["_links"; "verify"; "href"]) in
  let* tok := lift (getitem r "stateToken") in
  let* r := post_json url (JObj [("stateToken", tok)]) in
  let* st := lift (getitem r "status") in
  run assert (is_str st "MFA_CHALLENGE") in
  let* code := click_prompt "SMS code" [] in
  let* tok := lift (getitem r "stateToken") in
  post_json url (JObj [("stateToken", tok); ("passCode", code)]).

Definition verify_token (totp_key : option string) (factor ft r : json) : M json :=
  let* url := lift (getpath factor ["_links"; "verify"; "href"]) in
  let* code :=
    match is_str ft "token:software:totp", totp_key with
    | true, Some key =>
        let* now := (fun w => lift (totp_now w key) w) in ret (JStr now)
    | _, _ =>
        let* provider := lift (getitem factor "provider") in
        let* vendor := lift (getitem factor "vendorName") in
        click_prompt "One-time code for {} ({})" [provider; vendor]
    end in
  let* tok := lift (getitem r "stateToken") in
  post_json url (JObj [("stateToken", tok); ("passCode", code)]).

(** The [for factor in sorted(...)] loop with its [else] clause;
    [factors] is what is left to iterate over. *)
Fixpoint try_factors (domain : string) (totp_key : option string)
    (factors : list json) (ignore_webauthn : bool) (r : json) : M json :=
  match factors with
  | [] => raise (Exception "No supported authentication factors")
  | factor :: rest =>
      let* ft := lift (getitem factor "factorType") in
      if is_str ft "push" then verify_push factor r
      else if is_str ft "sms" then verify_sms factor r
      else if is_str ft "webauthn" && negb ignore_webauthn then
        run assert HAS_FIDO2 in
        let* dev := get_device in
        match dev with
        | Some _ =>
            let* tok := lift (getitem r "stateToken") in
            okta_verify dev domain tok
        | None => try_factors domain totp_key rest true r
        end
      else
        let* is_token := lift (re_match_token ft) in
        if is_token : bool then verify_token totp_key factor ft r
        else try_factors domain totp_key rest ignore_webauthn r
  end.

(** The [if r['status'] == 'MFA_REQUIRED':] block. *)
Definition negotiate (domain : string) (factor_priorities : gmap string Z)
    (totp_key : option string) (r : json) : M json :=
  let* offered := lift (getpath r ["_embedded"; "factors"]) in
  let* items := lift (iterate offered) in
  let* ordered := lift (sorted_factors factor_priorities items) in
  try_factors domain totp_key ordered (negb HAS_FIDO2) r.

(** The last three statements of [okta_auth]. *)
Definition session_token (r : json) : M json :=
  let* st := lift (getitem r "status") in
  if is_str st "LOCKED_OUT" then raise (Exception "Locked out of Okta!")
  else
    run assert (is_str st "SUCCESS") in
    lift (getitem r "sessionToken").

Definition authn_request (domain : string) (username password : json) : request :=
  POST (JStr ("https://" ++ domain ++ "/api/v1/authn"))
       (JsonBody (JObj [("username", username); ("password", password)])).

Definition okta_auth (domain : string) (username password : json)
    (factor_priorities : gmap string Z) (totp_key : option string) : M json :=
  let* r := post_json (JStr ("https://" ++ domain ++ "/api/v1/authn"))
              (JObj [("username", username); ("password", password)]) in
  let* st := lift (getitem r "status") in
  let* r :=
    (if is_str st "MFA_REQUIRED"
     then negotiate domain factor_priorities totp_key r
     else ret r) in
  session_token r.

End Okta.

(** ** The script: the SAML exchange *)

(** An element of a tree parsed by [lxml]. *)
Inductive element : Type :=
| Element (tag : string) (attrib : list (string * string)) (text : option string)
          (children : list element).

Definition tag_of (e : element) : string := let 'Element t _ _ _ := e in t.
Definition attrib_of (e : element) : list (string * string) := let 'Element _ a _ _ := e in a.
Definition text_of (e : element) : option string := let 'Element _ _ t _ := e in t.
Definition children_of (e : element) : list element := let 'Element _ _ _ c := e in c.

(** [e.findall('tag')]: the children of [e] with that tag. *)
Definition findall (e : element) (tag : string) : list element :=
  List.filter (fun c => String.eqb (tag_of c) tag) (children_of e).

(** [e.find('tag')]: the first such child. *)
Definition find (e : element) (tag : string) : option element :=
  head (findall e tag).

(** [e.find('.//tag')]: the first descendant of [e] with that tag, in
    document order. *)
Fixpoint find_descendant (tag : string) (e : element) : option element :=
  let 'Element _ _ _ cs := e in
  (fix among (l : list element) : option element :=
     match l with
     | [] => None
     | c :: l' =>
         if String.eqb (tag_of c) tag then Some c
         else match find_descendant tag c with
              | Some d => Some d
              | None => among l'
              end
     end) cs.

(** [d[k] = v] on a dict kept in insertion order. *)
Fixpoint dict_set (k v : string) (d : list (string * string)) : list (string * string) :=
  match d with
  | [] => [(k, v)]
  | (k', v') :: d' => if String.eqb k k' then (k, v) :: d' else (k', v') :: dict_set k v d'
  end.

(** [m[k]] on a mapping with string values. *)
Definition lookup_attr (k : string) (m : list (string * string)) : result string :=
  match assoc k m with
  | Some v => Ok v
  | None => Err (KeyError k)
  end.

(** [k in d]. *)
Definition contains (k : string) (d : list (string * string)) : bool :=
  match assoc k d with
  | Some _ => true
  | None => false
  end.

(** [base64.b64decode] of a [str]. *)
Definition b64decode_str (text : string) : result (list byte) :=
  result_bind (Base64.encode_ascii text) Base64.b64decode.

Section Saml.

Variable HAS_FIDO2 : bool.

(** The parsers and URL helpers of [lxml] and [urllib]. *)
Variable xml_fromstring : list byte -> result element.
Variable html_fromstring : list byte -> result element.
Variable urlencode : list (string * string) -> string.
Variable netloc : string -> string.

(** The dict comprehension of [extract_form]. *)
Fixpoint input_fields (inputs : list element) (d : list (string * string))
    : result (list (string * string)) :=
  match inputs with
  | [] => Ok d
  | inp :: inputs' =>
      result_bind (lookup_attr "name" (attrib_of inp)) (fun name =>
      result_bind (lookup_attr "value" (attrib_of inp)) (fun value =>
      input_fields inputs' (dict_set name value d)))
  end.

Definition extract_form (html : list byte)
    : result (string * list (string * string)) :=
  result_bind (html_fromstring html) (fun doc =>
  match find_descendant "form" doc with
  | None => Err AttributeError
  | Some form =>
      result_bind (lookup_attr "action" (attrib_of form)) (fun action =>
      result_bind (input_fields (findall form "input") []) (fun fields =>
      Ok (action, fields)))
  end).

(** What [prelogin] extracts from the gateway's answer: up to and
    including its call of [extract_form]. *)
Definition prelogin_form (r : Response) : result (string * list (string * string)) :=
  result_bind (xml_fromstring (content r)) (fun doc =>
  match find doc "saml-request" with
  | None => Err AttributeError
  | Some node =>
      match text_of node with
      | None => Err TypeError
      | Some text =>
          result_bind (b64decode_str text) (fun saml_req_html =>
          extract_form saml_req_html)
      end
  end).

Definition prelogin (gateway : string) : M string :=
  let* r := (let* r := send (POST (JStr ("https://" ++ gateway ++ "/ssl-vpn/prelogin.esp")) NoBody) in
             check r) in
  let* form := lift (prelogin_form r) in
  let '(saml_req_url, saml_req_data) := form in
  run assert (contains "SAMLRequest" saml_req_data) in
  ret (saml_req_url ++ "?" ++ urlencode saml_req_data)%string.

Definition okta_saml (saml_req_url : string) (username password : json)
    (factor_priorities : gmap string Z) (totp_key : option string)
    : M (string * list (string * string)) :=
  let domain := netloc saml_req_url in
  run (let* r := send (GET (JStr saml_req_url) []) in check r) in
  let* token := okta_auth HAS_FIDO2 domain username password factor_priorities totp_key in
  let* r := (let* r := send (GET (JStr ("https://" ++ domain ++ "/login/sessionCookieRedirect"))
                                 [("token", token); ("redirectUrl", JStr saml_req_url)]) in
             check r) in
  let* form := lift (extract_form (content r)) in
  let '(saml_resp_url, saml_resp_data) := form in
  run assert (contains "SAMLResponse" saml_resp_data) in
  ret (saml_resp_url, saml_resp_data).

Definition complete_saml (saml_resp_url : string)
    (saml_resp_data : list (string * string)) : M (string * string) :=
  let* r := (let* r := send (POST (JStr saml_resp_url) (FormBody saml_resp_data)) in
             check r) in
  let* user := lift (lookup_attr "saml-username" (headers r)) in
  let* cookie := lift (lookup_attr "prelogin-cookie" (headers r)) in
  ret (user, cookie).

(** The [with requests.Session() as s:] block of [main]. *)
Definition main_session (gateway : string) (username password : json)
    (factor_priorities : gmap string Z) (totp_key : option string)
    : M (string * string) :=
  let* saml_req_url := prelogin gateway in
  let* resp := okta_saml saml_req_url username password factor_priorities totp_key in
  let '(saml_resp_url, saml_resp_data) := resp in
  complete_saml saml_resp_url saml_resp_data.

End Saml.

(** ** The script: the process supervisor

    [signal_mask], [signal_handler] and [popen_forward_sigterm], over a model
    of what the kernel and the interpreter keep for the supervising process
    (blocked set, pending set, Python-level handlers) and for the child.
    SIGTERM is the only signal the outside sends here.  A signal that arrives
    while blocked stays pending; when it is unblocked, or arrives unblocked,
    the handler installed at that moment runs at once (the interpreter runs
    Python handlers before [pthread_sigmask] returns and between any two
    statements). *)

Module Supervisor.

Definition signum : Type := nat.
Definition SIGTERM : signum := 15.

Inductive handler : Type :=
| SIG_DFL
| SIG_IGN
| Callable (f : nat)      (* some Python function installed before *)
| Forward.                (* lambda *args: p.terminate() *)

Inductive how : Type := SIG_BLOCK | SIG_UNBLOCK | SIG_SETMASK.

Inductive liveness : Type := Running | Exited | Reaped.

Record child : Type := {
  mask_at_fork : gset signum;   (* blocked set inherited by fork *)
  mask_at_exec : gset signum;   (* blocked set the executed program starts with *)
  alive : liveness;
  sigterms : nat;               (* SIGTERMs sent to it while it ran *)
  stdin_open : bool;
  stdin_written : bool
}.

Record state : Type := {
  sigmask : gset signum;
  pending : gset signum;
  handlers : gmap signum handler;    (* absent: SIG_DFL *)
  kid : option child;
  called : list nat                  (* earlier Python handlers that ran *)
}.

Definition handler_of (s : state) (sig : signum) : handler :=
  match handlers s !! sig with
  | Some h => h
  | None => SIG_DFL
  end.

(** How a piece of the supervisor ends: normally, by an exception, or
    with the supervising process killed by the signal's default action. *)
Inductive fate (A : Type) : Type :=
| Value (a : A)
| Throws
| Killed.
Arguments Value {A} a.
Arguments Throws {A}.
Arguments Killed {A}.

Definition Sup (A : Type) : Type := state -> fate A * state.

Definition ret {A} (a : A) : Sup A := fun s => (Value a, s).

Definition bind {A B} (m : Sup A) (k : A -> Sup B) : Sup B :=
  fun s =>
    match m s with
    | (Value a, s') => k a s'
    | (Throws, s') => (Throws, s')
    | (Killed, s') => (Killed, s')
    end.

Declare Scope sup_scope.
Delimit Scope sup_scope with sup.
Notation "'let*' x ':=' m 'in' k" := (bind m (fun x => k))
  (at level 10, x name, m at level 100, k at level 200) : sup_scope.
Notation "'run' m 'in' k" := (bind m (fun _ => k))
  (at level 10, m at level 100, k at level 200) : sup_scope.
Local Open Scope sup_scope.

(** [try: body / finally: cleanup]. *)
Definition finally {A} (body : Sup A) (cleanup : Sup unit) : Sup A :=
  fun s =>
    match body s with
    | (Value a, s') =>
        match cleanup s' with
        | (Value _, s'') => (Value a, s'')
        | (Throws, s'') => (Throws, s'')
        | (Killed, s'') => (Killed, s'')
        end
    | (Throws, s') =>
        match cleanup s' with
        | (Value _, s'') => (Throws, s'')
        | (Throws, s'') => (Throws, s'')
        | (Killed, s'') => (Killed, s'')
        end
    | (Killed, s') => (Killed, s')
    end.

Definition update_kid (f : child -> child) : Sup unit :=
  fun s =>
    (Value tt,
     {| sigmask := sigmask s; pending := pending s; handlers := handlers s;
        kid := f <$> kid s; called := called s |}).

(** [p.terminate()]: [send_signal] polls first, which reaps a child that
    has exited; the signal is sent only to a child that is still running. *)
Definition terminate : Sup unit :=
  update_kid (fun c =>
    match alive c with
    | Running =>
        {| mask_at_fork := mask_at_fork c; mask_at_exec := mask_at_exec c;
           alive := Running; sigterms := S (sigterms c);
           stdin_open := stdin_open c; stdin_written := stdin_written c |}
    | Exited =>
        {| mask_at_fork := mask_at_fork c; mask_at_exec := mask_at_exec c;
           alive := Reaped; sigterms := sigterms c;
           stdin_open := stdin_open c; stdin_written := stdin_written c |}
    | Reaped => c
    end).

(** What the supervising process does when a SIGTERM is delivered. *)
Definition dispatch : Sup unit :=
  fun s =>
    match handler_of s SIGTERM with
    | Forward => terminate s
    | Callable f =>
        (Value tt,
         {| sigmask := sigmask s; pending := pending s; handlers := handlers s;
            kid := kid s; called := called s ++ [f] |})
    | SIG_IGN => (Value tt, s)
    | SIG_DFL => (Killed, s)
    end.

(** Deliver a pending SIGTERM if it is not blocked. *)
Definition check_signals : Sup unit :=
  fun s =>
    if bool_decide (SIGTERM ∈ pending s) && bool_decide (SIGTERM ∉ sigmask s) then
      dispatch
        {| sigmask := sigmask s; pending := pending s ∖ {[SIGTERM]};
           handlers := handlers s; kid := kid s; called := called s |}
    else (Value tt, s).

(** A SIGTERM is sent to the supervising process. *)
Definition arrive : Sup unit :=
  fun s =>
    check_signals
      {| sigmask := sigmask s; pending := pending s ∪ {[SIGTERM]};
         handlers := handlers s; kid := kid s; called := called s |}.

Definition new_mask (h : how) (mask old : gset signum) : gset signum :=
  match h with
  | SIG_BLOCK => old ∪ mask
  | SIG_UNBLOCK => old ∖ mask
  | SIG_SETMASK => mask
  end.

(** [signal.pthread_sigmask(how, mask)]; returns the old mask. *)
Definition pthread_sigmask (h : how) (mask : gset signum) : Sup (gset signum) :=
  fun s =>
    let old := sigmask s in
    match check_signals
            {| sigmask := new_mask h mask old; pending := pending s;
               handlers := handlers s; kid := kid s; called := called s |} with
    | (Value _, s') => (Value old, s')
    | (Throws, s') => (Throws, s')
    | (Killed, s') => (Killed, s')
    end.

(** [signal.signal(num, handler)]; returns the old handler. *)
Definition signal (num : signum) (h : handler) : Sup handler :=
  fun s =>
    (Value (handler_of s num),
     {| sigmask := sigmask s; pending := pending s;
        handlers := <[num := h]> (handlers s); kid := kid s; called := called s |}).

(** [with signal_mask(how, mask) as old_mask: body], where [before_exit]
    is whatever happens from outside just before the [finally] clause. *)
Definition signal_mask {A} (h : how) (mask : gset signum)
    (before_exit : Sup unit) (body : gset signum -> Sup A) : Sup A :=
  let* old_mask := pthread_sigmask h mask in
  finally (body old_mask)
    (run before_exit in
     run pthread_sigmask SIG_SETMASK old_mask in ret tt).

(** [with signal_handler(num, handler) as old_handler: body]. *)
Definition signal_handler {A} (num : signum) (h : handler)
    (before_exit : Sup unit) (body : handler -> Sup A) : Sup A :=
  let* old_handler := signal num h in
  finally (body old_handler)
    (run before_exit in
     run signal num old_handler in ret tt).

(** [subprocess.Popen(args, stdin=PIPE, preexec_fn=...)]: fork, run
    [preexec_fn] in the child, execute the program. *)
Definition Popen (preexec_fn : gset signum -> gset signum) : Sup unit :=
  fun s =>
    (Value tt,
     {| sigmask := sigmask s; pending := pending s; handlers := handlers s;
        kid := Some {| mask_at_fork := sigmask s;
                       mask_at_exec := preexec_fn (sigmask s);
                       alive := Running; sigterms := 0;
                       stdin_open := true; stdin_written := false |};
        called := called s |}).

(** Closing the pipe flushes what was written to it, and the flush fails
    when the child, which held the other end, has exited. *)
Definition pipe_breaks (s : state) : bool :=
  match kid s with
  | Some c =>
      stdin_open c && stdin_written c
      && match alive c with Running => false | _ => true end
  | None => false
  end.

(** [p.stdin.close()] on the buffered pipe: it raises [BrokenPipeError] when
    the flush fails; the pipe is closed either way, and closing it once more
    does nothing. *)
Definition close_stdin : Sup unit :=
  fun s =>
    let (_, closed) :=
      update_kid (fun c =>
        {| mask_at_fork := mask_at_fork c; mask_at_exec := mask_at_exec c;
           alive := alive c; sigterms := sigterms c;
           stdin_open := false; stdin_written := stdin_written c |}) s in
    if pipe_breaks s then (Throws, closed) else (Value tt, closed).

Definition set_alive (l : liveness) : Sup unit :=
  update_kid (fun c =>
    {| mask_at_fork := mask_at_fork c; mask_at_exec := mask_at_exec c;
       alive := l; sigterms := sigterms c;
       stdin_open := stdin_open c; stdin_written := stdin_written c |}).

(** The child exits. *)
Definition child_exits : Sup unit :=
  update_kid (fun c =>
    match alive c with
    | Running =>
        {| mask_at_fork := mask_at_fork c; mask_at_exec := mask_at_exec c;
           alive := Exited; sigterms := sigterms c;
           stdin_open := stdin_open c; stdin_written := stdin_written c |}
    | _ => c
    end).

(** [os.waitid(os.P_PID, p.pid, os.WEXITED | os.WNOWAIT)]: returns once
    the child has exited and leaves it unreaped; it raises
    [ChildProcessError] when the child has been reaped already. *)
Definition waitid : Sup unit :=
  fun s =>
    match alive <$> kid s with
    | Some Reaped => (Throws, s)
    | _ => child_exits s
    end.

(** [Popen.__exit__]: close the pipe, and whether or not that raises, wait
    for the child and reap it. *)
Definition Popen_exit : Sup unit :=
  finally close_stdin (set_alive Reaped).

(** [with subprocess.Popen(...) as p: body]. *)
Definition with_Popen {A} (preexec_fn : gset signum -> gset signum)
    (before_exit : Sup unit) (body : Sup A) : Sup A :=
  run Popen preexec_fn in
  finally body (run before_exit in Popen_exit).

(** What the outside does during one run: the point at which a SIGTERM
    is sent to the supervisor, the point at which the child exits of its
    own accord, and whether the caller's write succeeds. *)
Record plan : Type := {
  sigterm_at : option nat;
  child_exit_at : option nat;
  write_ok : bool
}.

Definition happens (at_ : option nat) (i : nat) : bool :=
  match at_ with
  | Some k => Nat.eqb k i
  | None => false
  end.

(** Point [i] of the run, between two statements. *)
Definition point (pl : plan) (i : nat) : Sup unit :=
  run (if happens (child_exit_at pl) i then child_exits else ret tt) in
  if happens (sigterm_at pl) i then arrive else ret tt.

(** The body of the [with] statement in [main]:
    [p.stdin.write(prelogin_cookie.encode())]. *)
Definition stdin_write (pl : plan) : Sup unit :=
  if write_ok pl then
    update_kid (fun c =>
      {| mask_at_fork := mask_at_fork c; mask_at_exec := mask_at_exec c;
         alive := alive c; sigterms := sigterms c;
         stdin_open := stdin_open c; stdin_written := true |})
  else fun s => (Throws, s).

(** [with popen_forward_sigterm(args, stdin=PIPE) as p: caller]. *)
Definition popen_forward_sigterm (pl : plan) (caller : Sup unit) : Sup unit :=
  signal_mask SIG_BLOCK {[SIGTERM]} (point pl 10) (fun old_mask =>
    run point pl 1 in
    with_Popen (fun _ => old_mask) (point pl 9)
      (run point pl 2 in
       signal_handler SIGTERM Forward (point pl 8) (fun _ =>
         run point pl 3 in
         signal_mask SIG_SETMASK old_mask (point pl 7) (fun _ =>
           run point pl 4 in
           run caller in                       (* yield p *)
           run point pl 5 in
           run close_stdin in                  (* if p.stdin: p.stdin.close() *)
           run point pl 6 in
           waitid)))).

(** The last two statements of [main], up to [sys.exit]. *)
Definition main_supervise (pl : plan) : Sup unit :=
  popen_forward_sigterm pl (stdin_write pl).

Definition initial (mask : gset signum) (hs : gmap signum handler) : state :=
  {| sigmask := mask; pending := ∅; handlers := hs; kid := None; called := [] |}.

Definition sigterms_received (s : state) : nat :=
  match kid s with
  | Some c => sigterms c
  | None => 0
  end.

End Supervisor.

(** ** The script: [run_cmd] and the first half of [main]

    What [main] does before it opens the session: it works out its settings
    from the command line and the configuration file, runs the commands that
    produce secrets, and asks for what is still missing.  [configparser],
    [shlex], [subprocess] and [str.splitlines] are the library's; the parts
    of them that depend on more than the script shows are parameters. *)

Module Main.

(** Python's truth value of an object. *)
Definition truthy (v : json) : bool :=
  match v with
  | JNull => false
  | JBool b => b
  | JNum n => negb (n =? 0)%Z
  | JStr s => negb (String.eqb s "")
  | JArr items => negb (Nat.eqb (length items) 0)
  | JObj fields => negb (Nat.eqb (length fields) 0)
  end.

(** The parameters [click] calls [main] with; an option that was not given
    is [None]. *)
Record options : Type := {
  cli_gateway : option string;
  cli_openconnect_args : list string;
  cli_config : string;
  cli_username : option string;
  cli_password : option string;
  cli_password_cmd : option string;
  cli_factor_priorities : list (string * Z);
  cli_totp_key : option string;
  cli_totp_key_cmd : option string;
  cli_sudo : option bool
}.

Definition py_opt (o : option string) : json :=
  match o with
  | Some s => JStr s
  | None => JNull
  end.

(** [locals()] at the first statement of [main]. *)
Definition main_locals (c : options) : list (string * json) :=
  [("gateway", py_opt (cli_gateway c));
   ("openconnect_args", JArr (map JStr (cli_openconnect_args c)));
   ("config", JStr (cli_config c));
   ("username", py_opt (cli_username c));
   ("password", py_opt (cli_password c));
   ("password_cmd", py_opt (cli_password_cmd c));
   ("factor_priorities",
    JArr (map (fun p => JArr [JStr (fst p); JNum (snd p)]) (cli_factor_priorities c)));
   ("totp_key", py_opt (cli_totp_key c));
   ("totp_key_cmd", py_opt (cli_totp_key_cmd c));
   ("sudo", match cli_sudo c with Some b => JBool b | None => JNull end)].

(** [args = { k: v for k, v in locals().items() if v is not None }]. *)
Definition main_args (c : options) : list (string * json) :=
  List.filter (fun kv => negb (is_None (snd kv))) (main_locals c).

(** [conf.optionxform = lambda opt: opt.replace('_', '-')]. *)
Fixpoint optionxform (opt : string) : string :=
  match opt with
  | EmptyString => EmptyString
  | String c opt' =>
      String (if Ascii.eqb c "_" then "-"%char else c) (optionxform opt')
  end.

(** A [ConfigParser] once [conf.read(config)] is done: the sections it
    holds, and the options of the [DEFAULT] section; option names are as
    [optionxform] left them, values are strings. *)
Record ConfigParser : Type := {
  conf_sections : list (string * list (string * string));
  conf_defaults : list (string * string)
}.

(** [d[k] = v] on a dict kept in insertion order. *)
Fixpoint dict_put {A} (k : string) (v : A) (d : list (string * A)) : list (string * A) :=
  match d with
  | [] => [(k, v)]
  | (k', v') :: d' =>
      if String.eqb k k' then (k, v) :: d' else (k', v') :: dict_put k v d'
  end.

Definition has_percent (value : string) : bool :=
  existsb (Ascii.eqb "%") (list_ascii_of_string value).

Record CompletedProcess : Type := {
  returncode : Z;
  stdout : string;
  stderr : string
}.

(** What [main] has settled on after reading the configuration. *)
Record settings : Type := {
  gateway : json;
  openconnect_args : list string;
  username : json;
  password : json;
  password_cmd : json;
  totp_key : json;
  totp_key_cmd : json;
  sudo : json;
  factor_priorities : list (string * Z)
}.

(** [sys.exit(code)] raises [SystemExit]. *)
Definition SystemExit (code : string) : exn := OtherError ("SystemExit: " ++ code).

Section Main.

(** [repr] of a tuple; [BasicInterpolation] on a value with a [%] in it (by
    section, option, value and the mapping it draws on); [int] on a string;
    [shlex.split]; [subprocess.run(argv, capture_output=True, text=True)];
    [str.splitlines]; and whether [pyotp] could be imported. *)
Variable repr : json -> string.
Variable interpolate_some :
  string -> string -> string -> list (string * option string) -> result string.
Variable int : string -> result Z.
Variable shlex_split : string -> result (list string).
Variable subprocess_run : list string -> result CompletedProcess.
Variable splitlines : string -> list string.
Variable pyotp : bool.

(** [str(value)]. *)
Definition str (value : json) : string :=
  match value with
  | JStr s => s
  | JBool true => "True"
  | JBool false => "False"
  | _ => repr value
  end.

(** The [vardict] of [_unify_values]: the [vars] under their transformed
    names, each value that is not [None] turned into a string. *)
Definition vardict (vars : list (string * json)) : list (string * option string) :=
  foldl (fun d kv =>
           dict_put (optionxform (fst kv))
             (if is_None (snd kv) then None else Some (str (snd kv))) d)
        [] vars.

(** [BasicInterpolation.before_get]: a value without [%] is returned as it
    is. *)
Definition before_get (section opt value : string)
    (d : list (string * option string)) : result string :=
  if has_percent value then interpolate_some section opt value d else Ok value.

(** [conf.get(section, option, vars=vars, fallback=fallback)] for a section
    other than [DEFAULT]: without the section the fallback; otherwise the
    option is looked up in [vars], then in the section, then in the
    defaults, and without it the fallback again. *)
Definition conf_get (conf : ConfigParser) (section opt : string)
    (vars : list (string * json)) (fallback : json) : result json :=
  match assoc section (conf_sections conf) with
  | None => Ok fallback
  | Some sectiondict =>
      let d := vardict vars
               ++ map (fun kv => (fst kv, Some (snd kv))) sectiondict
               ++ map (fun kv => (fst kv, Some (snd kv))) (conf_defaults conf) in
      match assoc (optionxform opt) d with
      | None => Ok fallback
      | Some None => Ok JNull
      | Some (Some value) =>
          result_bind (before_get section (optionxform opt) value d)
            (fun text => Ok (JStr text))
      end
  end.

(** [conf.has_section(section)]. *)
Definition has_section (conf : ConfigParser) (section : string) : bool :=
  match assoc section (conf_sections conf) with
  | Some _ => true
  | None => false
  end.

(** [conf.items(section)] for a section that exists: the defaults updated
    with the section, every value interpolated. *)
Definition conf_items (conf : ConfigParser) (section : string)
    : result (list (string * string)) :=
  match assoc section (conf_sections conf) with
  | None => Err (OtherError "NoSectionError")
  | Some sectiondict =>
      let d := foldl (fun d kv => dict_put (fst kv) (snd kv) d)
                     (conf_defaults conf) sectiondict in
      let mapping := map (fun kv => (fst kv, Some (snd kv))) d in
      result_mapM (fun kv =>
                     result_bind (before_get section (fst kv) (snd kv) mapping)
                       (fun text => Ok (fst kv, text))) d
  end.

(** [shlex.split] of a value [conf.get] returned. *)
Definition shlex_split_value (v : json) : result (list string) :=
  match v with
  | JStr s => shlex_split s
  | _ => Err TypeError
  end.

(** The [if conf.has_section('factor-priority'):] statement. *)
Definition with_configured_priorities (conf : ConfigParser)
    (factor_priorities : list (string * Z)) : result (list (string * Z)) :=
  if has_section conf "factor-priority" then
    result_bind (conf_items conf "factor-priority") (fun items =>
    result_bind (result_mapM (fun x => result_bind (int (snd x)) (fun n => Ok (fst x, n)))
                   items) (fun pairs =>
    Ok (factor_priorities ++ pairs)))
  else Ok factor_priorities.

(** [main], from [args = ...] to the end of the [factor-priority]
    statement. *)
Definition main_settings (c : options) (conf : ConfigParser) : result settings :=
  let args := main_args c in
  result_bind (conf_get conf "common" "gateway" args (py_opt (cli_gateway c)))
    (fun gateway =>
  result_bind (conf_get conf "common" "openconnect-args" [] (JStr "")) (fun more =>
  result_bind (shlex_split_value more) (fun more_args =>
  result_bind (conf_get conf "common" "username" args (py_opt (cli_username c)))
    (fun username =>
  result_bind (conf_get conf "common" "password" args (py_opt (cli_password c)))
    (fun password =>
  result_bind (conf_get conf "common" "password-cmd" args (py_opt (cli_password_cmd c)))
    (fun password_cmd =>
  result_bind (conf_get conf "common" "totp-key" args (py_opt (cli_totp_key c)))
    (fun totp_key =>
  result_bind (conf_get conf "common" "totp-key-cmd" args totp_key) (fun totp_key_cmd =>
  result_bind (conf_get conf "common" "sudo" args
                 (JBool (match cli_sudo c with None => false | Some b => b end)))
    (fun sudo =>
  result_bind (with_configured_priorities conf (cli_factor_priorities c))
    (fun factor_priorities =>
  Ok {| gateway := gateway;
        openconnect_args := cli_openconnect_args c ++ more_args;
        username := username; password := password; password_cmd := password_cmd;
        totp_key := totp_key; totp_key_cmd := totp_key_cmd; sudo := sudo;
        factor_priorities := factor_priorities |})))))))))).

(** [run_cmd(cmd, confvar)]; the messages go to the terminal (standard
    error and standard output are not told apart). *)
Definition run_cmd (cmd : json) (confvar : string) : M json :=
  let* argv := lift (shlex_split_value cmd) in
  let* out := lift (subprocess_run argv) in
  let output := splitlines (stdout out) in
  if negb (returncode out =? 0)%Z || Nat.eqb (length output) 0 then
    run click_echo "{} command failed with return status {}:"
          [JStr confvar; JNum (returncode out)] in
    run click_echo (stderr out) [] in
    ret JNull
  else
    run (if Nat.ltb 1 (length output) then
           click_echo ("{confvar} command produced more than"
                       ++ "one line of output, using the first one") []
         else ret tt) in
    match splitlines (stdout out) with
    | line :: _ => ret (JStr line)
    | [] => raise IndexError
    end.

(** [main], from [if (totp_key_cmd is not None):] to the last prompt; the
    result holds the values of [totp_key], [username] and [password] then. *)
Definition main_prepare (st : settings) : M settings :=
  let* totp_key :=
    (if negb (is_None (totp_key_cmd st)) then run_cmd (totp_key_cmd st) "TOTP"
     else ret (totp_key st)) in
  if negb (is_None totp_key) && negb pyotp then
    run click_echo "--totp-key requires pyotp!" [] in
    raise (SystemExit "1")
  else if is_None (gateway st) then
    run click_echo "No gateway provided" [] in
    raise (SystemExit "1")
  else
    let* username :=
      (if is_None (username st) then click_prompt "Username" []
       else ret (username st)) in
    let* password :=
      (if negb (is_None (password_cmd st)) then run_cmd (password_cmd st) "Password"
       else ret (password st)) in
    let* password :=
      (if is_None password then click_prompt "Password" [] else ret password) in
    ret {| gateway := gateway st; openconnect_args := openconnect_args st;
           username := username; password := password;
           password_cmd := password_cmd st;
           totp_key := totp_key; totp_key_cmd := totp_key_cmd st; sudo := sudo st;
           factor_priorities := factor_priorities st |}.

End Main.

(** The [subprocess_args] list of [main]. *)
Definition subprocess_args (gateway saml_username : string)
    (openconnect_args : list string) (sudo : json) : list string :=
  let subprocess_args :=
    ["openconnect"; gateway; "--protocol=gp"; "--user=" ++ saml_username;
     "--usergroup=gateway:prelogin-cookie"; "--passwd-on-stdin"]%string
    ++ openconnect_args in
  if truthy sudo then "sudo"%string :: subprocess_args else subprocess_args.

End Main.

(** * Properties *)

(** ** Base64 round trips *)

Module Base64Facts.
Import Base64.
Local Open Scope N_scope.

Ltac divmod := intros; zify; Z.to_euclidean_division_equations; lia.

Lemma ord_bound b : ord b < 256.
Proof. unfold ord. pose proof (Byte.to_N_bounded b). lia. Qed.

Lemma chr_ord b : chr (ord b) = b.
Proof.
  unfold chr. rewrite N.mod_small by apply ord_bound.
  unfold ord. now rewrite Byte.of_to_N.
Qed.

Lemma sextet0_bound a : a < 256 -> sextet0 a < 64.
Proof. unfold sextet0. divmod. Qed.

Lemma sextet1_bound a b : b < 256 -> sextet1 a b < 64.
Proof. unfold sextet1. divmod. Qed.

Lemma sextet2_bound b c : c < 256 -> sextet2 b c < 64.
Proof. unfold sextet2. divmod. Qed.

Lemma sextet3_bound c : sextet3 c < 64.
Proof. unfold sextet3. divmod. Qed.

Lemma octet0_sextets a b :
  a < 256 -> b < 256 -> sextet0 a * 4 + sextet1 a b / 16 = a.
Proof. unfold sextet0, sextet1. divmod. Qed.

Lemma octet1_sextets a b c :
  b < 256 -> c < 256 -> (sextet1 a b mod 16) * 16 + sextet2 b c / 4 = b.
Proof. unfold sextet1, sextet2. divmod. Qed.

Lemma octet2_sextets b c :
  c < 256 -> (sextet2 b c mod 4) * 64 + sextet3 c = c.
Proof. unfold sextet2, sextet3. divmod. Qed.

(** Everything the proofs need to know about one alphabet character. *)
Definition char_ok (n : N) : bool :=
  match dec6 (enc6 n) with
  | Some m => N.eqb m n
  | None => false
  end
  && negb (is_pad (enc6 n))
  && negb (is_pad (urlsafe_encode_translation (enc6 n)))
  && is_ascii (enc6 n)
  && is_ascii (urlsafe_encode_translation (enc6 n))
  && Byte.eqb (urlsafe_decode_translation (urlsafe_encode_translation (enc6 n)))
              (enc6 n).

Definition sextets : list N := map N.of_nat (seq 0 64).

Lemma sextets_ok : forallb char_ok sextets = true.
Proof. vm_compute. reflexivity. Qed.

Lemma below_64 n : n < 64 -> In n sextets.
Proof.
  intros Hn. unfold sextets. apply in_map_iff. exists (N.to_nat n). split.
  - apply N2Nat.id.
  - apply in_seq. lia.
Qed.

Lemma char_ok_below n : n < 64 -> char_ok n = true.
Proof.
  intros Hn. pose proof sextets_ok as H.
  rewrite forallb_forall in H. apply H. now apply below_64.
Qed.

Lemma dec6_enc6 n : n < 64 -> dec6 (enc6 n) = Some n.
Proof.
  intros Hn. apply char_ok_below in Hn. unfold char_ok in Hn.
  repeat (apply andb_prop in Hn; destruct Hn as [Hn ?]).
  destruct (dec6 (enc6 n)) as [m|]; [|discriminate].
  apply N.eqb_eq in Hn. now subst.
Qed.

(** The decoder's shifts and masks on two sextets, as arithmetic. *)
Definition bits_ok (x y : N) : bool :=
  N.eqb (N.lor (N.shiftl x 2) (N.shiftr y 4)) (x * 4 + y / 16)
  && N.eqb (N.lor (N.shiftl (N.land x 15) 4) (N.shiftr y 2))
           ((x mod 16) * 16 + y / 4)
  && N.eqb (N.lor (N.shiftl (N.land x 3) 6) y) ((x mod 4) * 64 + y).

Lemma sextets_bits_ok :
  forallb (fun x => forallb (bits_ok x) sextets) sextets = true.
Proof. vm_compute. reflexivity. Qed.

Lemma bits_ok_below x y : x < 64 -> y < 64 -> bits_ok x y = true.
Proof.
  intros Hx Hy. pose proof sextets_bits_ok as H.
  rewrite forallb_forall in H. specialize (H x (below_64 x Hx)).
  rewrite forallb_forall in H. exact (H y (below_64 y Hy)).
Qed.

Lemma enc6_not_pad n : n < 64 -> is_pad (enc6 n) = false.
Proof.
  intros Hn. apply char_ok_below in Hn. unfold char_ok in Hn.
  repeat (apply andb_prop in Hn; destruct Hn as [Hn ?]).
  now apply negb_true_iff.
Qed.

Lemma urlsafe_enc6_not_pad n :
  n < 64 -> is_pad (urlsafe_encode_translation (enc6 n)) = false.
Proof.
  intros Hn. apply char_ok_below in Hn. unfold char_ok in Hn.
  repeat (apply andb_prop in Hn; destruct Hn as [Hn ?]).
  now apply negb_true_iff.
Qed.

Lemma enc6_ascii n : n < 64 -> is_ascii (enc6 n) = true.
Proof.
  intros Hn. apply char_ok_below in Hn. unfold char_ok in Hn.
  repeat (apply andb_prop in Hn; destruct Hn as [Hn ?]). assumption.
Qed.

Lemma urlsafe_enc6_ascii n :
  n < 64 -> is_ascii (urlsafe_encode_translation (enc6 n)) = true.
Proof.
  intros Hn. apply char_ok_below in Hn. unfold char_ok in Hn.
  repeat (apply andb_prop in Hn; destruct Hn as [Hn ?]). assumption.
Qed.

Lemma urlsafe_enc6_back n :
  n < 64 ->
  urlsafe_decode_translation (urlsafe_encode_translation (enc6 n)) = enc6 n.
Proof.
  intros Hn. apply char_ok_below in Hn. unfold char_ok in Hn.
  repeat (apply andb_prop in Hn; destruct Hn as [Hn ?]).
  now apply Byte.byte_dec_bl.
Qed.

Lemma list_ind3 {A} (P : list A -> Prop) :
  P [] -> (forall a, P [a]) -> (forall a b, P [a; b]) ->
  (forall a b c l, P l -> P (a :: b :: c :: l)) ->
  forall l, P l.
Proof.
  intros H0 H1 H2 H3 l.
  assert (H : P l /\ (forall a, P (a :: l)) /\ (forall a b, P (a :: b :: l))).
  { induction l as [|c l [IH0 [IH1 IH2]]].
    - auto.
    - split; [apply IH1|]. split; [intros a; apply IH2|].
      intros a b. apply H3, IH0. }
  apply H.
Qed.

Lemma octet0_ok a b :
  b < 256 -> octet0 (sextet0 (ord a)) (sextet1 (ord a) b) = a.
Proof.
  intros Hb. pose proof (ord_bound a) as Ha. unfold octet0.
  pose proof (bits_ok_below (sextet0 (ord a)) (sextet1 (ord a) b)
                (sextet0_bound _ Ha) (sextet1_bound _ _ Hb)) as H.
  unfold bits_ok in H.
  repeat (apply andb_prop in H; destruct H as [H ?]).
  apply N.eqb_eq in H. rewrite H.
  rewrite octet0_sextets by assumption. apply chr_ord.
Qed.

Lemma octet1_ok a b c :
  c < 256 ->
  octet1 (N.land (sextet1 a (ord b)) 15) (sextet2 (ord b) c) = b.
Proof.
  intros Hc. pose proof (ord_bound b) as Hb. unfold octet1.
  pose proof (bits_ok_below (sextet1 a (ord b)) (sextet2 (ord b) c)
                (sextet1_bound _ _ Hb) (sextet2_bound _ _ Hc)) as H.
  unfold bits_ok in H.
  repeat (apply andb_prop in H; destruct H as [H ?]).
  match goal with
  | E : N.eqb (N.lor (N.shiftl (N.land _ 15) _) _) _ = true |- _ =>
      apply N.eqb_eq in E; rewrite E
  end.
  rewrite octet1_sextets by assumption. apply chr_ord.
Qed.

Lemma octet2_ok b c :
  octet2 (N.land (sextet2 b (ord c)) 3) (sextet3 (ord c)) = c.
Proof.
  pose proof (ord_bound c) as Hc. unfold octet2.
  pose proof (bits_ok_below (sextet2 b (ord c)) (sextet3 (ord c))
                (sextet2_bound _ _ Hc) (sextet3_bound _)) as H.
  unfold bits_ok in H.
  repeat (apply andb_prop in H; destruct H as [H ?]).
  match goal with
  | E : N.eqb (N.lor (N.shiftl (N.land _ 3) _) _) _ = true |- _ =>
      apply N.eqb_eq in E; rewrite E
  end.
  rewrite octet2_sextets by assumption. apply chr_ord.
Qed.

Create HintDb b64.
Local Hint Resolve ord_bound sextet0_bound sextet1_bound sextet2_bound
  sextet3_bound : b64.

Ltac chars :=
  repeat first
    [ rewrite dec6_enc6 by auto with b64
    | rewrite enc6_not_pad by auto with b64
    | rewrite urlsafe_enc6_not_pad by auto with b64
    | rewrite enc6_ascii by auto with b64
    | rewrite urlsafe_enc6_ascii by auto with b64
    | rewrite urlsafe_enc6_back by auto with b64 ].

Lemma zero_bound : 0 < 256.
Proof. reflexivity. Qed.
Local Hint Resolve zero_bound : b64.

(** The first two characters of a group take the decoder from the start
    of the group to its middle, and give one byte. *)
Lemma a2b_base64_loop_pair s0 s1 rest :
  s0 < 64 -> s1 < 64 ->
  a2b_base64_loop 0 0 0 (enc6 s0 :: enc6 s1 :: rest) =
  written (octet0 s0 s1) (a2b_base64_loop 2 (N.land s1 15) 0 rest).
Proof.
  intros H0 H1. cbn [a2b_base64_loop]. chars. reflexivity.
Qed.

(** [base64.b64decode] undoes [base64.b64encode]. *)
Lemma b64decode_b64encode bs : b64decode (b64encode bs) = Ok bs.
Proof.
  unfold b64decode.
  induction bs as [|a|a b|a b c l IH] using list_ind3.
  - reflexivity.
  - cbn [b64encode]. rewrite a2b_base64_loop_pair by auto with b64.
    cbn [a2b_base64_loop]. change (is_pad pad) with true.
    cbn [Nat.leb Nat.add written result_bind].
    now rewrite octet0_ok by auto with b64.
  - cbn [b64encode]. rewrite a2b_base64_loop_pair by auto with b64.
    cbn [a2b_base64_loop]. chars. change (is_pad pad) with true.
    cbn [Nat.leb Nat.add written result_bind].
    rewrite octet0_ok by auto with b64.
    now rewrite octet1_ok by auto with b64.
  - cbn [b64encode]. rewrite a2b_base64_loop_pair by auto with b64.
    cbn [a2b_base64_loop]. chars. rewrite IH.
    cbn [written result_bind].
    rewrite octet0_ok by auto with b64.
    rewrite octet1_ok by auto with b64.
    now rewrite octet2_ok.
Qed.

Lemma b64encode_ascii bs : forallb is_ascii (b64encode bs) = true.
Proof.
  induction bs as [|a|a b|a b c l IH] using list_ind3;
    cbn [b64encode forallb]; chars; try rewrite IH; reflexivity.
Qed.

Lemma urlsafe_back bs :
  map urlsafe_decode_translation (urlsafe_b64encode bs) = b64encode bs.
Proof.
  unfold urlsafe_b64encode.
  induction bs as [|a|a b|a b c l IH] using list_ind3;
    cbn [b64encode map]; chars; try rewrite IH; reflexivity.
Qed.

Definition strip_padding (cs : list byte) : list byte :=
  List.filter (fun c => negb (is_pad c)) cs.

Lemma strip_padding_ascii bs :
  forallb is_ascii (strip_padding (urlsafe_b64encode bs)) = true.
Proof.
  unfold urlsafe_b64encode, strip_padding.
  induction bs as [|a|a b|a b c l IH] using list_ind3;
    cbn [b64encode map List.filter]; chars; cbn [negb forallb]; chars;
    try rewrite IH; reflexivity.
Qed.

Lemma missing_padding_4 n :
  missing_padding (S (S (S (S n)))) = missing_padding n.
Proof.
  unfold missing_padding. f_equal.
  replace (- Z.of_nat (S (S (S (S n)))))%Z with (- Z.of_nat n + (-1) * 4)%Z by lia.
  apply Z.mod_add. lia.
Qed.

(** Dropping the padding and putting back [-len % 4] characters of it gives
    the padded text again. *)
Lemma restore_padding bs :
  let unpadded := strip_padding (urlsafe_b64encode bs) in
  (unpadded ++ repeat pad (missing_padding (length unpadded)))%list
  = urlsafe_b64encode bs.
Proof.
  unfold urlsafe_b64encode, strip_padding. cbv zeta.
  induction bs as [|a|a b|a b c l IH] using list_ind3;
    cbn [b64encode map List.filter]; chars; cbn [negb];
    try reflexivity.
  cbn [length]. rewrite missing_padding_4.
  cbn [app]. now rewrite IH.
Qed.

Lemma websafe_encode_ok bs :
  websafe_encode bs
  = Ok (string_of_list_byte (strip_padding (urlsafe_b64encode bs))).
Proof.
  unfold websafe_encode, decode_ascii. fold (strip_padding (urlsafe_b64encode bs)).
  now rewrite strip_padding_ascii.
Qed.

(** [websafe_decode] undoes [websafe_encode]. *)
Lemma websafe_roundtrip bs :
  result_bind (websafe_encode bs) websafe_decode = Ok bs.
Proof.
  rewrite websafe_encode_ok. cbn [result_bind].
  unfold websafe_decode, encode_ascii. cbv zeta.
  rewrite list_byte_of_string_of_list_byte, strip_padding_ascii.
  cbn [result_bind]. rewrite restore_padding.
  unfold urlsafe_b64decode. rewrite urlsafe_back. apply b64decode_b64encode.
Qed.

End Base64Facts.

(** ** The transport encoding of a webauthn assertion *)

(** What [b64] returns for a field, and what decoding it gives back. *)
Lemma b64_spec (obj : list byte) :
  exists text canonical,
    Base64.websafe_encode obj = Ok text /\
    Base64.websafe_decode text = Ok canonical /\
    canonical = obj /\
    b64 obj = Ok (string_of_list_byte (Base64.b64encode canonical)) /\
    b64decode_str (string_of_list_byte (Base64.b64encode canonical)) = Ok canonical.
Proof.
  pose proof (Base64Facts.websafe_roundtrip obj) as Hrt.
  rewrite Base64Facts.websafe_encode_ok in Hrt. cbn [result_bind] in Hrt.
  eexists _, obj. split; [apply Base64Facts.websafe_encode_ok|].
  split; [exact Hrt|]. split; [reflexivity|]. split.
  - unfold b64. rewrite Base64Facts.websafe_encode_ok. cbn [result_bind].
    rewrite Hrt. cbn [result_bind]. unfold Base64.decode_ascii.
    now rewrite Base64Facts.b64encode_ascii.
  - unfold b64decode_str, Base64.encode_ascii. cbv zeta.
    rewrite list_byte_of_string_of_list_byte, Base64Facts.b64encode_ascii.
    cbn [result_bind]. apply Base64Facts.b64decode_b64encode.
Qed.

(** C6.  Each of the three fields of the assertion ([authenticatorData],
    [clientData], [signature]) goes into the payload as the standard padded
    base64 text of the bytes obtained by websafe-encoding the field and
    websafe-decoding it again; those bytes are the field's own bytes, and
    decoding the transported text with standard base64 gives exactly them. *)
Theorem webauthn_transport_roundtrip (a : assertion) (r : json) :
  let transport (obj : list byte) := string_of_list_byte (Base64.b64encode obj) in
  (forall field, In field [authenticatorData a; clientData a; signature a] ->
     exists text canonical,
       Base64.websafe_encode field = Ok text /\
       Base64.websafe_decode text = Ok canonical /\
       canonical = field /\
       b64 field = Ok (transport canonical) /\
       b64decode_str (transport canonical) = Ok canonical) /\
  okta_verify_payload a r =
    result_bind (getitem r "stateToken") (fun tok =>
      Ok (JObj [("authenticatorData", JStr (transport (authenticatorData a)));
                ("clientData", JStr (transport (clientData a)));
                ("signatureData", JStr (transport (signature a)));
                ("stateToken", tok)])).
Proof.
  cbv zeta. split.
  - intros field _. apply b64_spec.
  - unfold okta_verify_payload.
    destruct (b64_spec (authenticatorData a)) as (? & ? & _ & _ & -> & -> & _).
    destruct (b64_spec (clientData a)) as (? & ? & _ & _ & -> & -> & _).
    destruct (b64_spec (signature a)) as (? & ? & _ & _ & -> & -> & _).
    reflexivity.
Qed.

(** ** The order in which factors are tried *)

Section SortDesc.
Context {A : Type}.

Definition key_ge (x y : Z * A) : Prop := (fst y <= fst x)%Z.

Definition has_key (p : Z) (x : Z * A) : bool := (fst x =? p)%Z.

Lemma insert_desc_perm (x : Z * A) l : Permutation (insert_desc x l) (x :: l).
Proof.
  induction l as [|y l IH]; cbn [insert_desc]; [reflexivity|].
  destruct (fst x <? fst y)%Z; [|reflexivity].
  rewrite IH. apply perm_swap.
Qed.

Lemma sort_desc_perm (l : list (Z * A)) : Permutation (sort_desc l) l.
Proof.
  induction l as [|x l IH]; cbn; [reflexivity|].
  fold (sort_desc l). rewrite insert_desc_perm. now rewrite IH.
Qed.

Lemma insert_desc_sorted (x : Z * A) l :
  StronglySorted key_ge l -> StronglySorted key_ge (insert_desc x l).
Proof.
  induction l as [|y l IH]; intros Hs; cbn [insert_desc].
  - repeat constructor.
  - inversion Hs as [|y' l' Hl Hy]; subst.
    destruct (fst x <? fst y)%Z eqn:Hlt.
    + constructor; [auto|].
      rewrite insert_desc_perm. constructor; [|assumption].
      unfold key_ge. apply Z.ltb_lt in Hlt. lia.
    + apply Z.ltb_ge in Hlt.
      constructor; [assumption|]. constructor; [exact Hlt|].
      eapply List.Forall_impl; [|exact Hy].
      unfold key_ge. intros z Hz. lia.
Qed.

Lemma sort_desc_sorted (l : list (Z * A)) : StronglySorted key_ge (sort_desc l).
Proof.
  induction l as [|x l IH]; cbn; [constructor|].
  now apply insert_desc_sorted.
Qed.

Lemma insert_desc_stable p (x : Z * A) l :
  List.filter (has_key p) (insert_desc x l) = List.filter (has_key p) (x :: l).
Proof.
  induction l as [|y l IH]; cbn [insert_desc]; [reflexivity|].
  destruct (fst x <? fst y)%Z eqn:Hlt; [|reflexivity].
  cbn [List.filter] in *. rewrite IH. unfold has_key.
  apply Z.ltb_lt in Hlt.
  destruct (fst x =? p)%Z eqn:Hx, (fst y =? p)%Z eqn:Hy; try reflexivity.
  apply Z.eqb_eq in Hx, Hy. lia.
Qed.

(** Items with the same key keep their original relative order. *)
Lemma sort_desc_stable p (l : list (Z * A)) :
  List.filter (has_key p) (sort_desc l) = List.filter (has_key p) l.
Proof.
  induction l as [|x l IH]; cbn; [reflexivity|].
  fold (sort_desc l). rewrite insert_desc_stable. cbn [List.filter].
  now rewrite IH.
Qed.

End SortDesc.

(** [priority] as a comparison on factors. *)
Definition priority_ge (fp : gmap string Z) (f g : json) : Prop :=
  exists pf pg, priority fp f = Ok pf /\ priority fp g = Ok pg /\ (pg <= pf)%Z.

Definition has_priority (fp : gmap string Z) (p : Z) (f : json) : bool :=
  match priority fp f with
  | Ok q => (q =? p)%Z
  | Err _ => false
  end.

Lemma result_mapM_Ok {A B} (f : A -> result B) l ys :
  result_mapM f l = Ok ys -> Forall2 (fun x y => f x = Ok y) l ys.
Proof.
  revert ys. induction l as [|x l IH]; intros ys H; cbn in H.
  - injection H as <-. constructor.
  - destruct (f x) as [y|] eqn:Hy; [|discriminate]. cbn in H.
    destruct (result_mapM f l) as [ys'|]; [|discriminate]. cbn in H.
    injection H as <-. constructor; auto.
Qed.

Lemma result_mapM_total {A B} (f : A -> result B) l :
  (forall x, In x l -> exists y, f x = Ok y) -> exists ys, result_mapM f l = Ok ys.
Proof.
  induction l as [|x l IH]; intros H; cbn.
  - eauto.
  - destruct (H x (or_introl eq_refl)) as [y ->]. cbn.
    destruct IH as [ys ->]; [intros; apply H; now right|]. cbn. eauto.
Qed.

(** The keyed list [sorted] works on. *)
Definition keyed (fp : gmap string Z) (kfs : list (Z * json)) : Prop :=
  Forall (fun kf => priority fp (snd kf) = Ok (fst kf)) kfs.

Lemma keyed_zip fp fs keys :
  Forall2 (fun f k => priority fp f = Ok k) fs keys ->
  keyed fp (zip keys fs) /\ map snd (zip keys fs) = fs.
Proof.
  induction 1 as [|f k fs keys Hk _ [IH1 IH2]]; cbn.
  - split; [constructor|reflexivity].
  - split; [constructor; auto|]. now rewrite IH2.
Qed.

Lemma keyed_filter fp p kfs :
  keyed fp kfs ->
  map snd (List.filter (has_key p) kfs) = List.filter (has_priority fp p) (map snd kfs).
Proof.
  induction 1 as [|[k f] kfs Hk _ IH]; cbn; [reflexivity|].
  cbn in Hk. unfold has_priority at 1. rewrite Hk. unfold has_key at 1. cbn [fst].
  destruct (k =? p)%Z; cbn; now rewrite IH.
Qed.

Lemma keyed_sorted fp kfs :
  keyed fp kfs -> StronglySorted key_ge kfs ->
  StronglySorted (priority_ge fp) (map snd kfs).
Proof.
  intros Hk Hs. induction Hs as [|[k f] kfs Hs IH Hall]; cbn; [constructor|].
  inversion Hk as [|? ? Hf Hk']; subst. constructor; [auto|].
  rewrite List.Forall_map. rewrite List.Forall_forall in *.
  intros [k' g] Hin. cbn. exists k, k'. repeat split.
  - exact Hf.
  - exact (Hk' _ Hin).
  - exact (Hall _ Hin).
Qed.

(** What [sorted(factors, key=priority, reverse=True)] returns: the same
    factors, by decreasing priority, equal priorities in their original
    order. *)
Lemma sorted_factors_spec fp fs out :
  sorted_factors fp fs = Ok out ->
  Permutation out fs /\
  StronglySorted (priority_ge fp) out /\
  (forall p, List.filter (has_priority fp p) out = List.filter (has_priority fp p) fs).
Proof.
  unfold sorted_factors. intros H.
  destruct (result_mapM (priority fp) fs) as [keys|] eqn:Hkeys; [|discriminate].
  cbn in H. injection H as <-.
  apply result_mapM_Ok, keyed_zip in Hkeys. destruct Hkeys as [Hk Hsnd].
  assert (Hk' : keyed fp (sort_desc (zip keys fs))).
  { unfold keyed. rewrite (sort_desc_perm (zip keys fs)). exact Hk. }
  split; [|split].
  - rewrite <- Hsnd at 2. apply Permutation_map, sort_desc_perm.
  - apply keyed_sorted; [exact Hk'|apply sort_desc_sorted].
  - intros p. rewrite <- (keyed_filter fp) by exact Hk'.
    rewrite sort_desc_stable, (keyed_filter fp) by exact Hk. now rewrite Hsnd.
Qed.

Lemma sorted_factors_total fp fs :
  (forall f, In f fs -> exists p, priority fp f = Ok p) ->
  exists out, sorted_factors fp fs = Ok out.
Proof.
  intros H. unfold sorted_factors.
  destruct (result_mapM_total _ _ H) as [keys ->]. cbn. eauto.
Qed.

(** ** The priority of a factor type *)

(** The user's override for a factor type: the last pair given for it. *)
Definition override_for (ft : string) (pairs : list (string * Z)) : option Z :=
  foldl (fun acc kv => if String.eqb (fst kv) ft then Some (snd kv) else acc) None pairs.

(** The default priorities, in the spec's words: software TOTP 0, or 2 with
    a shared secret; push 1; all others 0. *)
Definition default_priority (totp_key : option string) (ft : string) : Z :=
  if String.eqb ft "token:software:totp" then
    match totp_key with None => 0 | Some _ => 2 end
  else if String.eqb ft "push" then 1
  else 0.

Lemma foldl_insert_lookup (pairs : list (string * Z)) (d : gmap string Z) k :
  foldl (fun d kv => <[fst kv := snd kv]> d) d pairs !! k
  = foldl (fun acc kv => if String.eqb (fst kv) k then Some (snd kv) else acc)
      (d !! k) pairs.
Proof.
  revert d. induction pairs as [|[k' v] pairs IH]; intros d; cbn; [reflexivity|].
  rewrite IH. f_equal.
  destruct (String.eqb k' k) eqn:E.
  - apply String.eqb_eq in E. subst. apply lookup_insert_eq.
  - apply String.eqb_neq in E. now apply lookup_insert_ne.
Qed.

Lemma dict_of_pairs_lookup pairs k : dict_of_pairs pairs !! k = override_for k pairs.
Proof. unfold dict_of_pairs. now rewrite foldl_insert_lookup, lookup_empty. Qed.

Lemma main_factor_priorities_lookup totp_key pairs ft :
  default 0%Z (main_factor_priorities totp_key pairs !! ft)
  = match override_for ft pairs with
    | Some p => p
    | None => default_priority totp_key ft
    end.
Proof.
  unfold main_factor_priorities. rewrite lookup_union, !dict_of_pairs_lookup.
  destruct (override_for ft pairs) as [p|] eqn:E.
  - now destruct (override_for ft (_ :: _)).
  - unfold override_for at 1, default_priority. cbn [foldl fst snd].
    rewrite (String.eqb_sym ft "token:software:totp"), (String.eqb_sym ft "push").
    destruct (String.eqb "push" ft) eqn:E1,
             (String.eqb "token:software:totp" ft) eqn:E2; try reflexivity.
    apply String.eqb_eq in E1, E2. subst. discriminate.
Qed.

(** C7.  A factor of type [ft] gets the user's override for [ft] when there
    is one; otherwise [token:software:totp] gets 2 with a TOTP key and 0
    without, [push] gets 1, and every other type gets 0. *)
Theorem priority_of_factor_type (totp_key : option string)
    (overrides : list (string * Z)) (factor : json) (ft : string) :
  getitem factor "factorType" = Ok (JStr ft) ->
  priority (main_factor_priorities totp_key overrides) factor
  = Ok (match override_for ft overrides with
        | Some p => p
        | None =>
            if String.eqb ft "token:software:totp" then
              match totp_key with None => 0 | Some _ => 2 end
            else if String.eqb ft "push" then 1
            else 0
        end)%Z.
Proof.
  intros Hft. unfold priority. rewrite Hft. cbn [result_bind dict_get].
  f_equal. apply main_factor_priorities_lookup.
Qed.

Lemma priority_of_factor_type_witness :
  let factor := JObj [("factorType", JStr "token:software:totp")] in
  priority (main_factor_priorities (Some "JBSWY3DPEHPK3PXP") [("sms", 3%Z)]) factor
  = Ok 2%Z.
Proof.
  cbv zeta.
  exact (priority_of_factor_type (Some "JBSWY3DPEHPK3PXP") [("sms", 3%Z)]
           (JObj [("factorType", JStr "token:software:totp")])
           "token:software:totp" eq_refl).
Defined.

(** ** Running the script against the world *)

(** The HTTP status passes [raise_for_status]. *)
Definition ok_status (resp : Response) : bool :=
  negb ((400 <=? status_code resp)%Z && (status_code resp <? 600)%Z).

(** The world after one more request was answered. *)
Definition answered (req : request) (rep : reply) (rest : list reply) (w : world) : world :=
  set_http rest (transcript w ++ [(req, Some rep)]) w.

Lemma send_Reply req resp rest w :
  inbox w = Reply resp :: rest ->
  send req w = (Returns resp, answered req (Reply resp) rest w).
Proof. intros H. unfold send. now rewrite H. Qed.

Lemma post_json_Reply url data resp rest r w :
  inbox w = Reply resp :: rest -> ok_status resp = true -> json_body resp = Some r ->
  post_json url data w
  = (Returns r, answered (POST url (JsonBody data)) (Reply resp) rest w).
Proof.
  intros Hin Hok Hjson. unfold post_json, bind. rewrite (send_Reply _ _ _ _ Hin).
  unfold check, ok_status in *. apply negb_true_iff in Hok. rewrite Hok.
  unfold ret, Response_json. now rewrite Hjson.
Qed.

(** A world for examples: a TOTP generator that always shows the same code,
    and no authenticator. *)
Definition example_world (replies : list reply) (lines : list string) : world :=
  {| inbox := replies; transcript := []; typed := lines; answers := [];
     plugged := []; console := [];
     totp_now := fun _ => Ok "492039";
     get_assertion := fun _ _ _ => Err (OtherError "no authenticator") |}.

Definition json_reply (j : json) : Response :=
  {| status_code := 200; headers := []; content := []; json_body := Some j |}.

(** C8.  When the answer to the first authentication request has status
    [LOCKED_OUT], [okta_auth] raises the locked-out exception at once: the
    authentication request is the only request made, and nothing is asked of
    or shown to the user. *)
Theorem locked_out_fails_at_once (HAS_FIDO2 : bool) (domain : string)
    (username password : json) (factor_priorities : gmap string Z)
    (totp_key : option string) (w : world) (resp : Response)
    (rest : list reply) (r : json) :
  inbox w = Reply resp :: rest ->
  ok_status resp = true ->
  json_body resp = Some r ->
  getitem r "status" = Ok (JStr "LOCKED_OUT") ->
  okta_auth HAS_FIDO2 domain username password factor_priorities totp_key w
  = (Raises (Exception "Locked out of Okta!"),
     answered (authn_request domain username password) (Reply resp) rest w).
Proof.
  intros Hin Hok Hjson Hst. unfold okta_auth, bind at 1.
  rewrite (post_json_Reply _ _ _ _ _ _ Hin Hok Hjson).
  unfold bind at 1. rewrite Hst. cbn [lift ret is_str]. 
  change (String.eqb "LOCKED_OUT" "MFA_REQUIRED") with false. cbv iota.
  unfold bind at 1. cbn [ret]. unfold session_token, bind at 1.
  rewrite Hst. reflexivity.
Qed.

Lemma locked_out_fails_at_once_witness :
  let resp := json_reply (JObj [("status", JStr "LOCKED_OUT")]) in
  let w := example_world [Reply resp] [] in
  okta_auth true "example.okta.com" (JStr "alice") (JStr "secret")
    (main_factor_priorities None []) None w
  = (Raises (Exception "Locked out of Okta!"),
     answered (authn_request "example.okta.com" (JStr "alice") (JStr "secret"))
       (Reply resp) [] w).
Proof.
  cbv zeta.
  apply (locked_out_fails_at_once true "example.okta.com" (JStr "alice")
           (JStr "secret") (main_factor_priorities None []) None
           (example_world [Reply (json_reply (JObj [("status", JStr "LOCKED_OUT")]))] [])
           (json_reply (JObj [("status", JStr "LOCKED_OUT")])) []
           (JObj [("status", JStr "LOCKED_OUT")]));
    reflexivity.
Defined.

(** C10.  When the answer to the first authentication request has status
    [SUCCESS], [okta_auth] returns that answer's [sessionToken]: the
    authentication request is the only request made, and nothing is asked of
    or shown to the user. *)
Theorem success_returns_session_token (HAS_FIDO2 : bool) (domain : string)
    (username password : json) (factor_priorities : gmap string Z)
    (totp_key : option string) (w : world) (resp : Response)
    (rest : list reply) (r token : json) :
  inbox w = Reply resp :: rest ->
  ok_status resp = true ->
  json_body resp = Some r ->
  getitem r "status" = Ok (JStr "SUCCESS") ->
  getitem r "sessionToken" = Ok token ->
  okta_auth HAS_FIDO2 domain username password factor_priorities totp_key w
  = (Returns token,
     answered (authn_request domain username password) (Reply resp) rest w).
Proof.
  intros Hin Hok Hjson Hst Htok. unfold okta_auth, bind at 1.
  rewrite (post_json_Reply _ _ _ _ _ _ Hin Hok Hjson).
  unfold bind at 1. rewrite Hst. cbn [lift ret is_str].
  change (String.eqb "SUCCESS" "MFA_REQUIRED") with false. cbv iota.
  unfold bind at 1. cbn [ret]. unfold session_token, bind at 1.
  rewrite Hst. cbn [lift ret is_str].
  change (String.eqb "SUCCESS" "LOCKED_OUT") with false. cbv iota.
  change (String.eqb "SUCCESS" "SUCCESS") with true.
  unfold bind, assert, ret. rewrite Htok. reflexivity.
Qed.

Lemma success_returns_session_token_witness :
  let r := JObj [("status", JStr "SUCCESS"); ("sessionToken", JStr "20111abc")] in
  let w := example_world [Reply (json_reply r)] [] in
  okta_auth true "example.okta.com" (JStr "alice") (JStr "secret")
    (main_factor_priorities None []) None w
  = (Returns (JStr "20111abc"),
     answered (authn_request "example.okta.com" (JStr "alice") (JStr "secret"))
       (Reply (json_reply r)) [] w).
Proof.
  cbv zeta.
  apply (success_returns_session_token true "example.okta.com" (JStr "alice")
           (JStr "secret") (main_factor_priorities None []) None
           (example_world
              [Reply (json_reply (JObj [("status", JStr "SUCCESS");
                                        ("sessionToken", JStr "20111abc")]))] [])
           (json_reply (JObj [("status", JStr "SUCCESS");
                              ("sessionToken", JStr "20111abc")])) []
           (JObj [("status", JStr "SUCCESS"); ("sessionToken", JStr "20111abc")])
           (JStr "20111abc"));
    reflexivity.
Defined.

(** ** The negotiator walks the sorted list *)

Lemma negotiate_sorted HAS_FIDO2 domain fp totp_key r fs out w :
  getpath r ["_embedded"; "factors"] = Ok (JArr fs) ->
  sorted_factors fp fs = Ok out ->
  negotiate HAS_FIDO2 domain fp totp_key r w
  = try_factors HAS_FIDO2 domain totp_key out (negb HAS_FIDO2) r w.
Proof.
  intros Hfs Hout. unfold negotiate, bind. rewrite Hfs. cbn [lift ret iterate].
  now rewrite Hout.
Qed.

(** A factor whose type is none of the supported ones is passed over. *)
Lemma try_factors_skip HAS_FIDO2 domain totp_key f rest iw r ft w :
  getitem f "factorType" = Ok ft ->
  is_str ft "push" = false ->
  is_str ft "sms" = false ->
  is_str ft "webauthn" && negb iw = false ->
  re_match_token ft = Ok false ->
  try_factors HAS_FIDO2 domain totp_key (f :: rest) iw r w
  = try_factors HAS_FIDO2 domain totp_key rest iw r w.
Proof.
  intros Hft Hpush Hsms Hweb Htok. cbn [try_factors]. unfold bind at 1.
  rewrite Hft. cbn [lift ret]. rewrite Hpush, Hsms, Hweb.
  unfold bind at 1. now rewrite Htok.
Qed.

(** A factor of the token family is answered with a one-time code. *)
Lemma try_factors_token HAS_FIDO2 domain totp_key f rest iw r ft w :
  getitem f "factorType" = Ok ft ->
  re_match_token ft = Ok true ->
  try_factors HAS_FIDO2 domain totp_key (f :: rest) iw r w
  = verify_token totp_key f ft r w.
Proof.
  intros Hft Htok. cbn [try_factors]. unfold bind at 1.
  rewrite Hft. cbn [lift ret].
  destruct ft as [| | |s| |]; try discriminate Htok.
  cbn [is_str].
  assert (Hp : String.prefix "token:" s || String.eqb s "token"
               || String.eqb s ("token" ++ newline) = true)
    by (cbn in Htok; congruence).
  assert (String.eqb s "push" = false /\ String.eqb s "sms" = false
          /\ String.eqb s "webauthn" = false) as (-> & -> & ->).
  { repeat split; apply String.eqb_neq; intros ->; vm_compute in Hp; discriminate. }
  cbn [andb]. unfold bind at 1. now rewrite Htok.
Qed.

(** A factor of type [push] starts the push sub-protocol. *)
Lemma try_factors_push HAS_FIDO2 domain totp_key f rest iw r ft w :
  getitem f "factorType" = Ok ft ->
  is_str ft "push" = true ->
  try_factors HAS_FIDO2 domain totp_key (f :: rest) iw r w = verify_push f r w.
Proof.
  intros Hft Hpush. cbn [try_factors]. unfold bind at 1.
  rewrite Hft. cbn [lift ret]. now rewrite Hpush.
Qed.







Definition example_factor (factorType href : string) : json :=
  JObj [("factorType", JStr factorType); ("provider", JStr "OKTA");
        ("vendorName", JStr "OKTA");
        ("_links", JObj [("verify", JObj [("href", JStr href)])])].



(** ** Push polling *)

(** The poll answer that keeps the loop going: status [MFA_CHALLENGE] and
    factor result [WAITING]. *)
Definition waiting (rep : option reply) : bool :=
  match rep with
  | Some (Reply resp) =>
      match json_body resp with
      | Some r =>
          match getitem r "status", getitem r "factorResult" with
          | Ok st, Ok fr => is_str st "MFA_CHALLENGE" && is_str fr "WAITING"
          | _, _ => false
          end
      | None => false
      end
  | _ => false
  end.

(** A poll of the factor's verification endpoint. *)
Definition poll (url tok : json) : request :=
  POST url (JsonBody (JObj [("stateToken", tok)])).

Definition is_poll (url : json) (e : request * option reply) : Prop :=
  exists tok, fst e = poll url tok.

(** Equations for running a piece of the script in a given world. *)
Lemma bind_eq {A B} (m : M A) (k : A -> M B) w :
  bind m k w
  = match m w with
    | (Returns a, w') => k a w'
    | (Raises e, w') => (Raises e, w')
    | (Blocks, w') => (Blocks, w')
    | (Unfinished, w') => (Unfinished, w')
    end.
Proof. reflexivity. Qed.

Lemma lift_eq {A} (r : result A) w :
  lift r w = match r with Ok a => (Returns a, w) | Err e => (Raises e, w) end.
Proof. now destruct r. Qed.

Lemma assert_eq (c : bool) w :
  assert c w = if c then (Returns tt, w) else (Raises AssertionError, w).
Proof. now destruct c. Qed.

Ltac closed_run :=
  cbn; repeat split;
  first [ reflexivity | assumption | discriminate | (intros; discriminate)
        | congruence ].

(** [post_json] always makes exactly one request, answered by the head of
    the inbox; it returns only what a well-received answer decodes to. *)
Lemma post_json_spec url data w :
  exists o,
    post_json url data w
    = (o, set_http (tail (inbox w))
            (transcript w ++ [(POST url (JsonBody data), head (inbox w))]) w) /\
    o <> Unfinished /\
    forall r, o = Returns r ->
      exists resp, head (inbox w) = Some (Reply resp) /\
                   ok_status resp = true /\ json_body resp = Some r.
Proof.
  unfold post_json. rewrite bind_eq, bind_eq. unfold send.
  destruct (inbox w) as [|[resp|e] rest]; cbn [head tail].
  - eexists. split; [reflexivity|]. split; [discriminate|]. discriminate.
  - unfold check, ok_status.
    destruct ((400 <=? status_code resp)%Z && (status_code resp <? 600)%Z) eqn:Hbad.
    + eexists. split; [reflexivity|]. split; discriminate.
    + unfold ret, Response_json. destruct (json_body resp) as [r|] eqn:Hjson.
      * eexists. split; [reflexivity|]. split; [discriminate|].
        intros r' [= <-]. exists resp. now rewrite Hbad.
      * eexists. split; [reflexivity|]. split; discriminate.
  - eexists. split; [reflexivity|]. split; discriminate.
Qed.

(** One round of the loop makes no request and raises, or makes one poll,
    answered by the head of the inbox; it asks for another round only when
    that answer is a waiting one. *)
Lemma push_round_cases url r ca w o w' :
  push_round url (r, ca) w = (o, w') ->
  (transcript w' = transcript w /\ exists e, o = Raises e) \/
  (exists tok,
     getitem r "stateToken" = Ok tok /\
     transcript w' = transcript w ++ [(poll url tok, head (inbox w))] /\
     inbox w' = tail (inbox w) /\
     o <> Unfinished /\
     forall vars, o = Returns (inl vars) -> waiting (head (inbox w)) = true).
Proof.
  unfold push_round. rewrite bind_eq, lift_eq.
  destruct (getitem r "stateToken") as [tok|e] eqn:Htok.
  2:{ intros [= <- <-]. left. eauto. }
  intros H. right. exists tok. split; [reflexivity|]. rewrite bind_eq in H.
  destruct (post_json_spec url (JObj [("stateToken", tok)]) w) as (o1 & Hpost & Hfin & Hret).
  rewrite Hpost in H. clear Hpost.
  destruct o1 as [r'| | |]; try (injection H as <- <-; closed_run).
  destruct (Hret r' eq_refl) as (resp & Hhead & Hok & Hjson). clear Hret Hfin.
  unfold waiting. rewrite Hhead in H |- *. rewrite Hjson.
  rewrite bind_eq, lift_eq in H.
  destruct (getitem r' "status") as [st|];
    [|injection H as <- <-; closed_run].
  destruct (is_str st "MFA_CHALLENGE"); cbn [negb] in H;
    [|injection H as <- <-; closed_run].
  rewrite bind_eq, lift_eq in H.
  destruct (getitem r' "factorResult") as [fr|];
    [|injection H as <- <-; closed_run].
  rewrite bind_eq, assert_eq in H.
  destruct (is_str fr "WAITING");
    [|injection H as <- <-; closed_run].
  rewrite bind_eq in H.
  destruct (is_None ca).
  - unfold except_KeyError in H. rewrite bind_eq, lift_eq in H.
    destruct (getpath r' _) as [v|[]];
      injection H as <- <-; closed_run.
  - injection H as <- <-; closed_run.
Qed.

(** The polls of a whole loop: each is answered by the next scripted reply,
    and every poll but the last one got a waiting answer. *)
Lemma push_loop_trace url budget :
  forall r ca w o w',
    while_true budget (push_round url) (r, ca) w = (o, w') ->
    exists polls,
      transcript w' = transcript w ++ polls /\
      Forall (is_poll url) polls /\
      (forall i e, polls !! i = Some e -> snd e = inbox w !! i) /\
      (forall i e, polls !! i = Some e -> S i < length polls ->
                   waiting (snd e) = true) /\
      (o = Unfinished -> budget <= length (inbox w)).
Proof.
  induction budget as [|n IH]; intros r ca w o w' H.
  - injection H as <- <-. exists []. rewrite app_nil_r.
    repeat split; try constructor; try discriminate; intros; lia.
  - cbn [while_true] in H. rewrite bind_eq in H.
    destruct (push_round url (r, ca) w) as [o1 w1] eqn:Hround.
    apply push_round_cases in Hround.
    destruct Hround as [[Htr [e ->]]|(tok & _ & Htr & Hin & Hfin & Hwait)].
    + injection H as <- <-. exists []. rewrite app_nil_r.
      repeat split; try constructor; try discriminate; auto.
    + assert (Hone :
        forall o2 : outcome json, o2 <> Unfinished ->
        exists polls,
          transcript w1 = transcript w ++ polls /\
          Forall (is_poll url) polls /\
          (forall i e, polls !! i = Some e -> snd e = inbox w !! i) /\
          (forall i e, polls !! i = Some e -> S i < length polls ->
                       waiting (snd e) = true) /\
          (o2 = Unfinished -> S n <= length (inbox w))).
      { intros o2 Ho2. exists [(poll url tok, head (inbox w))].
        split; [exact Htr|]. split; [repeat constructor; now exists tok|].
        split; [|split].
        - intros [|i] e He; [|destruct i; discriminate].
          injection He as <-. cbn. apply head_lookup.
        - intros [|i] e _ Hlt; cbn in Hlt; lia.
        - intros ->. now destruct Ho2. }
      destruct o1 as [[[r1 ca1]|r1]| e | |].
      * specialize (Hwait _ eq_refl).
        destruct (inbox w) as [|rep rest] eqn:Hinbox; [discriminate Hwait|].
        cbn [head tail] in *.
        destruct (IH _ _ _ _ _ H) as (polls & Htr' & Hpolls & Hrep & Hw & Hunf).
        exists ((poll url tok, Some rep) :: polls).
        split; [rewrite Htr', Htr, <- app_assoc; reflexivity|].
        split; [constructor; [now exists tok|assumption]|].
        split; [|split].
        -- intros [|i] e He; cbn in He.
           ++ now injection He as <-.
           ++ cbn. rewrite <- Hin. now apply Hrep.
        -- intros [|i] e He Hlt; cbn in He, Hlt.
           ++ now injection He as <-.
           ++ apply (Hw i); [assumption|lia].
        -- intros Ho. specialize (Hunf Ho). rewrite Hin in Hunf. cbn. lia.
      * injection H as <- <-. apply Hone; discriminate.
      * injection H as <- <-. apply Hone; discriminate.
      * injection H as <- <-. apply Hone; discriminate.
      * now destruct Hfin.
Qed.

(** The end of [okta_auth] neither talks to anyone nor loops. *)
Lemma session_token_silent r w :
  (session_token r w).2 = w /\
  (session_token r w).1 <> Unfinished /\ (session_token r w).1 <> Blocks.
Proof.
  unfold session_token. rewrite bind_eq, lift_eq.
  destruct (getitem r "status") as [st|]; [|closed_run].
  destruct (is_str st "LOCKED_OUT"); [closed_run|].
  rewrite bind_eq, assert_eq.
  destruct (is_str st "SUCCESS"); [|closed_run].
  rewrite lift_eq. destruct (getitem r "sessionToken"); closed_run.
Qed.

(** C3.  Once the loop over the factors reaches a [push] factor, every
    request made until [okta_auth] ends is a poll of that factor's
    verification endpoint, the i-th poll being answered by the i-th reply
    still to come.  A poll is followed by a further poll only if its answer
    had status [MFA_CHALLENGE] and factor result [WAITING]; so after the
    first answer that is not of that kind no further poll is made.  The
    budget of the loop is never what ends it. *)
Theorem push_polls_only_while_waiting (HAS_FIDO2 : bool) (domain : string)
    (totp_key : option string) (factor : json) (rest : list json)
    (ignore_webauthn : bool) (r ft : json) (w : world)
    (o : outcome json) (w' : world) :
  getitem factor "factorType" = Ok ft ->
  is_str ft "push" = true ->
  bind (try_factors HAS_FIDO2 domain totp_key (factor :: rest) ignore_webauthn r)
       session_token w = (o, w') ->
  exists polls,
    transcript w' = transcript w ++ polls /\
    (forall e, In e polls ->
       exists url tok,
         getpath factor ["_links"; "verify"; "href"] = Ok url /\
         fst e = poll url tok) /\
    (forall i e, polls !! i = Some e -> snd e = inbox w !! i) /\
    (forall i e, polls !! i = Some e -> S i < length polls ->
                 waiting (inbox w !! i) = true) /\
    (forall j, waiting (inbox w !! j) = false -> length polls <= S j) /\
    o <> Unfinished.
Proof.
  intros Hft Hpush H. rewrite bind_eq, (try_factors_push _ _ _ _ _ _ _ _ _ Hft Hpush) in H.
  unfold verify_push in H. rewrite bind_eq, lift_eq in H.
  destruct (getpath factor ["_links"; "verify"; "href"]) as [url|e] eqn:Hurl.
  2:{ injection H as <- <-. exists []. rewrite app_nil_r.
      repeat split; try discriminate; try (intros; cbn; lia); intros ? []. }
  unfold while_consuming in H.
  destruct (while_true (S (length (inbox w))) (push_round url) (r, JNull) w)
    as [o1 w1] eqn:Hloop.
  apply push_loop_trace in Hloop.
  destruct Hloop as (polls & Htr & Hpolls & Hrep & Hw & Hunf).
  assert (Hworld : w' = w1 /\ o <> Unfinished).
  { destruct o1 as [r1| | |].
    - destruct (session_token_silent r1 w1) as (Hw1 & Hfin & _).
      rewrite H in Hw1, Hfin. cbn [fst snd] in *. now split.
    - now injection H as <- <-.
    - now injection H as <- <-.
    - specialize (Hunf eq_refl). lia. }
  destruct Hworld as [-> Hfin]. exists polls.
  assert (Hw' : forall i e, polls !! i = Some e -> S i < length polls ->
                            waiting (inbox w !! i) = true).
  { intros i e He Hlt. rewrite <- (Hrep i e He). now apply (Hw i). }
  split; [assumption|]. split; [|split; [assumption|split; [assumption|split]]].
  - intros e He. rewrite List.Forall_forall in Hpolls.
    destruct (Hpolls e He) as [tok Htok]. now exists url, tok.
  - intros j Hj. destruct (le_lt_dec (length polls) (S j)) as [|Hlt]; [assumption|].
    destruct (lookup_lt_is_Some_2 polls j) as [e He]; [lia|].
    rewrite (Hw' j e He) in Hj; [discriminate|lia].
  - assumption.
Qed.

Definition waiting_reply : reply :=
  Reply (json_reply (JObj [("status", JStr "MFA_CHALLENGE");
                           ("factorResult", JStr "WAITING");
                           ("stateToken", JStr "00abc")])).

Definition success_reply : reply :=
  Reply (json_reply (JObj [("status", JStr "SUCCESS");
                           ("sessionToken", JStr "20111abc")])).

Definition mfa_required (stateToken : string) (factors : list json) : json :=
  JObj [("status", JStr "MFA_REQUIRED"); ("stateToken", JStr stateToken);
        ("_embedded", JObj [("factors", JArr factors)])].

Lemma push_polls_only_while_waiting_witness :
  let factor := example_factor "push" "https://example.okta.com/verify/push" in
  let w := example_world [waiting_reply; waiting_reply; success_reply; waiting_reply] [] in
  let after := bind (try_factors true "example.okta.com" None [factor] false
                       (mfa_required "00abc" [factor]))
                    session_token w in
  exists polls,
    transcript after.2 = transcript w ++ polls /\
    length polls = 3 /\
    (forall j, waiting (inbox w !! j) = false -> length polls <= S j).
Proof.
  cbv zeta.
  destruct (push_polls_only_while_waiting true "example.okta.com" None
              (example_factor "push" "https://example.okta.com/verify/push") []
              false
              (mfa_required "00abc"
                 [example_factor "push" "https://example.okta.com/verify/push"])
              (JStr "push")
              (example_world
                 [waiting_reply; waiting_reply; success_reply; waiting_reply] [])
              _ _ eq_refl eq_refl (surjective_pairing _))
    as (polls & Htr & _ & _ & _ & Hstop & _).
  exists polls. split; [exact Htr|]. split; [|exact Hstop].
  apply (f_equal (@length _)) in Htr. vm_compute in Htr. now symmetry.
Defined.

(** ** The state token along a negotiation *)

(** What a reply decodes to, when it is a response with a JSON body. *)
Definition reply_json (rep : option reply) : option json :=
  match rep with
  | Some (Reply resp) => json_body resp
  | _ => None
  end.

(** The [stateToken] a request carries in its JSON body. *)
Definition request_token (req : request) : option json :=
  match req with
  | POST _ (JsonBody data) =>
      match getitem data "stateToken" with
      | Ok tok => Some tok
      | Err _ => None
      end
  | _ => None
  end.

(** The [stateToken] of a decoded response. *)
Definition token_of (r : json) : option json :=
  match getitem r "stateToken" with
  | Ok tok => Some tok
  | Err _ => None
  end.

(** The request carries the state token of the response [prev]. *)
Definition carries (prev : json) (req : request) : Prop :=
  exists tok, token_of prev = Some tok /\ request_token req = Some tok.

(** Every request of the exchange carries the state token of the response
    received just before it, [prev] being the one before the first. *)
Fixpoint threaded (prev : json) (entries : list (request * option reply)) : Prop :=
  match entries with
  | [] => True
  | (req, rep) :: rest =>
      carries prev req /\
      (rest = [] \/ exists r, reply_json rep = Some r /\ threaded r rest)
  end.

(** The latest response once the exchange is over. *)
Fixpoint last_response (prev : json) (entries : list (request * option reply))
    : option json :=
  match entries with
  | [] => Some prev
  | (_, rep) :: rest =>
      match reply_json rep with
      | Some r => last_response r rest
      | None => None
      end
  end.

Lemma threaded_app prev cur entries1 entries2 :
  threaded prev entries1 ->
  last_response prev entries1 = Some cur ->
  threaded cur entries2 ->
  threaded prev (entries1 ++ entries2) /\
  last_response prev (entries1 ++ entries2) = last_response cur entries2.
Proof.
  revert prev. induction entries1 as [|[req rep] rest1 IH]; intros prev H1 Hlast H2.
  - injection Hlast as <-. now split.
  - cbn in H1, Hlast |- *. destruct H1 as [Hc Hrest].
    destruct (reply_json rep) as [r|]; [|discriminate].
    assert (Hthr : threaded r rest1).
    { destruct Hrest as [->|(r' & [= <-] & H)]; [exact I|exact H]. }
    destruct (IH r Hthr Hlast H2) as [IH1 IH2].
    split; [|exact IH2]. split; [exact Hc|]. right. now exists r.
Qed.

(** [m], started when the latest response is [prev], only makes requests
    that continue the thread, and when it returns [a] with [cur] the latest
    response then, [post a cur] holds. *)
Definition tracks {A} (prev : json) (m : M A) (post : A -> json -> Prop) : Prop :=
  forall w o w', m w = (o, w') ->
    exists entries,
      transcript w' = transcript w ++ entries /\
      threaded prev entries /\
      forall a, o = Returns a ->
        exists cur, last_response prev entries = Some cur /\ post a cur.

Lemma tracks_bind {A B} prev (m : M A) (k : A -> M B) mid post :
  tracks prev m mid ->
  (forall a cur, mid a cur -> tracks cur (k a) post) ->
  tracks prev (bind m k) post.
Proof.
  intros Hm Hk w o w' H. rewrite bind_eq in H.
  destruct (m w) as [o1 w1] eqn:Hmw.
  destruct (Hm _ _ _ Hmw) as (entries1 & Htr1 & Hthr1 & Hret1).
  destruct o1 as [a| | |];
    try (injection H as <- <-; exists entries1;
         split; [assumption|]; split; [assumption|]; discriminate).
  destruct (Hret1 a eq_refl) as (cur & Hlast & Hmid).
  destruct (Hk a cur Hmid _ _ _ H) as (entries2 & Htr2 & Hthr2 & Hret2).
  destruct (threaded_app _ _ _ _ Hthr1 Hlast Hthr2) as [Hthr Hlast'].
  exists (entries1 ++ entries2).
  split; [rewrite Htr2, Htr1; symmetry; apply app_assoc|].
  split; [assumption|]. intros b Hb. rewrite Hlast'. now apply Hret2.
Qed.

Lemma tracks_weaken {A} prev (m : M A) (post post' : A -> json -> Prop) :
  tracks prev m post -> (forall a cur, post a cur -> post' a cur) ->
  tracks prev m post'.
Proof.
  intros Hm Himp w o w' H. destruct (Hm _ _ _ H) as (entries & Htr & Hthr & Hret).
  exists entries. split; [assumption|]. split; [assumption|].
  intros a Ha. destruct (Hret a Ha) as (cur & Hlast & Hp). eauto.
Qed.

(** A piece of the script that makes no request. *)
Definition quiet {A} (m : M A) (post : A -> Prop) : Prop :=
  forall w o w', m w = (o, w') ->
    transcript w' = transcript w /\ forall a, o = Returns a -> post a.

Lemma tracks_quiet {A} prev (m : M A) post :
  quiet m post -> tracks prev m (fun a cur => cur = prev /\ post a).
Proof.
  intros Hq w o w' H. destruct (Hq _ _ _ H) as [Htr Hret].
  exists []. rewrite app_nil_r. split; [assumption|]. split; [exact I|].
  intros a Ha. exists prev. auto.
Qed.

Lemma quiet_lift {A} (x : result A) : quiet (lift x) (fun a => x = Ok a).
Proof.
  intros w o w'. rewrite lift_eq. destruct x; intros [= <- <-];
    (split; [reflexivity|]); congruence.
Qed.

Lemma quiet_ret {A} (x : A) : quiet (ret x) (fun a => a = x).
Proof. intros w o w' [= <- <-]. split; [reflexivity|]. congruence. Qed.

Lemma quiet_raise {A} e (post : A -> Prop) : quiet (raise e) post.
Proof. intros w o w' [= <- <-]. split; [reflexivity|]. discriminate. Qed.

Lemma quiet_assert c : quiet (assert c) (fun _ => c = true).
Proof.
  intros w o w'. rewrite assert_eq. destruct c; intros [= <- <-];
    (split; [reflexivity|]); congruence.
Qed.

Lemma quiet_click_echo text values : quiet (click_echo text values) (fun _ => True).
Proof. intros w o w' [= <- <-]. split; [reflexivity|]. auto. Qed.

Lemma quiet_click_prompt text values : quiet (click_prompt text values) (fun _ => True).
Proof.
  intros w o w'. unfold click_prompt.
  destruct (ask_until_answered _ _ _) as [[o1 rest] co]. intros [= <- <-];
    (split; [reflexivity|]); auto.
Qed.

Lemma quiet_click_confirm text : quiet (click_confirm text) (fun _ => True).
Proof.
  intros w o w'. unfold click_confirm. destruct (answers w); intros [= <- <-];
    (split; [reflexivity|]); auto.
Qed.

Lemma quiet_next_device : quiet next_device (fun _ => True).
Proof.
  intros w o w'. unfold next_device. destruct (plugged w); intros [= <- <-];
    (split; [reflexivity|]); auto.
Qed.

Lemma quiet_oracle {A} (f : world -> result A) :
  quiet (fun w => lift (f w) w) (fun _ => True).
Proof.
  intros w o w'. rewrite lift_eq. destruct (f w); intros [= <- <-];
    (split; [reflexivity|]); auto.
Qed.

Lemma quiet_bind {A B} (m : M A) (k : A -> M B) mid post :
  quiet m mid -> (forall a, mid a -> quiet (k a) post) -> quiet (bind m k) post.
Proof.
  intros Hm Hk w o w' H. rewrite bind_eq in H.
  destruct (m w) as [o1 w1] eqn:Hmw. destruct (Hm _ _ _ Hmw) as [Htr Hret].
  destruct o1 as [a| | |];
    try (injection H as <- <-; split; [assumption|discriminate]).
  destruct (Hk a (Hret a eq_refl) _ _ _ H) as [Htr' Hret'].
  split; [congruence|assumption].
Qed.

Lemma quiet_weaken {A} (m : M A) (post post' : A -> Prop) :
  quiet m post -> (forall a, post a -> post' a) -> quiet m post'.
Proof.
  intros Hm Himp w o w' H. destruct (Hm _ _ _ H) as [Htr Hret].
  split; [assumption|]. intros a Ha. auto.
Qed.

Lemma quiet_except_KeyError {A} (body handler : M A) post :
  quiet body post -> quiet handler post -> quiet (except_KeyError body handler) post.
Proof.
  intros Hb Hh w o w' H. unfold except_KeyError in H.
  destruct (body w) as [o1 w1] eqn:Hbw. destruct (Hb _ _ _ Hbw) as [Htr Hret].
  destruct o1 as [a|[]| |]; try (injection H as <- <-; split; assumption).
  destruct (Hh _ _ _ H) as [Htr' Hret']. split; [congruence|assumption].
Qed.

Lemma quiet_while_true {S A} (body : S -> M (S + A)) budget :
  (forall s, quiet (body s) (fun _ => True)) ->
  forall s, quiet (while_true budget body s) (fun _ => True).
Proof.
  intros Hbody. induction budget as [|n IH]; intros s.
  - intros w o w' [= <- <-]. split; [reflexivity|auto].
  - cbn [while_true]. eapply quiet_bind; [apply Hbody|].
    intros [s'|a] _; [apply IH|]. eapply quiet_weaken; [apply quiet_ret|auto].
Qed.

Lemma tracks_post_json prev url data tok :
  token_of prev = Some tok ->
  request_token (POST url (JsonBody data)) = Some tok ->
  tracks prev (post_json url data) (fun r cur => r = cur).
Proof.
  intros Hprev Hreq w o w' H.
  destruct (post_json_spec url data w) as (o1 & Hpost & _ & Hret).
  rewrite Hpost in H. injection H as <- <-.
  exists [(POST url (JsonBody data), head (inbox w))].
  split; [reflexivity|]. split.
  - cbn. split; [now exists tok|now left].
  - intros r Hr. destruct (Hret r Hr) as (resp & -> & _ & Hjson).
    exists r. cbn. now rewrite Hjson.
Qed.

Lemma tracks_while_true {S A} (body : S -> M (S + A)) (Inv : S -> json -> Prop)
    (post : A -> json -> Prop) budget :
  (forall s cur, Inv s cur ->
     tracks cur (body s)
       (fun x cur' => match x with inl s' => Inv s' cur' | inr a => post a cur' end)) ->
  forall s cur, Inv s cur -> tracks cur (while_true budget body s) post.
Proof.
  intros Hbody. induction budget as [|n IH]; intros s cur Hinv.
  - intros w o w' [= <- <-]. exists []. rewrite app_nil_r.
    split; [reflexivity|]. split; [exact I|discriminate].
  - cbn [while_true]. eapply tracks_bind; [apply Hbody, Hinv|].
    intros [s'|a] cur' Hx; [now apply IH|].
    eapply tracks_weaken; [apply tracks_quiet, quiet_ret|].
    cbv beta. now intros a' cur'' [-> ->].
Qed.

Lemma tracks_while_consuming {S A} left (body : S -> M (S + A)) s prev post :
  (forall budget, tracks prev (while_true budget body s) post) ->
  tracks prev (while_consuming left body s) post.
Proof. intros H w o w' Hrun. exact (H _ _ _ _ Hrun). Qed.

Lemma quiet_while_consuming {S A} left (body : S -> M (S + A)) s post :
  (forall budget, quiet (while_true budget body s) post) ->
  quiet (while_consuming left body s) post.
Proof. intros H w o w' Hrun. exact (H _ _ _ _ Hrun). Qed.

(** One more quiet statement, then the rest. *)
Tactic Notation "then_quiet" constr(lem) "as" ident(x) ident(H) :=
  eapply tracks_bind; [apply tracks_quiet, lem|cbv beta; intros x ? [-> H]].

Lemma token_of_getitem r tok : getitem r "stateToken" = Ok tok -> token_of r = Some tok.
Proof. unfold token_of. now intros ->. Qed.

Lemma tracks_push_round url prev ca :
  tracks prev (push_round url (prev, ca))
    (fun x cur => match x with inl vars => fst vars = cur | inr r => r = cur end).
Proof.
  unfold push_round.
  then_quiet (quiet_lift (getitem prev "stateToken")) as tok Htok.
  eapply tracks_bind;
    [apply (tracks_post_json prev _ _ tok); [now apply token_of_getitem|reflexivity]|].
  cbv beta. intros r cur ->.
  then_quiet (quiet_lift (getitem cur "status")) as st Hst.
  destruct (negb (is_str st "MFA_CHALLENGE")).
  { eapply tracks_weaken; [apply tracks_quiet, quiet_ret|].
    cbv beta. now intros x cur' [-> ->]. }
  then_quiet (quiet_lift (getitem cur "factorResult")) as fr Hfr.
  then_quiet (quiet_assert (is_str fr "WAITING")) as u Hu.
  eapply tracks_bind.
  - apply tracks_quiet. instantiate (1 := fun _ => True).
    destruct (is_None ca).
    + apply quiet_except_KeyError.
      * eapply quiet_bind; [apply quiet_lift|]. intros v _.
        eapply quiet_bind; [apply quiet_click_echo|]. intros _ _.
        eapply quiet_weaken; [apply quiet_ret|auto].
      * eapply quiet_weaken; [apply quiet_ret|auto].
    + eapply quiet_weaken; [apply quiet_ret|auto].
  - cbv beta. intros ca' cur' [-> _].
    eapply tracks_weaken; [apply tracks_quiet, quiet_ret|].
    cbv beta. now intros x cur' [-> ->].
Qed.

Lemma tracks_verify_push factor prev :
  tracks prev (verify_push factor prev) (fun r cur => r = cur).
Proof.
  unfold verify_push.
  then_quiet (quiet_lift (getpath factor ["_links"; "verify"; "href"])) as url Hurl.
  apply tracks_while_consuming. intros budget.
  apply (tracks_while_true _ (fun vars cur => fst vars = cur)); [|reflexivity].
  intros [r ca] cur Hinv. cbn in Hinv. subst. apply tracks_push_round.
Qed.

Lemma tracks_verify_sms factor prev :
  tracks prev (verify_sms factor prev) (fun r cur => r = cur).
Proof.
  unfold verify_sms.
  then_quiet (quiet_lift (getpath factor ["_links"; "verify"; "href"])) as url Hurl.
  then_quiet (quiet_lift (getitem prev "stateToken")) as tok Htok.
  eapply tracks_bind;
    [apply (tracks_post_json prev _ _ tok); [now apply token_of_getitem|reflexivity]|].
  cbv beta. intros r cur ->.
  then_quiet (quiet_lift (getitem cur "status")) as st Hst.
  then_quiet (quiet_assert (is_str st "MFA_CHALLENGE")) as u Hu.
  then_quiet (quiet_click_prompt "SMS code" []) as code Hcode.
  then_quiet (quiet_lift (getitem cur "stateToken")) as tok' Htok'.
  apply (tracks_post_json cur _ _ tok'); [now apply token_of_getitem|reflexivity].
Qed.

Lemma tracks_verify_token totp_key factor ft prev :
  tracks prev (verify_token totp_key factor ft prev) (fun r cur => r = cur).
Proof.
  unfold verify_token.
  then_quiet (quiet_lift (getpath factor ["_links"; "verify"; "href"])) as url Hurl.
  eapply tracks_bind.
  - apply tracks_quiet. instantiate (1 := fun _ => True).
    destruct (is_str ft "token:software:totp"), totp_key as [key|].
    1:{ eapply quiet_bind; [apply (quiet_oracle (fun w => totp_now w key))|].
        intros now _. eapply quiet_weaken; [apply quiet_ret|auto]. }
    all: eapply quiet_bind; [apply quiet_lift|]; intros provider _;
      (eapply quiet_bind; [apply quiet_lift|]); intros vendor _;
      apply quiet_click_prompt.
  - cbv beta. intros code cur [-> _].
    then_quiet (quiet_lift (getitem prev "stateToken")) as tok Htok.
    apply (tracks_post_json prev _ _ tok); [now apply token_of_getitem|reflexivity].
Qed.

Lemma quiet_get_device : quiet get_device (fun _ => True).
Proof.
  unfold get_device. eapply quiet_bind; [apply quiet_next_device|].
  intros dev _. apply quiet_while_consuming. intros budget.
  apply quiet_while_true. intros [d|]; cbn [get_device_round].
  - eapply quiet_weaken; [apply quiet_ret|auto].
  - eapply quiet_bind; [apply quiet_click_echo|]. intros _ _.
    eapply quiet_bind; [apply quiet_click_confirm|]. intros [|] _.
    + eapply quiet_bind; [apply quiet_next_device|]. intros d' _.
      eapply quiet_weaken; [apply quiet_ret|auto].
    + eapply quiet_bind; [apply quiet_click_echo|]. intros _ _.
      eapply quiet_weaken; [apply quiet_ret|auto].
Qed.

(** The payload of the assertion carries the challenge's state token. *)
Lemma okta_verify_payload_token a r payload :
  okta_verify_payload a r = Ok payload ->
  exists tok, getitem r "stateToken" = Ok tok /\ getitem payload "stateToken" = Ok tok.
Proof.
  unfold okta_verify_payload.
  destruct (b64 (authenticatorData a)); [|discriminate].
  destruct (b64 (clientData a)); [|discriminate].
  destruct (b64 (signature a)); [|discriminate].
  cbn [result_bind]. destruct (getitem r "stateToken") as [tok|]; [|discriminate].
  intros [= <-]. now exists tok.
Qed.

Lemma tracks_okta_verify dev domain prev tok :
  token_of prev = Some tok ->
  tracks prev (okta_verify dev domain tok) (fun r cur => r = cur).
Proof.
  intros Hprev. unfold okta_verify. cbv zeta.
  eapply tracks_bind; [apply (tracks_post_json prev _ _ tok); [assumption|reflexivity]|].
  cbv beta. intros r cur ->.
  then_quiet (quiet_lift (getitem cur "status")) as st Hst.
  then_quiet (quiet_assert (is_str st "MFA_CHALLENGE")) as u Hu.
  then_quiet (quiet_lift (getpath cur ["_embedded"; "challenge"; "challenge"])) as ch Hch.
  then_quiet (quiet_lift (websafe_decode_value ch)) as ch_bytes Hbytes.
  then_quiet (quiet_lift (getpath cur ["_embedded"; "factors"])) as fs Hfs.
  then_quiet (quiet_lift (iterate fs)) as fl Hfl.
  then_quiet (quiet_lift (result_mapM allow_credential fl)) as creds Hcreds.
  eapply tracks_bind; [apply tracks_quiet, quiet_oracle|].
  cbv beta. intros a ? [-> _].
  then_quiet (quiet_lift (getpath cur ["_links"; "next"; "href"])) as next_url Hnext.
  then_quiet (quiet_lift (okta_verify_payload a cur)) as payload Hpayload.
  destruct (okta_verify_payload_token _ _ _ Hpayload) as (tok' & Htok' & Hcarry).
  apply (tracks_post_json cur _ _ tok'); [now apply token_of_getitem|].
  unfold request_token. now rewrite Hcarry.
Qed.

Lemma tracks_try_factors HAS_FIDO2 domain totp_key factors :
  forall ignore_webauthn prev,
    tracks prev (try_factors HAS_FIDO2 domain totp_key factors ignore_webauthn prev)
      (fun r cur => r = cur).
Proof.
  induction factors as [|factor rest IH]; intros iw prev; cbn [try_factors].
  - eapply tracks_weaken; [apply tracks_quiet, (quiet_raise _ (fun _ => False))|].
    cbv beta. now intros r cur [_ []].
  - then_quiet (quiet_lift (getitem factor "factorType")) as ft Hft.
    destruct (is_str ft "push"); [apply tracks_verify_push|].
    destruct (is_str ft "sms"); [apply tracks_verify_sms|].
    destruct (is_str ft "webauthn" && negb iw).
    + then_quiet (quiet_assert HAS_FIDO2) as u Hu.
      then_quiet quiet_get_device as dev Hdev.
      destruct dev as [d|]; [|apply IH].
      then_quiet (quiet_lift (getitem prev "stateToken")) as tok Htok.
      apply tracks_okta_verify. now apply token_of_getitem.
    + then_quiet (quiet_lift (re_match_token ft)) as is_token Htoken.
      destruct is_token; [apply tracks_verify_token|apply IH].
Qed.

Lemma tracks_negotiate HAS_FIDO2 domain fp totp_key prev :
  tracks prev (negotiate HAS_FIDO2 domain fp totp_key prev) (fun r cur => r = cur).
Proof.
  unfold negotiate.
  then_quiet (quiet_lift (getpath prev ["_embedded"; "factors"])) as offered Hoff.
  then_quiet (quiet_lift (iterate offered)) as items Hitems.
  then_quiet (quiet_lift (sorted_factors fp items)) as ordered Hord.
  apply tracks_try_factors.
Qed.

Lemma quiet_session_token r : quiet (session_token r) (fun _ => True).
Proof.
  intros w o w' H. destruct (session_token_silent r w) as (Hw & _ & _).
  rewrite H in Hw. cbn in Hw. subst. auto.
Qed.

(** In a threaded exchange each request carries the token of the response
    to the request before it. *)
Lemma threaded_adjacent prev entries :
  threaded prev entries ->
  (forall req rep, entries !! 0 = Some (req, rep) -> carries prev req) /\
  (forall i req rep req' rep',
     entries !! i = Some (req, rep) -> entries !! S i = Some (req', rep') ->
     exists r, reply_json rep = Some r /\ carries r req').
Proof.
  revert prev. induction entries as [|[q p] rest IH]; intros prev H.
  - split; intros; discriminate.
  - cbn in H. destruct H as [Hc Hrest]. split.
    + intros req rep [= <- <-]. exact Hc.
    + intros [|i] req rep req' rep' H0 H1; cbn in H0, H1.
      * injection H0 as <- <-.
        destruct Hrest as [->|(r & Hr & Hthr)]; [discriminate|].
        exists r. split; [assumption|]. destruct rest as [|[q' p'] rest']; [discriminate|].
        injection H1 as <- <-. cbn in Hthr. tauto.
      * destruct Hrest as [->|(r & Hr & Hthr)]; [discriminate|].
        exact (proj2 (IH r Hthr) i req rep req' rep' H0 H1).
Qed.

(** C5, as the code has it.  Every request [okta_auth] makes after the
    authentication request is a JSON request whose [stateToken] is the
    [stateToken] of the response to the request just before it; so whenever
    the provider answers with one and the same token throughout, that token
    is on every one of these requests. *)
Theorem state_token_follows_latest_response (HAS_FIDO2 : bool) (domain : string)
    (username password : json) (factor_priorities : gmap string Z)
    (totp_key : option string) (w : world) (o : outcome json) (w' : world) :
  okta_auth HAS_FIDO2 domain username password factor_priorities totp_key w = (o, w') ->
  exists exchange,
    transcript w' = transcript w ++ exchange /\
    (exists first rest,
       exchange = (authn_request domain username password, first) :: rest) /\
    (forall i req rep req' rep',
       exchange !! i = Some (req, rep) -> exchange !! S i = Some (req', rep') ->
       exists r tok,
         reply_json rep = Some r /\ token_of r = Some tok /\
         request_token req' = Some tok) /\
    (forall tok0,
       (forall i req rep r,
          exchange !! i = Some (req, rep) -> reply_json rep = Some r ->
          token_of r = Some tok0) ->
       forall i req rep,
         exchange !! S i = Some (req, rep) -> request_token req = Some tok0).
Proof.
  intros H. unfold okta_auth in H. rewrite bind_eq in H.
  destruct (post_json_spec (JStr ("https://" ++ domain ++ "/api/v1/authn"))
              (JObj [("username", username); ("password", password)]) w)
    as (o1 & Hpost & _ & Hret).
  rewrite Hpost in H. clear Hpost.
  set (w1 := set_http _ _ w) in H.
  assert (Hthread :
    exists rest, transcript w' = transcript w1 ++ rest /\
      (rest = [] \/ exists r0, reply_json (head (inbox w)) = Some r0 /\ threaded r0 rest)).
  { destruct o1 as [r0| | |];
      try (injection H as <- <-; exists []; rewrite app_nil_r; split; [reflexivity|now left]).
    destruct (Hret r0 eq_refl) as (resp & Hhead & _ & Hjson).
    assert (Htracks : tracks r0
      (fun w =>
         (let* st := lift (getitem r0 "status") in
          let* r := (if is_str st "MFA_REQUIRED"
                     then negotiate HAS_FIDO2 domain factor_priorities totp_key r0
                     else ret r0) in
          session_token r) w)
      (fun _ _ => True)).
    { then_quiet (quiet_lift (getitem r0 "status")) as st Hst.
      eapply tracks_bind with (mid := fun r cur => r = cur).
      - destruct (is_str st "MFA_REQUIRED"); [apply tracks_negotiate|].
        eapply tracks_weaken; [apply tracks_quiet, quiet_ret|].
        cbv beta. now intros r cur [-> ->].
      - intros r cur ->. eapply tracks_weaken; [apply tracks_quiet, quiet_session_token|].
        auto. }
    destruct (Htracks _ _ _ H) as (rest & Htr & Hthr & _).
    exists rest. split; [assumption|]. right. exists r0.
    rewrite Hhead. cbn. auto. }
  destruct Hthread as (rest & Htr & Hrest).
  set (first := head (inbox w)) in *.
  exists ((authn_request domain username password, first) :: rest).
  assert (Hadj : forall i req rep req' rep',
    ((authn_request domain username password, first) :: rest) !! i = Some (req, rep) ->
    ((authn_request domain username password, first) :: rest) !! S i = Some (req', rep') ->
    exists r tok, reply_json rep = Some r /\ token_of r = Some tok /\
                  request_token req' = Some tok).
  { intros i req rep req' rep' H0 H1.
    destruct Hrest as [->|(r0 & Hr0 & Hthr)]; [destruct i; discriminate|].
    destruct (threaded_adjacent _ _ Hthr) as [Hfirst Hnext].
    destruct i as [|i]; cbn in H0, H1.
    - injection H0 as <- <-. destruct (Hfirst _ _ H1) as (tok & Ht & Hq).
      now exists r0, tok.
    - destruct (Hnext _ _ _ _ _ H0 H1) as (r & Hr & tok & Ht & Hq).
      now exists r, tok. }
  split; [|split; [|split]].
  - rewrite Htr. subst w1. cbn. now rewrite <- app_assoc.
  - now exists first, rest.
  - exact Hadj.
  - intros tok0 Hsame i req rep Hi.
    destruct (lookup_lt_is_Some_2 ((authn_request domain username password, first) :: rest) i)
      as [[q p] Hq]; [apply lookup_lt_Some in Hi; lia|].
    destruct (Hadj _ _ _ _ _ Hq Hi) as (r & tok & Hr & Ht & Hreq).
    rewrite Hreq, <- Ht. now apply (Hsame i q p r).
Qed.

(** An SMS login in which the provider issues a new state token with its
    challenge. *)
Definition sms_world : world :=
  example_world
    [Reply (json_reply
              (mfa_required "00tokenA"
                 [example_factor "sms" "https://example.okta.com/verify/sms"]));
     Reply (json_reply (JObj [("status", JStr "MFA_CHALLENGE");
                              ("stateToken", JStr "00tokenB")]));
     success_reply]
    ["123456"].

Definition sms_login : outcome json * world :=
  okta_auth true "example.okta.com" (JStr "alice") (JStr "secret")
    (main_factor_priorities None []) None sms_world.

Lemma state_token_follows_latest_response_witness :
  exists exchange,
    transcript sms_login.2 = transcript sms_world ++ exchange /\
    length exchange = 3 /\
    forall i req rep req' rep',
      exchange !! i = Some (req, rep) -> exchange !! S i = Some (req', rep') ->
      exists r tok,
        reply_json rep = Some r /\ token_of r = Some tok /\
        request_token req' = Some tok.
Proof.
  destruct (state_token_follows_latest_response true "example.okta.com"
              (JStr "alice") (JStr "secret") (main_factor_priorities None []) None
              sms_world sms_login.1 sms_login.2 (surjective_pairing _))
    as (exchange & Htr & _ & Hadj & _).
  exists exchange. split; [exact Htr|]. split; [|exact Hadj].
  apply (f_equal (@length _)) in Htr. vm_compute in Htr. now symmetry.
Defined.

(** The claim as the spec words it: every request after the first carries
    the state token issued by the first response. *)
Definition token_unchanged (exchange : list (request * option reply)) : Prop :=
  forall req0 first r0 tok0,
    exchange !! 0 = Some (req0, first) ->
    reply_json first = Some r0 -> token_of r0 = Some tok0 ->
    forall i req rep,
      exchange !! S i = Some (req, rep) -> request_token req = Some tok0.

(** In the SMS login above the code is submitted with the challenge's token
    [00tokenB], not with the first response's [00tokenA]. *)
Lemma state_token_not_unchanged : ~ token_unchanged (transcript sms_login.2).
Proof.
  intros H.
  assert (Hrun : exists req0 first r0 req1 rep1 req2 rep2,
            transcript sms_login.2 = [(req0, first); (req1, rep1); (req2, rep2)] /\
            reply_json first = Some r0 /\ token_of r0 = Some (JStr "00tokenA") /\
            request_token req2 = Some (JStr "00tokenB")).
  { vm_compute. repeat eexists. }
  destruct Hrun as (req0 & first & r0 & req1 & rep1 & req2 & rep2 & Htr & Hr0 & Ht0 & Hreq).
  rewrite Htr in H.
  specialize (H req0 first r0 _ eq_refl Hr0 Ht0 1 req2 rep2 eq_refl).
  rewrite Hreq in H. discriminate H.
Qed.

(** ** The prelogin step *)

Section SamlFacts.

Variable HAS_FIDO2 : bool.
Variable xml_fromstring : list byte -> result element.
Variable html_fromstring : list byte -> result element.
Variable urlencode : list (string * string) -> string.
Variable netloc : string -> string.

Definition prelogin_request (gateway : string) : request :=
  POST (JStr ("https://" ++ gateway ++ "/ssl-vpn/prelogin.esp")) NoBody.

Lemma prelogin_without_SAMLRequest gateway w resp rest url data :
  inbox w = Reply resp :: rest ->
  ok_status resp = true ->
  prelogin_form xml_fromstring html_fromstring resp = Ok (url, data) ->
  contains "SAMLRequest" data = false ->
  prelogin xml_fromstring html_fromstring urlencode gateway w
  = (Raises AssertionError, answered (prelogin_request gateway) (Reply resp) rest w).
Proof.
  intros Hin Hok Hform Hmiss. unfold prelogin.
  rewrite bind_eq, bind_eq, (send_Reply _ _ _ _ Hin).
  unfold check. unfold ok_status in Hok. apply negb_true_iff in Hok. rewrite Hok.
  unfold ret at 1. rewrite bind_eq, lift_eq, Hform, bind_eq, assert_eq, Hmiss.
  reflexivity.
Qed.

(** C9.  When the form extracted from the gateway's prelogin answer has no
    [SAMLRequest] field, [prelogin] fails its assertion, and so does the
    whole exchange of [main]: the prelogin request is the only request
    made. *)
Theorem missing_SAMLRequest_stops_the_flow (gateway : string)
    (username password : json) (factor_priorities : gmap string Z)
    (totp_key : option string) (w : world) (resp : Response)
    (rest : list reply) (url : string) (data : list (string * string)) :
  inbox w = Reply resp :: rest ->
  ok_status resp = true ->
  prelogin_form xml_fromstring html_fromstring resp = Ok (url, data) ->
  contains "SAMLRequest" data = false ->
  prelogin xml_fromstring html_fromstring urlencode gateway w
  = (Raises AssertionError, answered (prelogin_request gateway) (Reply resp) rest w) /\
  main_session HAS_FIDO2 xml_fromstring html_fromstring urlencode netloc
    gateway username password factor_priorities totp_key w
  = (Raises AssertionError, answered (prelogin_request gateway) (Reply resp) rest w).
Proof.
  intros Hin Hok Hform Hmiss.
  pose proof (prelogin_without_SAMLRequest gateway _ _ _ _ _ Hin Hok Hform Hmiss) as H.
  split; [exact H|]. unfold main_session. rewrite bind_eq, H. reflexivity.
Qed.

End SamlFacts.

(** A gateway answer whose embedded form has a [RelayState] field only. *)
Definition example_prelogin_xml (_ : list byte) : result element :=
  Ok (Element "prelogin-response" [] None
        [Element "status" [] (Some "Success") [];
         Element "saml-request" [] (Some "PGh0bWw+") []]).

Definition example_prelogin_html (_ : list byte) : result element :=
  Ok (Element "html" [] None
        [Element "body" [] None
           [Element "form" [("action", "https://example.okta.com/app/sso")] None
              [Element "input" [("name", "RelayState"); ("value", "abc")] None []]]]).

Lemma missing_SAMLRequest_stops_the_flow_witness :
  let resp := {| status_code := 200; headers := []; content := []; json_body := None |} in
  let w := example_world [Reply resp; success_reply] [] in
  main_session true example_prelogin_xml example_prelogin_html (fun _ => "") (fun u => u)
    "vpn.example.com" (JStr "alice") (JStr "secret") (main_factor_priorities None []) None w
  = (Raises AssertionError,
     answered (prelogin_request "vpn.example.com") (Reply resp) [success_reply] w).
Proof.
  cbv zeta.
  refine (proj2 (missing_SAMLRequest_stops_the_flow true example_prelogin_xml
                   example_prelogin_html (fun _ => "") (fun u => u)
                   "vpn.example.com" (JStr "alice") (JStr "secret")
                   (main_factor_priorities None []) None
                   (example_world
                      [Reply {| status_code := 200; headers := []; content := [];
                                json_body := None |}; success_reply] [])
                   {| status_code := 200; headers := []; content := [];
                      json_body := None |}
                   [success_reply]
                   "https://example.okta.com/app/sso" [("RelayState", "abc")]
                   eq_refl eq_refl _ eq_refl)).
  vm_compute. reflexivity.
Defined.

(** ** The supervisor: what survives a run *)

Module SupervisorFacts.
Import Supervisor.
Local Open Scope sup_scope.

(** The blocked set and the handlers are the same in both states. *)
Definition same_disposition (s s' : state) : Prop :=
  sigmask s' = sigmask s /\ forall sig, handler_of s' sig = handler_of s sig.

Definition blocked (s : state) : Prop := SIGTERM ∈ sigmask s.
Definition forwarding (s : state) : Prop := handler_of s SIGTERM = Forward.

(** No SIGTERM can kill the supervisor in this state. *)
Definition shielded (s : state) : Prop := blocked s \/ forwarding s.

(** Started in a state where [P] holds, [m] leaves the disposition as it
    found it and does not get the supervisor killed. *)
Definition calm_under {A} (P : state -> Prop) (m : Sup A) : Prop :=
  forall s f s', m s = (f, s') -> P s -> f <> Killed /\ same_disposition s s'.

(** [P] only looks at the disposition. *)
Definition dispositional (P : state -> Prop) : Prop :=
  forall s s', same_disposition s s' -> P s -> P s'.

Lemma same_disposition_refl s : same_disposition s s.
Proof. now split. Qed.

Lemma same_disposition_trans s1 s2 s3 :
  same_disposition s1 s2 -> same_disposition s2 s3 -> same_disposition s1 s3.
Proof.
  intros [Hm1 Hh1] [Hm2 Hh2]. split; [congruence|].
  intros sig. now rewrite Hh2, Hh1.
Qed.

Lemma dispositional_blocked : dispositional blocked.
Proof. intros s s' [Hm _]. unfold blocked. now rewrite Hm. Qed.

Lemma dispositional_forwarding : dispositional forwarding.
Proof. intros s s' [_ Hh]. unfold forwarding. now rewrite Hh. Qed.

Lemma dispositional_shielded : dispositional shielded.
Proof.
  intros s s' H [Hb|Hf]; [left|right].
  - eapply dispositional_blocked; eassumption.
  - eapply dispositional_forwarding; eassumption.
Qed.

Lemma calm_weaken {A} (P Q : state -> Prop) (m : Sup A) :
  (forall s, P s -> Q s) -> calm_under Q m -> calm_under P m.
Proof. intros HPQ Hm s f s' H HP. eapply Hm; eauto. Qed.

Lemma calm_ret {A} P (a : A) : calm_under P (ret a).
Proof.
  intros s f s' [= <- <-] _. split; [discriminate|apply same_disposition_refl].
Qed.




(** Started shielded, [m] ends normally and leaves the disposition as it
    found it. *)
Definition steady (m : Sup unit) : Prop :=
  forall s f s', m s = (f, s') -> shielded s -> f = Value tt /\ same_disposition s s'.


Lemma steady_ret : steady (ret tt).
Proof. intros s f s' [= <- <-] _. split; [reflexivity|apply same_disposition_refl]. Qed.

Lemma steady_update_kid g : steady (update_kid g).
Proof. intros s f s' [= <- <-] _. split; [reflexivity|now split]. Qed.

Lemma steady_bind (m k : Sup unit) : steady m -> steady k -> steady (bind m (fun _ => k)).
Proof.
  intros Hm Hk s f s' H Hs. unfold bind in H.
  destruct (m s) as [f1 s1] eqn:Hms. destruct (Hm _ _ _ Hms Hs) as [-> Hd1].
  destruct (Hk _ _ _ H (dispositional_shielded _ _ Hd1 Hs)) as [-> Hd].
  split; [reflexivity|]. eapply same_disposition_trans; eassumption.
Qed.

Lemma steady_check_signals : steady check_signals.
Proof.
  intros s f s' H Hs. unfold check_signals in H.
  destruct (bool_decide (SIGTERM ∈ pending s)) eqn:Hp; cbn [andb] in H;
    [|injection H as <- <-; split; [reflexivity|apply same_disposition_refl]].
  destruct (bool_decide (SIGTERM ∉ sigmask s)) eqn:Hb;
    [|injection H as <- <-; split; [reflexivity|apply same_disposition_refl]].
  apply bool_decide_eq_true in Hb. destruct Hs as [Hs|Hs]; [now destruct Hb|].
  unfold dispatch, forwarding, handler_of in *. cbn [handlers] in H.
  destruct (handlers s !! SIGTERM) as [[| | |]|]; try discriminate.
  injection H as <- <-. split; [reflexivity|now split].
Qed.

Lemma steady_arrive : steady arrive.
Proof.
  intros s f s' H Hs. unfold arrive in H.
  destruct (steady_check_signals _ _ _ H) as [Hf Hd]; [exact Hs|].
  split; assumption.
Qed.

Lemma steady_point pl i : steady (point pl i).
Proof.
  unfold point. apply steady_bind.
  - destruct (happens _ _); [apply steady_update_kid|apply steady_ret].
  - destruct (happens _ _); [apply steady_arrive|apply steady_ret].
Qed.








(** [pthread_sigmask] installs the new mask whatever happens next, and
    leaves the handlers alone. *)
Lemma pthread_sigmask_spec h mask s f s' :
  pthread_sigmask h mask s = (f, s') ->
  sigmask s' = new_mask h mask (sigmask s) /\
  (forall sig, handler_of s' sig = handler_of s sig) /\
  f <> Throws /\
  (forall old, f = Value old -> old = sigmask s) /\
  (forwarding s \/ SIGTERM ∉ pending s -> f <> Killed).
Proof.
  unfold pthread_sigmask, check_signals. cbn [pending sigmask].
  destruct (bool_decide (SIGTERM ∈ pending s)) eqn:Hp; cbn [andb].
  2:{ intros [= <- <-]. repeat split; try discriminate; congruence. }
  destruct (bool_decide (SIGTERM ∉ new_mask h mask (sigmask s))).
  2:{ intros [= <- <-]. repeat split; try discriminate; congruence. }
  apply bool_decide_eq_true in Hp.
  unfold dispatch, forwarding, handler_of. cbn [handlers].
  destruct (handlers s !! SIGTERM) as [[| | |]|]; intros [= <- <-];
    repeat split; try discriminate; try congruence;
    intros [?|?]; try discriminate; contradiction.
Qed.




















(** ** The supervisor: the child's signal mask *)

Definition kid_masks (s : state) : option (gset signum * gset signum) :=
  (fun c => (mask_at_fork c, mask_at_exec c)) <$> kid s.

(** [m] does not touch the masks the child was started with. *)
Definition keeps_kid {A} (m : Sup A) : Prop :=
  forall s f s', m s = (f, s') -> kid_masks s' = kid_masks s.

Lemma keeps_ret {A} (a : A) : keeps_kid (ret a).
Proof. now intros s f s' [= <- <-]. Qed.

Lemma keeps_bind {A B} (m : Sup A) (k : A -> Sup B) :
  keeps_kid m -> (forall a, keeps_kid (k a)) -> keeps_kid (bind m k).
Proof.
  intros Hm Hk s f s' H. unfold bind in H.
  destruct (m s) as [f1 s1] eqn:Hms. specialize (Hm _ _ _ Hms).
  destruct f1 as [a| |]; try (now injection H as <- <-).
  rewrite (Hk a _ _ _ H). exact Hm.
Qed.

Lemma keeps_finally {A} (body : Sup A) (cleanup : Sup unit) :
  keeps_kid body -> keeps_kid cleanup -> keeps_kid (finally body cleanup).
Proof.
  intros Hb Hc s f s' H. unfold finally in H.
  destruct (body s) as [f1 s1] eqn:Hbs. specialize (Hb _ _ _ Hbs).
  destruct (cleanup s1) as [f2 s2] eqn:Hcs. specialize (Hc _ _ _ Hcs).
  destruct f1 as [x| |]; [| |now injection H as <- <-];
    destruct f2 as [[]| |]; injection H as <- <-; congruence.
Qed.

Lemma keeps_update_kid g :
  (forall c, mask_at_fork (g c) = mask_at_fork c /\ mask_at_exec (g c) = mask_at_exec c) ->
  keeps_kid (update_kid g).
Proof.
  intros Hg s f s' [= <- <-]. unfold kid_masks. cbn [kid].
  destruct (kid s) as [c|]; [|reflexivity]. cbn.
  destruct (Hg c) as [-> ->]. reflexivity.
Qed.

Lemma keeps_terminate : keeps_kid terminate.
Proof. apply keeps_update_kid. intros c. now destruct (alive c). Qed.

Lemma keeps_child_exits : keeps_kid child_exits.
Proof. apply keeps_update_kid. intros c. now destruct (alive c). Qed.

Lemma keeps_close_stdin : keeps_kid close_stdin.
Proof.
  intros s f s' H. unfold close_stdin in H.
  destruct (update_kid _ s) as [f1 closed] eqn:Hclosed.
  apply keeps_update_kid in Hclosed; [|now intros c].
  destruct (pipe_breaks s); injection H as <- <-; exact Hclosed.
Qed.

Lemma keeps_waitid : keeps_kid waitid.
Proof.
  intros s f s' H. unfold waitid in H.
  destruct (alive <$> kid s) as [[| |]|]; try exact (keeps_child_exits _ _ _ H).
  now injection H as <- <-.
Qed.

Lemma keeps_check_signals : keeps_kid check_signals.
Proof.
  intros s f s' H. unfold check_signals in H.
  destruct (_ && _); [|now injection H as <- <-].
  unfold dispatch in H.
  destruct (handler_of _ SIGTERM); try (now injection H as <- <-).
  exact (keeps_terminate _ _ _ H).
Qed.

Lemma keeps_arrive : keeps_kid arrive.
Proof. intros s f s' H. exact (keeps_check_signals _ _ _ H). Qed.

Lemma keeps_point pl i : keeps_kid (point pl i).
Proof.
  unfold point. apply keeps_bind; [|intros _].
  - destruct (happens _ _); [apply keeps_child_exits|apply keeps_ret].
  - destruct (happens _ _); [apply keeps_arrive|apply keeps_ret].
Qed.

Lemma keeps_pthread_sigmask h mask : keeps_kid (pthread_sigmask h mask).
Proof.
  intros s f s' H. unfold pthread_sigmask in H.
  destruct (check_signals _) as [f1 s1] eqn:H1.
  apply keeps_check_signals in H1.
  destruct f1; injection H as <- <-; exact H1.
Qed.

Lemma keeps_signal num h : keeps_kid (signal num h).
Proof. now intros s f s' [= <- <-]. Qed.

Lemma keeps_signal_mask {A} h mask before (body : gset signum -> Sup A) :
  keeps_kid before -> (forall old, keeps_kid (body old)) ->
  keeps_kid (signal_mask h mask before body).
Proof.
  intros Hbefore Hbody. unfold signal_mask.
  apply keeps_bind; [apply keeps_pthread_sigmask|intros old].
  apply keeps_finally; [apply Hbody|].
  apply keeps_bind; [assumption|intros _].
  apply keeps_bind; [apply keeps_pthread_sigmask|intros _; apply keeps_ret].
Qed.

Lemma keeps_signal_handler {A} num h before (body : handler -> Sup A) :
  keeps_kid before -> (forall old, keeps_kid (body old)) ->
  keeps_kid (signal_handler num h before body).
Proof.
  intros Hbefore Hbody. unfold signal_handler.
  apply keeps_bind; [apply keeps_signal|intros old].
  apply keeps_finally; [apply Hbody|].
  apply keeps_bind; [assumption|intros _].
  apply keeps_bind; [apply keeps_signal|intros _; apply keeps_ret].
Qed.

Lemma keeps_stdin_write pl : keeps_kid (stdin_write pl).
Proof.
  unfold stdin_write. destruct (write_ok pl); [now apply keeps_update_kid|].
  now intros s f s' [= <- <-].
Qed.

Lemma keeps_Popen_exit : keeps_kid Popen_exit.
Proof.
  unfold Popen_exit. apply keeps_finally; [apply keeps_close_stdin|].
  now apply keeps_update_kid.
Qed.

(** The child inherits the blocked mask at the fork, and [preexec_fn] puts
    the supervisor's original mask back before the program is executed. *)
Lemma child_masks pl mask hs :
  kid_masks (main_supervise pl (initial mask hs)).2 = Some (mask ∪ {[SIGTERM]}, mask).
Proof.
  destruct (main_supervise pl (initial mask hs)) as [f s'] eqn:H. cbn [snd].
  unfold main_supervise, popen_forward_sigterm in H. unfold signal_mask at 1 in H.
  unfold bind at 1 in H.
  destruct (pthread_sigmask SIG_BLOCK {[SIGTERM]} (initial mask hs)) as [f1 s1] eqn:H1.
  destruct (pthread_sigmask_spec _ _ _ _ _ H1) as (Hm1 & Hh1 & Hthrow & Hold & Hkill).
  assert (Hnone : SIGTERM ∉ pending (initial mask hs)) by (cbn; set_solver).
  specialize (Hkill (or_intror Hnone)).
  destruct f1 as [old| |]; [|now destruct Hthrow|now destruct Hkill].
  rewrite (Hold old eq_refl) in H. clear Hold Hthrow Hkill.
  cbn [initial sigmask new_mask] in H, Hm1.
  assert (Hs1 : blocked s1) by (unfold blocked; rewrite Hm1; set_solver).
  revert H.
  match goal with
  | |- finally ?body ?cleanup s1 = _ -> _ =>
      assert (Hcleanup : keeps_kid cleanup);
      [|assert (Hbody : forall f2 s2, body s1 = (f2, s2) ->
                  kid_masks s2 = Some (mask ∪ {[SIGTERM]}, mask))]
  end.
  - apply keeps_bind; [apply keeps_point|intros _].
    apply keeps_bind; [apply keeps_pthread_sigmask|intros _; apply keeps_ret].
  - intros f2 s2 H2. unfold bind at 1 in H2.
    destruct (point pl 1 s1) as [f3 s3] eqn:H3.
    destruct (steady_point pl 1 _ _ _ H3 (or_introl Hs1)) as [-> [Hm3 _]].
    unfold with_Popen, bind at 1, Popen in H2.
    match type of H2 with
    | finally ?body' ?cleanup' ?s4 = _ =>
        assert (Hkeep : keeps_kid (finally body' cleanup'));
        [|rewrite (Hkeep _ _ _ H2)]
    end.
    + apply keeps_finally.
      * apply keeps_bind; [apply keeps_point|intros _].
        apply keeps_signal_handler; [apply keeps_point|intros _].
        apply keeps_bind; [apply keeps_point|intros _].
        apply keeps_signal_mask; [apply keeps_point|intros _].
        apply keeps_bind; [apply keeps_point|intros _].
        apply keeps_bind; [apply keeps_stdin_write|intros _].
        apply keeps_bind; [apply keeps_point|intros _].
        apply keeps_bind; [apply keeps_close_stdin|intros _].
        apply keeps_bind; [apply keeps_point|intros _].
        apply keeps_waitid.
      * apply keeps_bind; [apply keeps_point|intros _; apply keeps_Popen_exit].
    + unfold kid_masks. cbn. now rewrite Hm3, Hm1.
  - intros H. unfold finally in H.
    match type of H with
    | context [match ?body s1 with _ => _ end] => destruct (body s1) as [f2 s2] eqn:H2
    end.
    specialize (Hbody _ _ eq_refl).
    match type of H with
    | context [match ?cleanup s2 with _ => _ end] =>
        destruct (cleanup s2) as [f3 s3] eqn:H3
    end.
    apply Hcleanup in H3.
    destruct f2 as [x| |]; [| |injection H as <- <-; exact Hbody];
      destruct f3 as [[]| |]; injection H as <- <-; congruence.
Qed.

(** C4, as the code has it.  The child is forked with SIGTERM blocked, and
    [preexec_fn] then sets its mask to the supervisor's original one before
    the VPN client is executed: the client starts with SIGTERM blocked
    exactly when the supervisor itself was started that way. *)
Theorem child_starts_with_original_mask (pl : plan) (mask : gset signum)
    (hs : gmap signum handler) :
  exists c,
    kid (main_supervise pl (initial mask hs)).2 = Some c /\
    SIGTERM ∈ mask_at_fork c /\
    mask_at_fork c = mask ∪ {[SIGTERM]} /\
    mask_at_exec c = mask /\
    (SIGTERM ∈ mask_at_exec c <-> SIGTERM ∈ mask).
Proof.
  pose proof (child_masks pl mask hs) as H. unfold kid_masks in H.
  destruct (kid (main_supervise pl (initial mask hs)).2) as [c|]; [|discriminate].
  cbn in H. injection H as Hfork Hexec. exists c.
  rewrite Hfork, Hexec. split; [reflexivity|].
  split; [apply elem_of_union_r, elem_of_singleton; reflexivity|].
  repeat split; auto.
Qed.

(** The claim as the spec words it: the VPN client starts with SIGTERM
    blocked. *)
Definition child_starts_blocked : Prop :=
  forall pl mask hs,
    exists c, kid (main_supervise pl (initial mask hs)).2 = Some c /\
              SIGTERM ∈ mask_at_exec c.

(** Started with nothing blocked, the supervisor hands the client an empty
    mask. *)
Lemma child_not_started_blocked : ~ child_starts_blocked.
Proof.
  intros H.
  destruct (H {| sigterm_at := None; child_exit_at := None; write_ok := true |} ∅ ∅)
    as (c & Hc & Hin).
  pose proof (child_masks
                {| sigterm_at := None; child_exit_at := None; write_ok := true |} ∅ ∅)
    as Hmasks.
  unfold kid_masks in Hmasks. rewrite Hc in Hmasks. cbn in Hmasks.
  injection Hmasks as _ Hexec. rewrite Hexec in Hin.
  exact (not_elem_of_empty _ Hin).
Qed.

End SupervisorFacts.

(** ** The loops end by themselves

    The iteration budget given to the two [while] loops of the script is
    never what ends them: every further round has used up one scripted
    answer. *)

Definition finishes {A} (m : M A) : Prop := forall w, (m w).1 <> Unfinished.

Lemma finishes_bind {A B} (m : M A) (k : A -> M B) :
  finishes m -> (forall a, finishes (k a)) -> finishes (bind m k).
Proof.
  intros Hm Hk w. rewrite bind_eq. specialize (Hm w).
  destruct (m w) as [[a|e| |] w1]; cbn in *; try discriminate; [apply Hk|congruence].
Qed.

Lemma finishes_lift {A} (x : result A) : finishes (lift x).
Proof. intros w. rewrite lift_eq. now destruct x. Qed.

Lemma finishes_ret {A} (x : A) : finishes (ret x).
Proof. intros w. discriminate. Qed.

Lemma finishes_raise {A} e : finishes (@raise A e).
Proof. intros w. discriminate. Qed.

Lemma finishes_assert c : finishes (assert c).
Proof. intros w. rewrite assert_eq. now destruct c. Qed.

Lemma finishes_click_echo text values : finishes (click_echo text values).
Proof. intros w. discriminate. Qed.

Lemma ask_until_answered_finishes question lines :
  forall co, (ask_until_answered question lines co).1.1 <> Unfinished.
Proof.
  induction lines as [|line rest IH]; intros co; cbn [ask_until_answered];
    [discriminate|].
  destruct (String.eqb line ""); [apply IH|discriminate].
Qed.

Lemma finishes_click_prompt text values : finishes (click_prompt text values).
Proof.
  intros w. unfold click_prompt.
  pose proof (ask_until_answered_finishes (Prompt text values) (typed w) (console w)) as H.
  now destruct (ask_until_answered _ _ _) as [[o rest] co].
Qed.

Lemma finishes_click_confirm text : finishes (click_confirm text).
Proof. intros w. unfold click_confirm. now destruct (answers w). Qed.

Lemma finishes_next_device : finishes next_device.
Proof. intros w. unfold next_device. now destruct (plugged w). Qed.

Lemma finishes_oracle {A} (f : world -> result A) : finishes (fun w => lift (f w) w).
Proof. intros w. rewrite lift_eq. now destruct (f w). Qed.

Lemma finishes_post_json url data : finishes (post_json url data).
Proof.
  intros w. destruct (post_json_spec url data w) as (o & -> & Hfin & _). exact Hfin.
Qed.

Lemma finishes_send req : finishes (send req).
Proof. intros w. unfold send. now destruct (inbox w) as [|[]]. Qed.

Lemma finishes_check r : finishes (check r).
Proof. intros w. unfold check. now destruct (_ && _). Qed.

(** A loop whose every further round lowers [left] ends within
    [left + 1] rounds. *)
Lemma while_true_finishes {S A} (left : world -> nat) (body : S -> M (S + A)) :
  (forall s w o w', body s w = (o, w') ->
     o <> Unfinished /\ forall s', o = Returns (inl s') -> left w' < left w) ->
  forall budget s w, left w < budget -> (while_true budget body s w).1 <> Unfinished.
Proof.
  intros Hbody. induction budget as [|n IH]; intros s w Hlt; [lia|].
  cbn [while_true]. rewrite bind_eq.
  destruct (body s w) as [o w1] eqn:Hround.
  destruct (Hbody _ _ _ _ Hround) as [Hfin Hless].
  destruct o as [[s'|a]|e| |]; cbn; try discriminate; [|congruence].
  apply IH. specialize (Hless s' eq_refl). lia.
Qed.

Lemma while_consuming_finishes {S A} (left : world -> nat) (body : S -> M (S + A)) s :
  (forall s w o w', body s w = (o, w') ->
     o <> Unfinished /\ forall s', o = Returns (inl s') -> left w' < left w) ->
  finishes (while_consuming left body s).
Proof.
  intros Hbody w. unfold while_consuming.
  apply (while_true_finishes left body Hbody). lia.
Qed.

Lemma finishes_verify_push factor r : finishes (verify_push factor r).
Proof.
  unfold verify_push. apply finishes_bind; [apply finishes_lift|intros url].
  apply while_consuming_finishes. intros [r' ca] w o w' Hround.
  destruct (push_round_cases _ _ _ _ _ _ Hround)
    as [[_ [e ->]]|(tok & _ & _ & Hin & Hfin & Hwait)].
  - split; discriminate.
  - split; [assumption|]. intros s' Hs'. specialize (Hwait s' Hs'). rewrite Hin.
    destruct (inbox w); [discriminate Hwait|]. cbn. lia.
Qed.

Lemma get_device_round_consumes dev w o w' :
  get_device_round dev w = (o, w') ->
  o <> Unfinished /\
  forall dev', o = Returns (inl dev') -> length (answers w') < length (answers w).
Proof.
  destruct dev as [d|]; cbn [get_device_round].
  - intros [= <- <-]. split; discriminate.
  - rewrite bind_eq. cbn [click_echo]. rewrite bind_eq. unfold click_confirm.
    cbn [answers console typed set_terminal].
    destruct (answers w) as [|[|] rest] eqn:Hans.
    + intros [= <- <-]. split; discriminate.
    + rewrite bind_eq. unfold next_device. cbn [plugged set_terminal].
      destruct (plugged w); intros [= <- <-];
        (split; [discriminate|]); intros _ _; cbn; lia.
    + rewrite bind_eq. intros [= <- <-]. split; discriminate.
Qed.

Lemma finishes_get_device : finishes get_device.
Proof.
  unfold get_device. apply finishes_bind; [apply finishes_next_device|intros dev].
  apply while_consuming_finishes. intros d w o w'. apply get_device_round_consumes.
Qed.

Lemma finishes_verify_sms factor r : finishes (verify_sms factor r).
Proof.
  unfold verify_sms.
  repeat first
    [ apply finishes_post_json | apply finishes_lift | apply finishes_assert
    | apply finishes_click_prompt
    | (apply finishes_bind; [|intros ?]) ].
Qed.

Lemma finishes_verify_token totp_key factor ft r : finishes (verify_token totp_key factor ft r).
Proof.
  unfold verify_token.
  apply finishes_bind; [apply finishes_lift|intros url].
  apply finishes_bind.
  - destruct (is_str ft "token:software:totp"), totp_key as [key|];
      repeat first
        [ apply finishes_lift | apply finishes_click_prompt | apply finishes_ret
        | apply (finishes_oracle (fun w => totp_now w key))
        | (apply finishes_bind; [|intros ?]) ].
  - intros code. apply finishes_bind; [apply finishes_lift|intros tok].
    apply finishes_post_json.
Qed.

Lemma finishes_okta_verify dev domain tok : finishes (okta_verify dev domain tok).
Proof.
  unfold okta_verify. cbv zeta.
  repeat first
    [ apply finishes_post_json | apply finishes_lift | apply finishes_assert
    | apply finishes_oracle
    | (apply finishes_bind; [|intros ?]) ].
Qed.

Lemma finishes_try_factors HAS_FIDO2 domain totp_key factors :
  forall ignore_webauthn r,
    finishes (try_factors HAS_FIDO2 domain totp_key factors ignore_webauthn r).
Proof.
  induction factors as [|factor rest IH]; intros iw r; cbn [try_factors].
  - apply finishes_raise.
  - apply finishes_bind; [apply finishes_lift|intros ft].
    destruct (is_str ft "push"); [apply finishes_verify_push|].
    destruct (is_str ft "sms"); [apply finishes_verify_sms|].
    destruct (is_str ft "webauthn" && negb iw).
    + apply finishes_bind; [apply finishes_assert|intros _].
      apply finishes_bind; [apply finishes_get_device|intros [d|]]; [|apply IH].
      apply finishes_bind; [apply finishes_lift|intros tok].
      apply finishes_okta_verify.
    + apply finishes_bind; [apply finishes_lift|intros [|]];
        [apply finishes_verify_token|apply IH].
Qed.

Lemma finishes_session_token r : finishes (session_token r).
Proof. intros w. apply session_token_silent. Qed.

(** [okta_auth] returns, raises, or waits for an answer that never comes;
    it is never cut off by the budget of a loop. *)
Lemma okta_auth_finishes HAS_FIDO2 domain username password fp totp_key :
  finishes (okta_auth HAS_FIDO2 domain username password fp totp_key).
Proof.
  unfold okta_auth.
  apply finishes_bind; [apply finishes_post_json|intros r].
  apply finishes_bind; [apply finishes_lift|intros st].
  apply finishes_bind; [|intros r'; apply finishes_session_token].
  destruct (is_str st "MFA_REQUIRED"); [|apply finishes_ret].
  unfold negotiate.
  apply finishes_bind; [apply finishes_lift|intros offered].
  apply finishes_bind; [apply finishes_lift|intros items].
  apply finishes_bind; [apply finishes_lift|intros ordered].
  apply finishes_try_factors.
Qed.

(** * Further properties *)

(** ** What [okta_auth] makes of the first answer *)

Lemma post_json_refused url data resp rest w :
  inbox w = Reply resp :: rest -> ok_status resp = false ->
  post_json url data w
  = (Raises (HTTPError (status_code resp)),
     answered (POST url (JsonBody data)) (Reply resp) rest w).
Proof.
  intros Hin Hbad. unfold post_json. rewrite bind_eq, bind_eq, (send_Reply _ _ _ _ Hin).
  unfold check. unfold ok_status in Hbad. apply negb_false_iff in Hbad. now rewrite Hbad.
Qed.

(** X1.  When the identity provider answers the authentication request with
    an HTTP error status (400 to 599), [okta_auth] raises the HTTP error with
    that status; the body is not decoded and no further request is made. *)
Theorem http_error_ends_okta_auth (HAS_FIDO2 : bool) (domain : string)
    (username password : json) (factor_priorities : gmap string Z)
    (totp_key : option string) (w : world) (resp : Response) (rest : list reply) :
  inbox w = Reply resp :: rest ->
  ok_status resp = false ->
  okta_auth HAS_FIDO2 domain username password factor_priorities totp_key w
  = (Raises (HTTPError (status_code resp)),
     answered (authn_request domain username password) (Reply resp) rest w).
Proof.
  intros Hin Hbad. unfold okta_auth. rewrite bind_eq.
  now rewrite (post_json_refused _ _ _ _ _ Hin Hbad).
Qed.

Definition unauthorized : Response :=
  {| status_code := 401; headers := []; content := [];
     json_body := Some (JObj [("errorCode", JStr "E0000004")]) |}.

Lemma http_error_ends_okta_auth_witness :
  let w := example_world [Reply unauthorized] [] in
  okta_auth true "example.okta.com" (JStr "alice") (JStr "wrong")
    (main_factor_priorities None []) None w
  = (Raises (HTTPError 401),
     answered (authn_request "example.okta.com" (JStr "alice") (JStr "wrong"))
       (Reply unauthorized) [] w).
Proof.
  cbv zeta.
  apply (http_error_ends_okta_auth true "example.okta.com" (JStr "alice") (JStr "wrong")
           (main_factor_priorities None []) None
           (example_world [Reply unauthorized] []) unauthorized []);
    reflexivity.
Defined.

(** X2.  A first answer whose status is none of [MFA_REQUIRED], [LOCKED_OUT]
    and [SUCCESS] (a password that has expired, say) fails the final
    assertion of [okta_auth]; the authentication request is the only request
    made. *)
Theorem unexpected_status_fails_assertion (HAS_FIDO2 : bool) (domain : string)
    (username password : json) (factor_priorities : gmap string Z)
    (totp_key : option string) (w : world) (resp : Response)
    (rest : list reply) (r st : json) :
  inbox w = Reply resp :: rest ->
  ok_status resp = true ->
  json_body resp = Some r ->
  getitem r "status" = Ok st ->
  is_str st "MFA_REQUIRED" = false ->
  is_str st "LOCKED_OUT" = false ->
  is_str st "SUCCESS" = false ->
  okta_auth HAS_FIDO2 domain username password factor_priorities totp_key w
  = (Raises AssertionError,
     answered (authn_request domain username password) (Reply resp) rest w).
Proof.
  intros Hin Hok Hjson Hst Hmfa Hlock Hsucc. unfold okta_auth. rewrite bind_eq.
  rewrite (post_json_Reply _ _ _ _ _ _ Hin Hok Hjson).
  rewrite bind_eq, lift_eq, Hst, Hmfa, bind_eq. cbn [ret].
  unfold session_token. rewrite bind_eq, lift_eq, Hst, Hlock, bind_eq, assert_eq, Hsucc.
  reflexivity.
Qed.

Lemma unexpected_status_fails_assertion_witness :
  let r := JObj [("status", JStr "PASSWORD_EXPIRED"); ("stateToken", JStr "00abc")] in
  let w := example_world [Reply (json_reply r)] [] in
  okta_auth true "example.okta.com" (JStr "alice") (JStr "secret")
    (main_factor_priorities None []) None w
  = (Raises AssertionError,
     answered (authn_request "example.okta.com" (JStr "alice") (JStr "secret"))
       (Reply (json_reply r)) [] w).
Proof.
  cbv zeta.
  apply (unexpected_status_fails_assertion true "example.okta.com" (JStr "alice")
           (JStr "secret") (main_factor_priorities None []) None
           (example_world
              [Reply (json_reply (JObj [("status", JStr "PASSWORD_EXPIRED");
                                        ("stateToken", JStr "00abc")]))] [])
           (json_reply (JObj [("status", JStr "PASSWORD_EXPIRED");
                              ("stateToken", JStr "00abc")])) []
           (JObj [("status", JStr "PASSWORD_EXPIRED"); ("stateToken", JStr "00abc")])
           (JStr "PASSWORD_EXPIRED"));
    reflexivity.
Defined.

(** ** Factors the script cannot use *)

(** A factor the loop of [okta_auth] passes over: its type is a string that
    is neither [push] nor [sms], is [webauthn] only when [fido2] is missing,
    and is not of the token family. *)
Definition unsupported (HAS_FIDO2 : bool) (f : json) : bool :=
  match getitem f "factorType" with
  | Ok (JStr s) =>
      negb (String.eqb s "push") && negb (String.eqb s "sms")
      && negb (String.eqb s "webauthn" && HAS_FIDO2)
      && match re_match_token (JStr s) with
         | Ok is_token => negb is_token
         | Err _ => false
         end
  | _ => false
  end.

Lemma unsupported_priority HAS_FIDO2 fp f :
  unsupported HAS_FIDO2 f = true -> exists p, priority fp f = Ok p.
Proof.
  unfold unsupported, priority. destruct (getitem f "factorType") as [[| | |s| |]|];
    try discriminate. intros _. cbn. eauto.
Qed.

Lemma try_factors_unsupported HAS_FIDO2 domain totp_key r w factors :
  Forall (fun f => unsupported HAS_FIDO2 f = true) factors ->
  try_factors HAS_FIDO2 domain totp_key factors (negb HAS_FIDO2) r w
  = (Raises (Exception "No supported authentication factors"), w).
Proof.
  induction 1 as [|f rest Hf _ IH]; [reflexivity|].
  unfold unsupported in Hf.
  destruct (getitem f "factorType") as [[| | |s| |]|] eqn:Hft; try discriminate.
  destruct (re_match_token (JStr s)) as [is_token|] eqn:Htok;
    [|rewrite andb_false_r in Hf; discriminate].
  apply andb_true_iff in Hf as [Hf Hnt]. apply andb_true_iff in Hf as [Hf Hweb].
  apply andb_true_iff in Hf as [Hpush Hsms].
  apply negb_true_iff in Hpush, Hsms, Hweb, Hnt. subst is_token.
  rewrite (try_factors_skip _ _ _ _ _ _ _ _ _ Hft); try assumption.
  cbn [is_str]. now rewrite negb_involutive.
Qed.

(** X3.  When multi-factor authentication is required and every offered
    factor is of a kind the script cannot use, [okta_auth] raises
    [Exception('No supported authentication factors')]: no factor is
    attempted, nothing is asked of the user, and the authentication request
    is the only request made. *)
Theorem no_supported_factor_raises (HAS_FIDO2 : bool) (domain : string)
    (username password : json) (factor_priorities : gmap string Z)
    (totp_key : option string) (w : world) (resp : Response)
    (rest : list reply) (r : json) (fs : list json) :
  inbox w = Reply resp :: rest ->
  ok_status resp = true ->
  json_body resp = Some r ->
  getitem r "status" = Ok (JStr "MFA_REQUIRED") ->
  getpath r ["_embedded"; "factors"] = Ok (JArr fs) ->
  forallb (unsupported HAS_FIDO2) fs = true ->
  okta_auth HAS_FIDO2 domain username password factor_priorities totp_key w
  = (Raises (Exception "No supported authentication factors"),
     answered (authn_request domain username password) (Reply resp) rest w).
Proof.
  intros Hin Hok Hjson Hst Hfs Hall. unfold okta_auth. rewrite bind_eq.
  rewrite (post_json_Reply _ _ _ _ _ _ Hin Hok Hjson).
  rewrite bind_eq, lift_eq, Hst. cbn [is_str].
  change (String.eqb "MFA_REQUIRED" "MFA_REQUIRED") with true. cbv iota.
  rewrite bind_eq.
  pose proof (proj1 (List.forallb_forall _ _) Hall) as Hall'. clear Hall. rename Hall' into Hall.
  destruct (sorted_factors_total factor_priorities fs) as [out Hout].
  { intros f Hf. eapply unsupported_priority, Hall, Hf. }
  rewrite (negotiate_sorted _ _ _ _ _ _ _ _ Hfs Hout).
  rewrite try_factors_unsupported; [reflexivity|].
  destruct (sorted_factors_spec _ _ _ Hout) as [Hperm _].
  apply List.Forall_forall. intros f Hf. apply Hall.
  eapply Permutation_in; eassumption.
Qed.

Definition question_only : json :=
  JObj [("status", JStr "MFA_REQUIRED"); ("stateToken", JStr "00abc");
        ("_embedded",
         JObj [("factors",
                JArr [JObj [("factorType", JStr "question")];
                      JObj [("factorType", JStr "webauthn")];
                      JObj [("factorType", JStr "tokens")]])])].

Lemma no_supported_factor_raises_witness :
  let w := example_world [Reply (json_reply question_only)] [] in
  okta_auth false "example.okta.com" (JStr "alice") (JStr "secret")
    (main_factor_priorities None []) None w
  = (Raises (Exception "No supported authentication factors"),
     answered (authn_request "example.okta.com" (JStr "alice") (JStr "secret"))
       (Reply (json_reply question_only)) [] w).
Proof.
  cbv zeta.
  apply (no_supported_factor_raises false "example.okta.com" (JStr "alice")
           (JStr "secret") (main_factor_priorities None []) None
           (example_world [Reply (json_reply question_only)] [])
           (json_reply question_only) [] question_only
           [JObj [("factorType", JStr "question")];
            JObj [("factorType", JStr "webauthn")];
            JObj [("factorType", JStr "tokens")]]);
    reflexivity.
Defined.

Lemma result_mapM_first_error {A B} (f : A -> result B) good bad rest e :
  Forall (fun x => exists y, f x = Ok y) good -> f bad = Err e ->
  result_mapM f (good ++ bad :: rest) = Err e.
Proof.
  intros Hgood Hbad. induction Hgood as [|x good [y Hy] _ IH]; cbn.
  - now rewrite Hbad.
  - now rewrite Hy, IH.
Qed.

(** X4.  The priorities of all offered factors are computed before the first
    factor is tried: a factor without a usable [factorType] anywhere in the
    list (the first such one decides the exception) ends [okta_auth] with
    that exception before any factor is attempted, however low it would
    have been ranked. *)
Theorem malformed_factor_aborts_negotiation (HAS_FIDO2 : bool) (domain : string)
    (username password : json) (factor_priorities : gmap string Z)
    (totp_key : option string) (w : world) (resp : Response)
    (rest : list reply) (r : json) (good : list json) (bad : json)
    (others : list json) (e : exn) :
  inbox w = Reply resp :: rest ->
  ok_status resp = true ->
  json_body resp = Some r ->
  getitem r "status" = Ok (JStr "MFA_REQUIRED") ->
  getpath r ["_embedded"; "factors"] = Ok (JArr (good ++ bad :: others)) ->
  Forall (fun f => exists p, priority factor_priorities f = Ok p) good ->
  getitem bad "factorType" = Err e ->
  okta_auth HAS_FIDO2 domain username password factor_priorities totp_key w
  = (Raises e, answered (authn_request domain username password) (Reply resp) rest w).
Proof.
  intros Hin Hok Hjson Hst Hfs Hgood Hbad. unfold okta_auth. rewrite bind_eq.
  rewrite (post_json_Reply _ _ _ _ _ _ Hin Hok Hjson).
  rewrite bind_eq, lift_eq, Hst. cbn [is_str].
  change (String.eqb "MFA_REQUIRED" "MFA_REQUIRED") with true. cbv iota.
  rewrite bind_eq. unfold negotiate.
  rewrite bind_eq, lift_eq, Hfs, bind_eq. cbn [iterate lift ret].
  rewrite bind_eq, lift_eq. unfold sorted_factors.
  rewrite (result_mapM_first_error _ _ _ _ e Hgood); [reflexivity|].
  unfold priority. now rewrite Hbad.
Qed.

Definition push_then_nameless : json :=
  JObj [("status", JStr "MFA_REQUIRED"); ("stateToken", JStr "00abc");
        ("_embedded",
         JObj [("factors",
                JArr [JObj [("factorType", JStr "push")];
                      JObj [("id", JStr "opf1")]])])].

Lemma malformed_factor_aborts_negotiation_witness :
  let w := example_world [Reply (json_reply push_then_nameless)] [] in
  okta_auth true "example.okta.com" (JStr "alice") (JStr "secret")
    (main_factor_priorities None []) None w
  = (Raises (KeyError "factorType"),
     answered (authn_request "example.okta.com" (JStr "alice") (JStr "secret"))
       (Reply (json_reply push_then_nameless)) [] w).
Proof.
  cbv zeta.
  apply (malformed_factor_aborts_negotiation true "example.okta.com" (JStr "alice")
           (JStr "secret") (main_factor_priorities None []) None
           (example_world [Reply (json_reply push_then_nameless)] [])
           (json_reply push_then_nameless) [] push_then_nameless
           [JObj [("factorType", JStr "push")]] (JObj [("id", JStr "opf1")]) []
           (KeyError "factorType")); try reflexivity.
  constructor; [|constructor]. eexists. reflexivity.
Defined.

(** ** Invariants of a negotiation

    A relation [R] between the world before and the world after, kept by
    every step of the script that only sends payloads [sendable] allows. *)

Section Frames.

Variable R : world -> world -> Prop.
Variable sendable : json -> Prop.

Hypothesis R_refl : forall w, R w w.
Hypothesis R_trans : forall w1 w2 w3, R w1 w2 -> R w2 w3 -> R w1 w3.

Definition within {A} (m : M A) : Prop := forall w, R w (m w).2.

Lemma within_bind {A B} (m : M A) (k : A -> M B) :
  within m -> (forall a, within (k a)) -> within (bind m k).
Proof.
  intros Hm Hk w. rewrite bind_eq. specialize (Hm w).
  destruct (m w) as [[a|e| |] w1]; cbn [snd] in *; try assumption.
  eapply R_trans; [exact Hm|apply Hk].
Qed.

Lemma within_ret {A} (a : A) : within (ret a).
Proof. intros w. apply R_refl. Qed.

Lemma within_raise {A} e : within (@raise A e).
Proof. intros w. apply R_refl. Qed.

Lemma within_lift {A} (x : result A) : within (lift x).
Proof. intros w. rewrite lift_eq. destruct x; apply R_refl. Qed.

Lemma within_assert c : within (assert c).
Proof. intros w. rewrite assert_eq. destruct c; apply R_refl. Qed.

Lemma within_oracle {A} (f : world -> result A) : within (fun w => lift (f w) w).
Proof. intros w. rewrite lift_eq. destruct (f w); apply R_refl. Qed.

Lemma within_except_KeyError {A} (body handler : M A) :
  within body -> within handler -> within (except_KeyError body handler).
Proof.
  intros Hb Hh w. unfold except_KeyError. specialize (Hb w).
  destruct (body w) as [[a|[]| |] w1]; cbn [snd] in *; try assumption.
  eapply R_trans; [exact Hb|apply Hh].
Qed.

Lemma within_while_true {S A} (body : S -> M (S + A)) :
  (forall s, within (body s)) -> forall budget s, within (while_true budget body s).
Proof.
  intros Hbody. induction budget as [|n IH]; intros s.
  - intros w. apply R_refl.
  - cbn [while_true]. apply within_bind; [apply Hbody|].
    intros [s'|a]; [apply IH|apply within_ret].
Qed.

Lemma within_while_consuming {S A} left (body : S -> M (S + A)) s :
  (forall s, within (body s)) -> within (while_consuming left body s).
Proof. intros Hbody w. unfold while_consuming. now apply within_while_true. Qed.

Hypothesis R_post_json : forall url data, sendable data -> within (post_json url data).
Hypothesis R_echo : forall text values, within (click_echo text values).
Hypothesis R_prompt : forall text values, within (click_prompt text values).

Hypothesis sendable_token : forall tok, sendable (JObj [("stateToken", tok)]).
Hypothesis sendable_code :
  forall tok code, sendable (JObj [("stateToken", tok); ("passCode", code)]).
Hypothesis sendable_assertion :
  forall a r payload, okta_verify_payload a r = Ok payload -> sendable payload.

Ltac step :=
  first
    [ apply within_ret | apply within_raise | apply within_lift | apply within_assert
    | apply R_echo | apply R_prompt
    | apply R_post_json; first [apply sendable_token|apply sendable_code]
    | (apply within_bind; [|intros ?]) ].

Lemma within_push_round url vars : within (push_round url vars).
Proof.
  destruct vars as [r ca]. unfold push_round.
  do 3 (apply within_bind; [step|intros ?]).
  destruct (negb _); [step|].
  do 2 (apply within_bind; [step|intros ?]).
  apply within_bind; [|intros ?; step].
  destruct (is_None ca); [|step].
  apply within_except_KeyError; repeat step.
Qed.

Lemma within_verify_push factor r : within (verify_push factor r).
Proof.
  unfold verify_push. apply within_bind; [step|intros url].
  apply within_while_consuming. intros vars. apply within_push_round.
Qed.

Lemma within_verify_sms factor r : within (verify_sms factor r).
Proof. unfold verify_sms. repeat step. Qed.

Lemma within_verify_token totp_key factor ft r : within (verify_token totp_key factor ft r).
Proof.
  unfold verify_token. apply within_bind; [step|intros url].
  apply within_bind; [|intros code; repeat step].
  destruct (is_str ft "token:software:totp"), totp_key as [key|]; repeat step.
  apply (within_oracle (fun w => totp_now w key)).
Qed.

Lemma within_bind_lift {A B} (x : result A) (k : A -> M B) :
  (forall a, x = Ok a -> within (k a)) -> within (bind (lift x) k).
Proof.
  intros H w. rewrite bind_eq, lift_eq. destruct x as [a|e]; [now apply H|apply R_refl].
Qed.

Lemma within_okta_verify dev domain tok : within (okta_verify dev domain tok).
Proof.
  unfold okta_verify. cbv zeta.
  apply within_bind; [step|intros r].
  apply within_bind; [step|intros st].
  apply within_bind; [step|intros _].
  apply within_bind; [step|intros ch].
  apply within_bind; [step|intros ch_bytes].
  apply within_bind; [step|intros fs].
  apply within_bind; [step|intros fl].
  apply within_bind; [step|intros creds].
  apply within_bind; [apply within_oracle|intros a].
  apply within_bind; [step|intros next_url].
  apply within_bind_lift. intros payload Hpayload.
  eapply R_post_json, sendable_assertion, Hpayload.
Qed.

Lemma within_session_token r : within (session_token r).
Proof.
  unfold session_token. apply within_bind; [step|intros st].
  destruct (is_str st "LOCKED_OUT"); repeat step.
Qed.

(** The loop over the factors once webauthn is out of the question. *)
Lemma within_try_factors_ignoring HAS_FIDO2 domain totp_key factors r :
  within (try_factors HAS_FIDO2 domain totp_key factors true r).
Proof.
  induction factors as [|factor rest IH]; cbn [try_factors]; [step|].
  apply within_bind; [step|intros ft].
  destruct (is_str ft "push"); [apply within_verify_push|].
  destruct (is_str ft "sms"); [apply within_verify_sms|].
  rewrite andb_false_r.
  apply within_bind; [step|intros [|]]; [apply within_verify_token|apply IH].
Qed.

Hypothesis R_confirm : forall text, within (click_confirm text).
Hypothesis R_next_device : within next_device.

Lemma within_get_device : within get_device.
Proof.
  unfold get_device. apply within_bind; [apply R_next_device|intros dev].
  apply within_while_consuming. intros [d|]; cbn [get_device_round]; [step|].
  apply within_bind; [step|intros _].
  apply within_bind; [apply R_confirm|intros [|]].
  - apply within_bind; [apply R_next_device|intros ?; step].
  - repeat step.
Qed.

Lemma within_try_factors HAS_FIDO2 domain totp_key factors :
  forall ignore_webauthn r,
    within (try_factors HAS_FIDO2 domain totp_key factors ignore_webauthn r).
Proof.
  induction factors as [|factor rest IH]; intros iw r; cbn [try_factors]; [step|].
  apply within_bind; [step|intros ft].
  destruct (is_str ft "push"); [apply within_verify_push|].
  destruct (is_str ft "sms"); [apply within_verify_sms|].
  destruct (is_str ft "webauthn" && negb iw).
  - apply within_bind; [step|intros _].
    apply within_bind; [apply within_get_device|intros [d|]]; [|apply IH].
    apply within_bind; [step|intros tok]. apply within_okta_verify.
  - apply within_bind; [step|intros [|]]; [apply within_verify_token|apply IH].
Qed.

(** What [okta_auth] does once it has the first answer [r]. *)
Definition after_first_answer (HAS_FIDO2 : bool) (domain : string)
    (factor_priorities : gmap string Z) (totp_key : option string) (r : json) : M json :=
  let* st := lift (getitem r "status") in
  let* r :=
    (if is_str st "MFA_REQUIRED"
     then negotiate HAS_FIDO2 domain factor_priorities totp_key r
     else ret r) in
  session_token r.

Lemma within_after_first_answer HAS_FIDO2 domain fp totp_key r :
  within (after_first_answer HAS_FIDO2 domain fp totp_key r).
Proof.
  unfold after_first_answer. apply within_bind; [step|intros st].
  apply within_bind; [|intros r'; apply within_session_token].
  destruct (is_str st "MFA_REQUIRED"); [|step]. unfold negotiate.
  do 3 (apply within_bind; [step|intros ?]). apply within_try_factors.
Qed.

Lemma within_after_first_answer_no_fido2 domain fp totp_key r :
  within (after_first_answer false domain fp totp_key r).
Proof.
  unfold after_first_answer. apply within_bind; [step|intros st].
  apply within_bind; [|intros r'; apply within_session_token].
  destruct (is_str st "MFA_REQUIRED"); [|step]. unfold negotiate.
  do 3 (apply within_bind; [step|intros ?]). apply within_try_factors_ignoring.
Qed.

End Frames.

Lemma okta_auth_eq HAS_FIDO2 domain username password fp totp_key :
  okta_auth HAS_FIDO2 domain username password fp totp_key
  = bind (post_json (JStr ("https://" ++ domain ++ "/api/v1/authn"))
            (JObj [("username", username); ("password", password)]))
      (after_first_answer HAS_FIDO2 domain fp totp_key).
Proof. reflexivity. Qed.

(** ** Where the credentials go *)

(** The JSON object [data] has a field [k]. *)
Definition names (k : string) (data : json) : bool :=
  match data with
  | JObj fields =>
      match assoc k fields with
      | Some _ => true
      | None => false
      end
  | _ => false
  end.

(** A payload of the negotiation: it carries a state token, and neither
    the user name nor the password. *)
Definition follow_up_payload (data : json) : Prop :=
  names "stateToken" data = true /\
  names "username" data = false /\ names "password" data = false.

Definition follow_up (req : request) : Prop :=
  match req with
  | POST _ (JsonBody data) => follow_up_payload data
  | _ => False
  end.

(** From [w] to [w'] only follow-up requests were made. *)
Definition followed_up (w w' : world) : Prop :=
  exists entries,
    transcript w' = transcript w ++ entries /\
    Forall (fun e => follow_up (fst e)) entries.

Lemma followed_up_refl w : followed_up w w.
Proof. exists []. now rewrite app_nil_r. Qed.

Lemma followed_up_trans w1 w2 w3 :
  followed_up w1 w2 -> followed_up w2 w3 -> followed_up w1 w3.
Proof.
  intros (e1 & H1 & F1) (e2 & H2 & F2). exists (e1 ++ e2).
  split; [rewrite H2, H1; symmetry; apply app_assoc|].
  apply Forall_app. now split.
Qed.

Lemma followed_up_silent w w' : transcript w' = transcript w -> followed_up w w'.
Proof. intros H. exists []. now rewrite app_nil_r. Qed.

Lemma followed_up_post_json url data :
  follow_up_payload data -> within followed_up (post_json url data).
Proof.
  intros Hdata w. destruct (post_json_spec url data w) as (o & -> & _).
  exists [(POST url (JsonBody data), head (inbox w))].
  split; [reflexivity|]. constructor; [exact Hdata|constructor].
Qed.

Lemma follow_up_assertion a r payload :
  okta_verify_payload a r = Ok payload -> follow_up_payload payload.
Proof.
  unfold okta_verify_payload.
  destruct (b64 (authenticatorData a)); [|discriminate].
  destruct (b64 (clientData a)); [|discriminate].
  destruct (b64 (signature a)); [|discriminate].
  destruct (getitem r "stateToken"); [|discriminate].
  intros [= <-]. now repeat split.
Qed.

Lemma followed_up_after_first_answer HAS_FIDO2 domain fp totp_key r :
  within followed_up (after_first_answer HAS_FIDO2 domain fp totp_key r).
Proof.
  apply (within_after_first_answer followed_up follow_up_payload
           followed_up_refl followed_up_trans followed_up_post_json).
  - intros text values w. now apply followed_up_silent.
  - intros text values w. apply followed_up_silent.
    unfold click_prompt. now destruct (ask_until_answered _ _ _) as [[o rest] co].
  - intros tok. now repeat split.
  - intros tok code. now repeat split.
  - apply follow_up_assertion.
  - intros text w. apply followed_up_silent.
    unfold click_confirm. now destruct (answers w).
  - intros w. apply followed_up_silent.
    unfold next_device. now destruct (plugged w).
Qed.

(** X5.  In every run of [okta_auth] the user name and the password are
    sent exactly once, in the first request, which goes to the [authn]
    endpoint of the domain; every later request is a POST of a JSON object
    that carries a state token and has neither a [username] nor a
    [password] field. *)
Theorem credentials_sent_once (HAS_FIDO2 : bool) (domain : string)
    (username password : json) (factor_priorities : gmap string Z)
    (totp_key : option string) (w : world) :
  exists later,
    transcript (okta_auth HAS_FIDO2 domain username password factor_priorities totp_key w).2
    = transcript w
      ++ (authn_request domain username password, head (inbox w)) :: later /\
    Forall (fun e => follow_up (fst e)) later.
Proof.
  rewrite okta_auth_eq, bind_eq.
  destruct (post_json_spec (JStr ("https://" ++ domain ++ "/api/v1/authn"))
              (JObj [("username", username); ("password", password)]) w)
    as (o & -> & _).
  set (w1 := set_http _ _ w).
  assert (Hw1 : transcript w1
                = transcript w ++ [(authn_request domain username password, head (inbox w))])
    by reflexivity.
  destruct o as [r|e| |]; cbn [snd];
    try (exists []; split; [exact Hw1|constructor]).
  destruct (followed_up_after_first_answer HAS_FIDO2 domain factor_priorities totp_key r w1)
    as (later & Htr & Hall).
  exists later. split; [|exact Hall].
  rewrite Htr, Hw1, <- app_assoc. reflexivity.
Qed.

(** ** When webauthn is asked about *)

(** The questions put to the user for confirmation so far. *)
Definition confirmations (co : list console_line) : list string :=
  omap (fun l => match l with Confirm text => Some text | _ => None end) co.

(** From [w] to [w'] no authenticator was looked for and nothing was asked
    for confirmation. *)
Definition webauthn_untouched (w w' : world) : Prop :=
  plugged w' = plugged w /\ answers w' = answers w /\
  confirmations (console w') = confirmations (console w).

Lemma confirmations_app co co' :
  confirmations (co ++ co') = confirmations co ++ confirmations co'.
Proof. apply omap_app. Qed.

Lemma webauthn_untouched_trans w1 w2 w3 :
  webauthn_untouched w1 w2 -> webauthn_untouched w2 w3 -> webauthn_untouched w1 w3.
Proof. intros (?&?&?) (?&?&?). repeat split; congruence. Qed.

Lemma webauthn_untouched_post_json url data :
  within webauthn_untouched (post_json url data).
Proof. intros w. destruct (post_json_spec url data w) as (o & -> & _). now repeat split. Qed.

Lemma webauthn_untouched_echo text values :
  within webauthn_untouched (click_echo text values).
Proof.
  intros w. repeat split. cbn. rewrite confirmations_app. cbn. apply app_nil_r.
Qed.

Lemma webauthn_untouched_prompt text values :
  within webauthn_untouched (click_prompt text values).
Proof.
  intros w. unfold click_prompt.
  assert (H : forall lines co,
             confirmations (ask_until_answered (Prompt text values) lines co).2
             = confirmations co).
  { induction lines as [|line rest IH]; intros co; cbn [ask_until_answered].
    - cbn [snd]. rewrite confirmations_app. apply app_nil_r.
    - destruct (String.eqb line "").
      + rewrite IH, confirmations_app. apply app_nil_r.
      + cbn [snd]. rewrite confirmations_app. apply app_nil_r. }
  specialize (H (typed w) (console w)).
  destruct (ask_until_answered _ _ _) as [[o rest] co]. now repeat split.
Qed.

(** X6.  Without the [fido2] library, [okta_auth] never looks for an
    authenticator and never asks whether to continue with webauthn, whatever
    factors are offered: the scans and the confirmation answers the world
    holds are left as they were, and no confirmation question is printed. *)
Theorem no_fido2_no_webauthn (domain : string) (username password : json)
    (factor_priorities : gmap string Z) (totp_key : option string) (w : world) :
  plugged (okta_auth false domain username password factor_priorities totp_key w).2
  = plugged w /\
  answers (okta_auth false domain username password factor_priorities totp_key w).2
  = answers w /\
  confirmations
    (console (okta_auth false domain username password factor_priorities totp_key w).2)
  = confirmations (console w).
Proof.
  rewrite okta_auth_eq.
  apply (within_bind webauthn_untouched webauthn_untouched_trans).
  - apply webauthn_untouched_post_json.
  - intros r.
    apply (within_after_first_answer_no_fido2 webauthn_untouched (fun _ => True));
      try (intros; exact I).
    + now repeat split.
    + apply webauthn_untouched_trans.
    + intros url data _. apply webauthn_untouched_post_json.
    + apply webauthn_untouched_echo.
    + apply webauthn_untouched_prompt.
Qed.

Lemma webauthn_untouched_refl w : webauthn_untouched w w.
Proof. now repeat split. Qed.

Ltac untouched lem :=
  first [ apply (lem webauthn_untouched (fun _ : json => True))
        | apply (lem webauthn_untouched) ];
  first [ exact webauthn_untouched_refl | exact webauthn_untouched_trans
        | (intros ? ? _; apply webauthn_untouched_post_json)
        | exact webauthn_untouched_echo | exact webauthn_untouched_prompt
        | (intros; exact I) ].

(** The refusals among the confirmation answers used. *)
Definition refusals (consumed : list bool) : nat := length (List.filter negb consumed).

(** From [w] to [w'] the user answered confirmations, at most [n] of them
    with a refusal. *)
Definition answered_with (n : nat) (w w' : world) : Prop :=
  exists consumed, answers w = consumed ++ answers w' /\ refusals consumed <= n.

Definition uses {A} (n : nat) (m : M A) : Prop := forall w, answered_with n w (m w).2.

Lemma answered_with_trans n k w1 w2 w3 :
  answered_with n w1 w2 -> answered_with k w2 w3 -> answered_with (n + k) w1 w3.
Proof.
  intros (c1 & H1 & N1) (c2 & H2 & N2). exists (c1 ++ c2).
  split; [rewrite H1, H2; apply app_assoc|].
  unfold refusals in *. rewrite List.filter_app, length_app. lia.
Qed.

Lemma uses_untouched {A} (m : M A) : within webauthn_untouched m -> uses 0 m.
Proof.
  intros H w. destruct (H w) as (_ & Hans & _). exists [].
  split; [now rewrite Hans|reflexivity].
Qed.

Lemma uses_weaken {A} n k (m : M A) : n <= k -> uses n m -> uses k m.
Proof. intros Hle H w. destruct (H w) as (c & Hc & Hn). exists c. split; [assumption|lia]. Qed.

Lemma uses_bind {A B} n k (m : M A) (f : A -> M B) :
  uses n m -> (forall a, uses k (f a)) -> uses (n + k) (bind m f).
Proof.
  intros Hm Hf w. rewrite bind_eq. specialize (Hm w).
  destruct (m w) as [[a|e| |] w1]; cbn [snd] in *;
    try (destruct Hm as (c & Hc & Hn); exists c; split; [assumption|lia]).
  eapply answered_with_trans; [exact Hm|apply Hf].
Qed.

(** The loop of [get_device] goes on as long as the user says yes and ends
    at the first refusal. *)
Lemma get_device_loop_uses budget :
  forall dev, uses 1 (while_true budget get_device_round dev).
Proof.
  induction budget as [|n IH]; intros dev w.
  - exists []. split; [reflexivity|cbn; lia].
  - cbn [while_true]. rewrite bind_eq. destruct dev as [d|].
    + exists []. split; [reflexivity|cbn; lia].
    + cbn [get_device_round]. rewrite bind_eq. cbn [click_echo]. rewrite bind_eq.
      unfold click_confirm. cbn [answers console typed set_terminal].
      destruct (answers w) as [|[|] others] eqn:Hans.
      * exists []. cbn. split; [now rewrite Hans|lia].
      * rewrite bind_eq. unfold next_device. cbn [plugged set_terminal].
        destruct (plugged w) as [|d pl]; cbn [ret];
          match goal with
          | |- answered_with _ _ (while_true n _ ?s ?w1).2 =>
              destruct (IH s w1) as (c & Hc & Hn); exists (true :: c);
              split; [rewrite Hans; cbn in Hc |- *; now rewrite <- Hc|exact Hn]
          end.
      * rewrite bind_eq. cbn. exists [false]. split; [now rewrite Hans|cbn; lia].
Qed.

Lemma get_device_uses : uses 1 get_device.
Proof.
  unfold get_device. apply (uses_bind 0 1).
  - intros w. unfold next_device.
    destruct (plugged w); exists []; (split; [reflexivity|cbn; lia]).
  - intros dev w. unfold while_consuming. apply get_device_loop_uses.
Qed.

Lemma try_factors_uses HAS_FIDO2 domain totp_key factors :
  forall ignore_webauthn r,
    uses 1 (try_factors HAS_FIDO2 domain totp_key factors ignore_webauthn r).
Proof.
  induction factors as [|factor rest IH]; intros iw r; cbn [try_factors].
  - apply (uses_weaken 0); [lia|]. apply uses_untouched. untouched within_raise.
  - apply (uses_bind 0 1); [apply uses_untouched; untouched within_lift|intros ft].
    destruct (is_str ft "push");
      [apply (uses_weaken 0); [lia|]; apply uses_untouched; untouched within_verify_push|].
    destruct (is_str ft "sms");
      [apply (uses_weaken 0); [lia|]; apply uses_untouched; untouched within_verify_sms|].
    destruct (is_str ft "webauthn" && negb iw).
    + apply (uses_bind 0 1); [apply uses_untouched; untouched within_assert|intros _].
      apply (uses_bind 1 0); [apply get_device_uses|intros [d|]].
      * apply (uses_bind 0 0); [apply uses_untouched; untouched within_lift|intros tok].
        apply uses_untouched. untouched within_okta_verify.
      * apply uses_untouched. untouched within_try_factors_ignoring.
    + apply (uses_bind 0 1); [apply uses_untouched; untouched within_lift|intros [|]].
      * apply (uses_weaken 0); [lia|]. apply uses_untouched. untouched within_verify_token.
      * apply IH.
Qed.

(** X7.  During one run of [okta_auth] the user refuses to continue with
    webauthn at most once: after a refusal the remaining webauthn factors
    are passed over without asking again, and no other step of the
    negotiation asks for a confirmation. *)
Theorem webauthn_refused_at_most_once (HAS_FIDO2 : bool) (domain : string)
    (username password : json) (factor_priorities : gmap string Z)
    (totp_key : option string) (w : world) :
  exists consumed,
    answers w
    = consumed
      ++ answers (okta_auth HAS_FIDO2 domain username password factor_priorities totp_key w).2 /\
    refusals consumed <= 1.
Proof.
  revert w. change (uses 1 (okta_auth HAS_FIDO2 domain username password factor_priorities totp_key)).
  rewrite okta_auth_eq.
  apply (uses_bind 0 1); [apply uses_untouched; intros w; apply webauthn_untouched_post_json|].
  intros r. unfold after_first_answer.
  apply (uses_bind 0 1); [apply uses_untouched; untouched within_lift|intros st].
  apply (uses_bind 1 0); [|intros r'; apply uses_untouched; untouched within_session_token].
  destruct (is_str st "MFA_REQUIRED");
    [|apply (uses_weaken 0); [lia|]; apply uses_untouched; untouched within_ret].
  unfold negotiate.
  do 3 (apply (uses_bind 0 1); [apply uses_untouched; untouched within_lift|intros ?]).
  apply try_factors_uses.
Qed.

(** ** One-time codes *)

(** X8.  With a TOTP key configured, a factor of type
    [token:software:totp] is answered without asking the user anything: the
    code comes from the generator, and the only thing done is one POST to
    the factor's verification address carrying the latest state token and
    that code. *)
Theorem totp_code_is_generated_not_asked (HAS_FIDO2 : bool) (domain key : string)
    (factor : json) (rest : list json) (ignore_webauthn : bool) (r : json)
    (w : world) (url tok : json) (code : string) :
  getitem factor "factorType" = Ok (JStr "token:software:totp") ->
  getpath factor ["_links"; "verify"; "href"] = Ok url ->
  getitem r "stateToken" = Ok tok ->
  totp_now w key = Ok code ->
  try_factors HAS_FIDO2 domain (Some key) (factor :: rest) ignore_webauthn r w
  = post_json url (JObj [("stateToken", tok); ("passCode", JStr code)]) w /\
  typed (try_factors HAS_FIDO2 domain (Some key) (factor :: rest) ignore_webauthn r w).2
  = typed w /\
  console (try_factors HAS_FIDO2 domain (Some key) (factor :: rest) ignore_webauthn r w).2
  = console w.
Proof.
  intros Hft Hurl Htok Hcode.
  assert (Heq : try_factors HAS_FIDO2 domain (Some key) (factor :: rest) ignore_webauthn r w
                = post_json url (JObj [("stateToken", tok); ("passCode", JStr code)]) w).
  { rewrite (try_factors_token _ _ _ _ _ _ _ _ _ Hft eq_refl).
    unfold verify_token. rewrite bind_eq, lift_eq, Hurl. cbn [is_str].
    change (String.eqb "token:software:totp" "token:software:totp") with true. cbv iota.
    rewrite bind_eq, bind_eq, lift_eq, Hcode. cbn [ret].
    now rewrite bind_eq, lift_eq, Htok. }
  split; [exact Heq|]. rewrite Heq.
  destruct (post_json_spec url (JObj [("stateToken", tok); ("passCode", JStr code)]) w)
    as (o & -> & _).
  now split.
Qed.

Definition totp_factor : json :=
  example_factor "token:software:totp" "https://example.okta.com/verify/totp".

Lemma totp_code_is_generated_not_asked_witness :
  let w := example_world [success_reply] ["000000"] in
  typed (try_factors true "example.okta.com" (Some "JBSWY3DPEHPK3PXP") [totp_factor]
           false (mfa_required "00tokenA" [totp_factor]) w).2
  = ["000000"].
Proof.
  cbv zeta.
  apply (totp_code_is_generated_not_asked true "example.okta.com" "JBSWY3DPEHPK3PXP"
           totp_factor [] false (mfa_required "00tokenA" [totp_factor])
           (example_world [success_reply] ["000000"])
           (JStr "https://example.okta.com/verify/totp")
           (JStr "00tokenA") "492039");
    reflexivity.
Defined.

(** ** Challenges that are not issued *)

(** X9.  For an [sms] factor the script first asks the provider to send the
    code.  When the answer to that request has any status but
    [MFA_CHALLENGE], the script fails its assertion there: the user is not
    asked for a code and no second request is made. *)
Theorem sms_needs_a_challenge (factor r : json) (w : world) (url tok : json)
    (resp : Response) (rest : list reply) (r1 st : json) :
  getpath factor ["_links"; "verify"; "href"] = Ok url ->
  getitem r "stateToken" = Ok tok ->
  inbox w = Reply resp :: rest ->
  ok_status resp = true ->
  json_body resp = Some r1 ->
  getitem r1 "status" = Ok st ->
  is_str st "MFA_CHALLENGE" = false ->
  verify_sms factor r w
  = (Raises AssertionError,
     answered (POST url (JsonBody (JObj [("stateToken", tok)]))) (Reply resp) rest w).
Proof.
  intros Hurl Htok Hin Hok Hjson Hst Hno. unfold verify_sms.
  rewrite bind_eq, lift_eq, Hurl, bind_eq, lift_eq, Htok, bind_eq.
  rewrite (post_json_Reply _ _ _ _ _ _ Hin Hok Hjson).
  now rewrite bind_eq, lift_eq, Hst, bind_eq, assert_eq, Hno.
Qed.

Definition sms_factor : json :=
  example_factor "sms" "https://example.okta.com/verify/sms".

Lemma sms_needs_a_challenge_witness :
  let w := example_world [success_reply] ["123456"] in
  verify_sms sms_factor (mfa_required "00tokenA" [sms_factor]) w
  = (Raises AssertionError,
     answered (POST (JStr "https://example.okta.com/verify/sms")
                 (JsonBody (JObj [("stateToken", JStr "00tokenA")])))
       success_reply [] w).
Proof.
  cbv zeta.
  apply (sms_needs_a_challenge sms_factor (mfa_required "00tokenA" [sms_factor])
           (example_world [success_reply] ["123456"])
           (JStr "https://example.okta.com/verify/sms") (JStr "00tokenA")
           (json_reply (JObj [("status", JStr "SUCCESS");
                              ("sessionToken", JStr "20111abc")])) []
           (JObj [("status", JStr "SUCCESS"); ("sessionToken", JStr "20111abc")])
           (JStr "SUCCESS"));
    reflexivity.
Defined.

(** X10.  [okta_verify] goes to the authenticator only with a challenge:
    when the answer to its first request has any status but
    [MFA_CHALLENGE], it fails its assertion, and that request, to the
    webauthn address of the domain, is the only one it makes. *)
Theorem webauthn_needs_a_challenge (dev : option device) (domain : string)
    (stateToken : json) (w : world) (resp : Response) (rest : list reply)
    (r st : json) :
  inbox w = Reply resp :: rest ->
  ok_status resp = true ->
  json_body resp = Some r ->
  getitem r "status" = Ok st ->
  is_str st "MFA_CHALLENGE" = false ->
  okta_verify dev domain stateToken w
  = (Raises AssertionError,
     answered (POST (JStr (WEBAUTHN_URL_TEMPLATE domain))
                 (JsonBody (JObj [("stateToken", stateToken)])))
       (Reply resp) rest w).
Proof.
  intros Hin Hok Hjson Hst Hno. unfold okta_verify. cbv zeta.
  rewrite bind_eq, (post_json_Reply _ _ _ _ _ _ Hin Hok Hjson).
  now rewrite bind_eq, lift_eq, Hst, bind_eq, assert_eq, Hno.
Qed.

Lemma webauthn_needs_a_challenge_witness :
  let w := example_world [success_reply] [] in
  okta_verify (Some 0) "example.okta.com" (JStr "00tokenA") w
  = (Raises AssertionError,
     answered (POST (JStr "https://example.okta.com/api/v1/authn/factors/webauthn/verify")
                 (JsonBody (JObj [("stateToken", JStr "00tokenA")])))
       success_reply [] w).
Proof.
  cbv zeta.
  apply (webauthn_needs_a_challenge (Some 0) "example.okta.com" (JStr "00tokenA")
           (example_world [success_reply] [])
           (json_reply (JObj [("status", JStr "SUCCESS");
                              ("sessionToken", JStr "20111abc")])) []
           (JObj [("status", JStr "SUCCESS"); ("sessionToken", JStr "20111abc")])
           (JStr "SUCCESS"));
    reflexivity.
Defined.

(** ** The number shown during a push *)

(** The answers to the number challenge shown on the terminal so far. *)
Definition shown_answers (co : list console_line) : list json :=
  omap (fun l =>
          match l with
          | Echo text [v] =>
              if String.eqb text "Correct 3-number answer is: {}" && negb (is_None v)
              then Some v else None
          | _ => None
          end) co.

Lemma shown_answers_echo co v :
  shown_answers (co ++ [Echo "Correct 3-number answer is: {}" [v]])
  = shown_answers co ++ (if is_None v then [] else [v]).
Proof.
  unfold shown_answers. rewrite omap_app. f_equal.
  destruct v; reflexivity.
Qed.

(** What one round of the push loop shows, by the [correct_answer] it
    starts with. *)
Lemma push_round_shows url r ca w :
  if is_None ca then
    (shown_answers (console (push_round url (r, ca) w).2) = shown_answers (console w) /\
     forall r' ca', (push_round url (r, ca) w).1 = Returns (inl (r', ca')) ->
                    is_None ca' = true) \/
    (exists v,
       shown_answers (console (push_round url (r, ca) w).2)
       = shown_answers (console w) ++ [v] /\
       forall r' ca', (push_round url (r, ca) w).1 = Returns (inl (r', ca')) ->
                      is_None ca' = false)
  else
    console (push_round url (r, ca) w).2 = console w /\
    forall r' ca', (push_round url (r, ca) w).1 = Returns (inl (r', ca')) -> ca' = ca.
Proof.
  assert (Hquiet : forall (o : outcome (json * json + json)) (w1 : world),
             console w1 = console w ->
             (forall r' ca', o = Returns (inl (r', ca')) -> ca' = ca) ->
             if is_None ca then
               (shown_answers (console (o, w1).2) = shown_answers (console w) /\
                forall r' ca', (o, w1).1 = Returns (inl (r', ca')) -> is_None ca' = true) \/
               (exists v,
                  shown_answers (console (o, w1).2) = shown_answers (console w) ++ [v] /\
                  forall r' ca', (o, w1).1 = Returns (inl (r', ca')) -> is_None ca' = false)
             else
               console (o, w1).2 = console w /\
               forall r' ca', (o, w1).1 = Returns (inl (r', ca')) -> ca' = ca).
  { intros o w1 Hco Hca. cbn [fst snd]. destruct (is_None ca) eqn:Hnone.
    - left. split; [now rewrite Hco|]. intros r' ca' H. now rewrite (Hca _ _ H).
    - now split. }
  unfold push_round. rewrite bind_eq, lift_eq.
  destruct (getitem r "stateToken") as [tok|e]; [|now apply Hquiet].
  rewrite bind_eq.
  destruct (post_json_spec url (JObj [("stateToken", tok)]) w) as (o & -> & _).
  set (w1 := set_http _ _ w).
  assert (Hw1 : console w1 = console w) by reflexivity.
  destruct o as [r1|e| |]; try (now apply Hquiet).
  rewrite bind_eq, lift_eq.
  destruct (getitem r1 "status") as [st|e]; [|now apply Hquiet].
  destruct (negb (is_str st "MFA_CHALLENGE")); [now apply Hquiet|].
  rewrite bind_eq, lift_eq.
  destruct (getitem r1 "factorResult") as [fr|e]; [|now apply Hquiet].
  rewrite bind_eq, assert_eq.
  destruct (is_str fr "WAITING"); [|now apply Hquiet].
  rewrite bind_eq.
  destruct (is_None ca) eqn:Hnone.
  - unfold except_KeyError. rewrite bind_eq, lift_eq.
    destruct (getpath r1 ["_embedded"; "factor"; "_embedded"; "challenge"; "correctAnswer"])
      as [v|e].
    + cbn [click_echo bind ret fst snd console set_terminal].
      rewrite shown_answers_echo, Hw1.
      destruct (is_None v) eqn:Hv.
      * left. split; [apply app_nil_r|]. now intros r' ca' [= _ <-].
      * right. exists v. split; [reflexivity|]. now intros r' ca' [= _ <-].
    + left. destruct e; cbn [ret fst snd]; (split; [now rewrite Hw1|]);
        try discriminate. now intros r' ca' [= _ <-].
  - cbn [ret fst snd]. split; [exact Hw1|]. now intros r' ca' [= _ <-].
Qed.

Lemma push_loop_shows url budget :
  forall r ca w,
    exists shown,
      shown_answers (console (while_true budget (push_round url) (r, ca) w).2)
      = shown_answers (console w) ++ shown /\
      length shown <= (if is_None ca then 1 else 0).
Proof.
  induction budget as [|n IH]; intros r ca w.
  - exists []. split; [now rewrite app_nil_r|destruct (is_None ca); cbn; lia].
  - cbn [while_true]. rewrite bind_eq.
    pose proof (push_round_shows url r ca w) as Hround.
    destruct (push_round url (r, ca) w) as [o w1]. cbn [fst snd] in Hround.
    assert (Hend : forall (o' : outcome json),
               exists shown,
                 shown_answers (console (o', w1).2) = shown_answers (console w) ++ shown /\
                 length shown <= (if is_None ca then 1 else 0)).
    { intros o'. cbn [snd]. destruct (is_None ca).
      - destruct Hround as [[Hco _]|(v & Hco & _)].
        + exists []. split; [now rewrite app_nil_r|cbn; lia].
        + exists [v]. split; [assumption|cbn; lia].
      - destruct Hround as [Hco _]. exists []. rewrite Hco.
        split; [now rewrite app_nil_r|cbn; lia]. }
    destruct o as [[[r' ca']|a]|e| |]; try apply Hend.
    destruct (IH r' ca' w1) as (shown & Hshown & Hlen). rewrite Hshown.
    destruct (is_None ca) eqn:Hnone.
    + destruct Hround as [[Hco Hca]|(v & Hco & Hca)];
        rewrite (Hca r' ca' eq_refl) in Hlen; rewrite Hco.
      * exists shown. split; [reflexivity|exact Hlen].
      * exists (v :: shown). rewrite <- app_assoc. split; [reflexivity|].
        destruct shown; cbn in *; lia.
    + destruct Hround as [Hco Hca]. rewrite (Hca r' ca' eq_refl), Hnone in Hlen.
      exists shown. rewrite Hco. split; [reflexivity|exact Hlen].
Qed.

(** X11.  While it polls for the outcome of a push, the script shows the
    answer to the number challenge at most once, however many polls it
    makes: once an answer (other than [None]) has been shown, later
    responses that carry it are not shown again. *)
Theorem push_answer_shown_at_most_once (factor r : json) (w : world) :
  exists shown,
    shown_answers (console (verify_push factor r w).2)
    = shown_answers (console w) ++ shown /\
    length shown <= 1.
Proof.
  unfold verify_push. rewrite bind_eq, lift_eq.
  destruct (getpath factor ["_links"; "verify"; "href"]) as [url|e].
  - unfold while_consuming. apply (push_loop_shows url _ r JNull).
  - exists []. split; [now rewrite app_nil_r|cbn; lia].
Qed.

(** ** Forms *)

Lemma assoc_dict_set k k' v d :
  assoc k (dict_set k' v d) = if String.eqb k k' then Some v else assoc k d.
Proof.
  induction d as [|[k0 v0] d IH]; cbn [dict_set assoc]; [reflexivity|].
  destruct (String.eqb k' k0) eqn:Hk'; cbn [assoc].
  - apply String.eqb_eq in Hk'. subst k0. now destruct (String.eqb k k').
  - destruct (String.eqb k k0) eqn:Hk.
    + apply String.eqb_eq in Hk. subst k0.
      now rewrite String.eqb_sym, Hk'.
    + exact IH.
Qed.

Lemma assoc_app {A} k (l1 l2 : list (string * A)) :
  assoc k (l1 ++ l2) = match assoc k l1 with Some v => Some v | None => assoc k l2 end.
Proof.
  induction l1 as [|[k0 v0] l1 IH]; cbn [assoc app]; [reflexivity|].
  now destruct (String.eqb k k0).
Qed.

(** The name and the value of an input element. *)
Definition names_value (inp : element) (p : string * string) : Prop :=
  lookup_attr "name" (attrib_of inp) = Ok (fst p) /\
  lookup_attr "value" (attrib_of inp) = Ok (snd p).

Lemma input_fields_lookup inputs :
  forall d fields,
    input_fields inputs d = Ok fields ->
    exists pairs,
      Forall2 names_value inputs pairs /\
      forall k, assoc k fields
                = match assoc k (rev pairs) with Some v => Some v | None => assoc k d end.
Proof.
  induction inputs as [|inp inputs IH]; intros d fields H; cbn [input_fields] in H.
  - injection H as <-. exists []. split; [constructor|reflexivity].
  - destruct (lookup_attr "name" (attrib_of inp)) as [name|] eqn:Hname; [|discriminate].
    destruct (lookup_attr "value" (attrib_of inp)) as [value|] eqn:Hvalue; [|discriminate].
    cbn [result_bind] in H. destruct (IH _ _ H) as (pairs & Hpairs & Hlook).
    exists ((name, value) :: pairs). split; [constructor; [now split|assumption]|].
    intros k. rewrite Hlook. cbn [rev]. rewrite assoc_app, assoc_dict_set. cbn [assoc].
    destruct (assoc k (rev pairs)); [reflexivity|]. now destruct (String.eqb k name).
Qed.

(** X12.  The dict that [extract_form] builds from the inputs of a form
    holds, for every name, the value of the last input with that name: a
    later input replaces an earlier one of the same name, and nothing else
    is added. *)
Theorem last_input_of_a_name_wins (inputs : list element)
    (fields : list (string * string)) :
  input_fields inputs [] = Ok fields ->
  exists pairs,
    Forall2 names_value inputs pairs /\
    forall k, assoc k fields = assoc k (rev pairs).
Proof.
  intros H. destruct (input_fields_lookup inputs [] fields H) as (pairs & Hpairs & Hlook).
  exists pairs. split; [assumption|]. intros k. rewrite Hlook.
  now destruct (assoc k (rev pairs)).
Qed.

Definition hidden_input (name value : string) : element :=
  Element "input" [("type", "hidden"); ("name", name); ("value", value)] None [].

Lemma last_input_of_a_name_wins_witness :
  exists pairs,
    Forall2 names_value
      [hidden_input "SAMLRequest" "old"; hidden_input "RelayState" "x";
       hidden_input "SAMLRequest" "new"] pairs /\
    forall k, assoc k [("SAMLRequest", "new"); ("RelayState", "x")] = assoc k (rev pairs).
Proof.
  apply (last_input_of_a_name_wins
           [hidden_input "SAMLRequest" "old"; hidden_input "RelayState" "x";
            hidden_input "SAMLRequest" "new"]
           [("SAMLRequest", "new"); ("RelayState", "x")]).
  reflexivity.
Defined.

Lemma input_fields_first_error inputs :
  forall good bad rest d name,
    inputs = good ++ bad :: rest ->
    Forall (fun inp => exists p, names_value inp p) good ->
    lookup_attr "name" (attrib_of bad) = Ok name ->
    assoc "value" (attrib_of bad) = None ->
    input_fields inputs d = Err (KeyError "value").
Proof.
  intros good bad rest d name -> Hgood Hname Hvalue. revert d.
  induction Hgood as [|inp good [[n v] [Hn Hv]] _ IH]; intros d; cbn [app input_fields].
  - rewrite Hname. cbn [result_bind]. unfold lookup_attr. now rewrite Hvalue.
  - cbn [fst snd] in *. rewrite Hn, Hv. cbn [result_bind]. apply IH.
Qed.

Section FormFacts.

Variable html_fromstring : list byte -> result element.

(** X13.  [extract_form] needs a [value] on every input that is a child of
    the form: the first input that has a name but no value (a text field
    without a default, say) makes it raise [KeyError('value')], whatever the
    other inputs hold. *)
Theorem input_without_value_fails_extraction (html : list byte) (doc form : element)
    (action : string) (good : list element) (bad : element) (rest : list element)
    (name : string) :
  html_fromstring html = Ok doc ->
  find_descendant "form" doc = Some form ->
  lookup_attr "action" (attrib_of form) = Ok action ->
  findall form "input" = good ++ bad :: rest ->
  Forall (fun inp => exists p, names_value inp p) good ->
  lookup_attr "name" (attrib_of bad) = Ok name ->
  assoc "value" (attrib_of bad) = None ->
  extract_form html_fromstring html = Err (KeyError "value").
Proof.
  intros Hdoc Hform Haction Hinputs Hgood Hname Hvalue. unfold extract_form.
  rewrite Hdoc. cbn [result_bind]. rewrite Hform, Haction. cbn [result_bind].
  now rewrite (input_fields_first_error _ _ _ _ _ _ Hinputs Hgood Hname Hvalue).
Qed.

End FormFacts.

Definition login_form : element :=
  Element "form" [("action", "https://example.okta.com/login")] None
    [hidden_input "RelayState" "x";
     Element "input" [("type", "text"); ("name", "user")] None []].

Lemma input_without_value_fails_extraction_witness :
  extract_form (fun _ => Ok (Element "html" [] None [Element "body" [] None [login_form]])) []
  = Err (KeyError "value").
Proof.
  apply (input_without_value_fails_extraction
           (fun _ => Ok (Element "html" [] None [Element "body" [] None [login_form]]))
           [] (Element "html" [] None [Element "body" [] None [login_form]]) login_form
           "https://example.okta.com/login"
           [hidden_input "RelayState" "x"]
           (Element "input" [("type", "text"); ("name", "user")] None []) []
           "user"); try reflexivity.
  constructor; [|constructor]. exists ("RelayState", "x"). now split.
Defined.

(** ** The SAML exchange, step by step *)

Section ExchangeFacts.

Variable HAS_FIDO2 : bool.
Variable xml_fromstring : list byte -> result element.
Variable html_fromstring : list byte -> result element.
Variable urlencode : list (string * string) -> string.
Variable netloc : string -> string.

Lemma send_spec req w :
  transcript (send req w).2 = transcript w ++ [(req, head (inbox w))].
Proof. unfold send. now destruct (inbox w) as [|[resp|e] rest]. Qed.

Lemma prelogin_transcript gateway w :
  transcript (prelogin xml_fromstring html_fromstring urlencode gateway w).2
  = transcript w ++ [(prelogin_request gateway, head (inbox w))].
Proof.
  unfold prelogin. rewrite bind_eq, bind_eq.
  pose proof (send_spec (POST (JStr ("https://" ++ gateway ++ "/ssl-vpn/prelogin.esp")) NoBody) w)
    as Hsend.
  destruct (send _ w) as [[resp|e| |] w1]; cbn [snd] in Hsend; try exact Hsend.
  unfold check. destruct (_ && _); [exact Hsend|]. cbn [ret].
  rewrite bind_eq, lift_eq.
  destruct (prelogin_form xml_fromstring html_fromstring resp) as [[url data]|e];
    [|exact Hsend].
  rewrite bind_eq, assert_eq. destruct (contains "SAMLRequest" data); exact Hsend.
Qed.

(** X14.  [prelogin] makes exactly one request, the POST to the gateway's
    prelogin page, however the gateway answers; and unless [prelogin]
    returns, the exchange of [main] ends there: no request goes to the
    identity provider, so the credentials are not sent anywhere. *)
Theorem nothing_is_sent_after_a_failed_prelogin (gateway : string)
    (username password : json) (factor_priorities : gmap string Z)
    (totp_key : option string) (w : world) :
  transcript (prelogin xml_fromstring html_fromstring urlencode gateway w).2
  = transcript w ++ [(prelogin_request gateway, head (inbox w))] /\
  ((forall url, (prelogin xml_fromstring html_fromstring urlencode gateway w).1
                <> Returns url) ->
   transcript (main_session HAS_FIDO2 xml_fromstring html_fromstring urlencode netloc
                 gateway username password factor_priorities totp_key w).2
   = transcript w ++ [(prelogin_request gateway, head (inbox w))]).
Proof.
  split; [apply prelogin_transcript|]. intros Hfail.
  unfold main_session. rewrite bind_eq.
  pose proof (prelogin_transcript gateway w) as Htr.
  destruct (prelogin xml_fromstring html_fromstring urlencode gateway w)
    as [[url|e| |] w1]; cbn [fst snd] in *; try exact Htr.
  now destruct (Hfail url).
Qed.

(** X15.  Once [okta_auth] has returned a session token, [okta_saml] hands
    the token to the [sessionCookieRedirect] page of the provider's domain,
    together with the SAML request address as [redirectUrl]; it returns the
    form found in the answer when that form has a [SAMLResponse] field and
    fails its assertion otherwise, and makes no further request. *)
Theorem session_token_goes_to_the_redirect (saml_req_url : string)
    (username password : json) (factor_priorities : gmap string Z)
    (totp_key : option string) (w : world) (first : Response) (rest : list reply)
    (token : json) (w2 : world) (resp : Response) (rest2 : list reply)
    (url : string) (data : list (string * string)) :
  inbox w = Reply first :: rest ->
  ok_status first = true ->
  okta_auth HAS_FIDO2 (netloc saml_req_url) username password factor_priorities totp_key
    (answered (GET (JStr saml_req_url) []) (Reply first) rest w)
  = (Returns token, w2) ->
  inbox w2 = Reply resp :: rest2 ->
  ok_status resp = true ->
  extract_form html_fromstring (content resp) = Ok (url, data) ->
  okta_saml HAS_FIDO2 html_fromstring netloc saml_req_url username password
    factor_priorities totp_key w
  = (if contains "SAMLResponse" data then Returns (url, data) else Raises AssertionError,
     answered
       (GET (JStr ("https://" ++ netloc saml_req_url ++ "/login/sessionCookieRedirect"))
          [("token", token); ("redirectUrl", JStr saml_req_url)])
       (Reply resp) rest2 w2).
Proof.
  intros Hin Hok Hauth Hin2 Hok2 Hform. unfold okta_saml. cbv zeta.
  rewrite bind_eq, bind_eq, (send_Reply _ _ _ _ Hin).
  unfold check at 1. unfold ok_status in Hok. apply negb_true_iff in Hok. rewrite Hok.
  cbn [ret]. rewrite bind_eq, Hauth.
  rewrite bind_eq, bind_eq, (send_Reply _ _ _ _ Hin2).
  unfold check. unfold ok_status in Hok2. apply negb_true_iff in Hok2. rewrite Hok2.
  cbn [ret]. rewrite bind_eq, lift_eq, Hform, bind_eq, assert_eq.
  now destruct (contains "SAMLResponse" data).
Qed.

(** X16.  When the first two steps have gone through, [main]'s exchange
    ends with one POST of the SAML response form, as extracted, to the
    form's action address, and returns the [saml-username] and
    [prelogin-cookie] headers of the answer; a missing header raises
    [KeyError] for it, the user name being looked up first. *)
Theorem exchange_ends_with_the_form_post (gateway : string)
    (username password : json) (factor_priorities : gmap string Z)
    (totp_key : option string) (w w1 w2 : world) (saml_req_url url : string)
    (data : list (string * string)) (resp : Response) (rest : list reply) :
  prelogin xml_fromstring html_fromstring urlencode gateway w
  = (Returns saml_req_url, w1) ->
  okta_saml HAS_FIDO2 html_fromstring netloc saml_req_url username password
    factor_priorities totp_key w1
  = (Returns (url, data), w2) ->
  inbox w2 = Reply resp :: rest ->
  ok_status resp = true ->
  main_session HAS_FIDO2 xml_fromstring html_fromstring urlencode netloc
    gateway username password factor_priorities totp_key w
  = (match lookup_attr "saml-username" (headers resp),
           lookup_attr "prelogin-cookie" (headers resp) with
     | Ok user, Ok cookie => Returns (user, cookie)
     | Err e, _ => Raises e
     | Ok _, Err e => Raises e
     end,
     answered (POST (JStr url) (FormBody data)) (Reply resp) rest w2).
Proof.
  intros Hpre Hsaml Hin Hok. unfold main_session.
  rewrite bind_eq, Hpre, bind_eq, Hsaml. unfold complete_saml.
  rewrite bind_eq, bind_eq, (send_Reply _ _ _ _ Hin).
  unfold check. unfold ok_status in Hok. apply negb_true_iff in Hok. rewrite Hok.
  cbn [ret]. rewrite bind_eq, lift_eq.
  destruct (lookup_attr "saml-username" (headers resp)) as [user|e]; [|reflexivity].
  rewrite bind_eq, lift_eq.
  now destruct (lookup_attr "prelogin-cookie" (headers resp)).
Qed.

End ExchangeFacts.

Definition unavailable : Response :=
  {| status_code := 503; headers := []; content := []; json_body := None |}.

Lemma nothing_is_sent_after_a_failed_prelogin_witness :
  let w := example_world [Reply unavailable; success_reply] [] in
  transcript
    (main_session true example_prelogin_xml example_prelogin_html (fun _ => "") (fun u => u)
       "vpn.example.com" (JStr "alice") (JStr "secret")
       (main_factor_priorities None []) None w).2
  = transcript w ++ [(prelogin_request "vpn.example.com", head (inbox w))].
Proof.
  cbv zeta.
  apply (proj2 (nothing_is_sent_after_a_failed_prelogin true example_prelogin_xml
                  example_prelogin_html (fun _ => "") (fun u => u)
                  "vpn.example.com" (JStr "alice") (JStr "secret")
                  (main_factor_priorities None []) None
                  (example_world [Reply unavailable; success_reply] []))).
  intros url. vm_compute. discriminate.
Defined.

(** A page with a form that holds both SAML fields. *)
Definition saml_page (_ : list byte) : result element :=
  Ok (Element "html" [] None
        [Element "body" [] None
           [Element "form" [("action", "https://vpn.example.com/SAML20/SP/ACS")] None
              [hidden_input "SAMLRequest" "cmVx"; hidden_input "SAMLResponse" "cmVzcA==";
               hidden_input "RelayState" "x"]]]).

Definition blank : Response :=
  {| status_code := 200; headers := []; content := []; json_body := None |}.

Definition okta_domain (_ : string) : string := "example.okta.com".

Lemma session_token_goes_to_the_redirect_witness :
  let w := example_world [Reply blank; success_reply; Reply blank] [] in
  (okta_saml true saml_page okta_domain "https://example.okta.com/app/sso?SAMLRequest=cmVx"
     (JStr "alice") (JStr "secret") (main_factor_priorities None []) None w).1
  = Returns ("https://vpn.example.com/SAML20/SP/ACS",
             [("SAMLRequest", "cmVx"); ("SAMLResponse", "cmVzcA=="); ("RelayState", "x")]).
Proof.
  cbv zeta.
  rewrite (session_token_goes_to_the_redirect true saml_page okta_domain
             "https://example.okta.com/app/sso?SAMLRequest=cmVx"
             (JStr "alice") (JStr "secret") (main_factor_priorities None []) None
             (example_world [Reply blank; success_reply; Reply blank] [])
             blank [success_reply; Reply blank] (JStr "20111abc")
             (answered (authn_request "example.okta.com" (JStr "alice") (JStr "secret"))
                success_reply [Reply blank]
                (answered (GET (JStr "https://example.okta.com/app/sso?SAMLRequest=cmVx") [])
                   (Reply blank) [success_reply; Reply blank]
                   (example_world [Reply blank; success_reply; Reply blank] [])))
             blank []
             "https://vpn.example.com/SAML20/SP/ACS"
             [("SAMLRequest", "cmVx"); ("SAMLResponse", "cmVzcA=="); ("RelayState", "x")]
             eq_refl eq_refl eq_refl eq_refl eq_refl eq_refl).
  reflexivity.
Defined.

Definition gateway_answer : Response :=
  {| status_code := 200;
     headers := [("saml-username", "alice"); ("prelogin-cookie", "c00kie")];
     content := []; json_body := None |}.

Definition exchange_world : world :=
  example_world [Reply blank; Reply blank; success_reply; Reply blank; Reply gateway_answer] [].

Lemma exchange_ends_with_the_form_post_witness :
  (main_session true example_prelogin_xml saml_page (fun _ => "q") okta_domain
     "vpn.example.com" (JStr "alice") (JStr "secret")
     (main_factor_priorities None []) None exchange_world).1
  = Returns ("alice", "c00kie").
Proof.
  pose proof (exchange_ends_with_the_form_post true example_prelogin_xml saml_page
                (fun _ => "q") okta_domain
                "vpn.example.com" (JStr "alice") (JStr "secret")
                (main_factor_priorities None []) None exchange_world
                (prelogin example_prelogin_xml saml_page (fun _ => "q")
                   "vpn.example.com" exchange_world).2
                (okta_saml true saml_page okta_domain
                   "https://vpn.example.com/SAML20/SP/ACS?q"
                   (JStr "alice") (JStr "secret") (main_factor_priorities None []) None
                   (prelogin example_prelogin_xml saml_page (fun _ => "q")
                      "vpn.example.com" exchange_world).2).2
                "https://vpn.example.com/SAML20/SP/ACS?q"
                "https://vpn.example.com/SAML20/SP/ACS"
                [("SAMLRequest", "cmVx"); ("SAMLResponse", "cmVzcA=="); ("RelayState", "x")]
                gateway_answer []
                eq_refl eq_refl eq_refl eq_refl) as H.
  rewrite H. reflexivity.
Defined.

(** ** The supervisor: how many signals reach the child *)

Module SupervisorBounds.
Import Supervisor SupervisorFacts.
Local Open Scope sup_scope.

(** A SIGTERM that has arrived and has not been dealt with yet. *)
Definition outstanding (s : state) : nat :=
  if bool_decide (SIGTERM ∈ pending s) then 1 else 0.

(** The SIGTERMs sent on to the child, and the one that may still be. *)
Definition tally (s : state) : nat := sigterms_received s + outstanding s.

(** [m] raises the tally by at most [n]. *)
Definition spends {A} (n : nat) (m : Sup A) : Prop :=
  forall s, tally (m s).2 <= tally s + n.

Lemma spends_weaken {A} n k (m : Sup A) : n <= k -> spends n m -> spends k m.
Proof. intros Hle H s. specialize (H s). lia. Qed.

Lemma spends_ret {A} (a : A) : spends 0 (ret a).
Proof. intros s. cbn. lia. Qed.

Lemma spends_bind {A B} n k (m : Sup A) (f : A -> Sup B) :
  spends n m -> (forall a, spends k (f a)) -> spends (n + k) (bind m f).
Proof.
  intros Hm Hf s. unfold bind. specialize (Hm s).
  destruct (m s) as [[a| |] s1]; cbn [snd] in *; try lia.
  specialize (Hf a s1). lia.
Qed.

Lemma spends_finally {A} n k (body : Sup A) (cleanup : Sup unit) :
  spends n body -> spends k cleanup -> spends (n + k) (finally body cleanup).
Proof.
  intros Hb Hc s. unfold finally. specialize (Hb s).
  destruct (body s) as [[a| |] s1]; cbn [snd] in *; try lia;
    specialize (Hc s1); destruct (cleanup s1) as [[[]| |] s2]; cbn [snd] in *; lia.
Qed.

Lemma spends_update_kid g :
  (forall c, sigterms (g c) = sigterms c) -> spends 0 (update_kid g).
Proof.
  intros Hg s. unfold tally, sigterms_received, outstanding. cbn.
  destruct (kid s) as [c|]; cbn; [rewrite Hg|]; lia.
Qed.

Lemma spends_dispatch : spends 1 dispatch.
Proof.
  intros s. unfold dispatch. destruct (handler_of s SIGTERM); cbn [snd]; try lia.
  - unfold tally, sigterms_received, outstanding. cbn. lia.
  - unfold terminate, update_kid, tally, sigterms_received, outstanding. cbn.
    destruct (kid s) as [c|]; cbn; [|lia]. destruct (alive c); cbn; lia.
Qed.

Lemma spends_check_signals : spends 0 check_signals.
Proof.
  intros s. unfold check_signals.
  destruct (bool_decide (SIGTERM ∈ pending s)) eqn:Hp; cbn [andb]; [|cbn; lia].
  destruct (bool_decide (SIGTERM ∉ sigmask s)); [|cbn; lia].
  match goal with |- tally (dispatch ?s0).2 <= _ =>
    pose proof (spends_dispatch s0) as H; assert (tally s0 + 1 = tally s); [|lia]
  end.
  unfold tally, sigterms_received, outstanding. cbn [kid pending]. rewrite Hp.
  rewrite bool_decide_eq_false_2 by set_solver. lia.
Qed.

Lemma spends_arrive : spends 1 arrive.
Proof.
  intros s. unfold arrive.
  match goal with |- tally (check_signals ?s1).2 <= _ =>
    pose proof (spends_check_signals s1) as H;
    assert (tally s1 <= tally s + 1)
  end; [|lia].
  unfold tally, outstanding, sigterms_received. cbn [kid pending].
  destruct (bool_decide (SIGTERM ∈ pending s ∪ {[SIGTERM]}));
    destruct (bool_decide (SIGTERM ∈ pending s)). all: lia.
Qed.

Lemma spends_pthread_sigmask h mask : spends 0 (pthread_sigmask h mask).
Proof.
  intros s. unfold pthread_sigmask.
  match goal with |- context [check_signals ?s1] =>
    pose proof (spends_check_signals s1) as H;
    destruct (check_signals s1) as [[[]| |] s2]
  end; cbn [snd] in *; exact H.
Qed.

Lemma spends_signal num h : spends 0 (signal num h).
Proof.
  intros s. unfold signal, tally, sigterms_received, outstanding.
  cbn [snd kid pending]. lia.
Qed.

Lemma spends_Popen preexec_fn : spends 0 (Popen preexec_fn).
Proof.
  intros s. unfold Popen, tally, sigterms_received, outstanding.
  cbn [snd kid pending sigterms]. lia.
Qed.

(** The SIGTERMs that arrive at point [i]. *)
Definition arrivals (pl : plan) (i : nat) : nat :=
  if happens (sigterm_at pl) i then 1 else 0.

Lemma spends_child_exits : spends 0 child_exits.
Proof. apply spends_update_kid. intros c. now destruct (alive c). Qed.

Lemma spends_close_stdin : spends 0 close_stdin.
Proof.
  intros s. unfold close_stdin.
  match goal with |- context [update_kid ?g s] =>
    pose proof (spends_update_kid g (fun c => eq_refl) s) as H;
    destruct (update_kid g s) as [f closed]
  end.
  cbn [snd] in H. now destruct (pipe_breaks s).
Qed.

Lemma spends_waitid : spends 0 waitid.
Proof.
  intros s. unfold waitid.
  destruct (alive <$> kid s) as [[| |]|]; try apply spends_child_exits.
  cbn [snd]. lia.
Qed.

Lemma spends_point pl i : spends (arrivals pl i) (point pl i).
Proof.
  unfold point, arrivals. apply (spends_bind 0).
  - destruct (happens _ _); [apply spends_child_exits|apply spends_ret].
  - intros _. destruct (happens _ _); [apply spends_arrive|apply spends_ret].
Qed.

Lemma spends_signal_mask {A} n k h mask before (body : gset signum -> Sup A) :
  spends k before -> (forall old, spends n (body old)) ->
  spends (n + k) (signal_mask h mask before body).
Proof.
  intros Hbefore Hbody. unfold signal_mask.
  apply (spends_bind 0); [apply spends_pthread_sigmask|intros old].
  apply spends_finally; [apply Hbody|].
  replace k with (k + (0 + 0)) by lia.
  apply spends_bind; [exact Hbefore|intros _].
  apply spends_bind; [apply spends_pthread_sigmask|intros _; apply spends_ret].
Qed.

Lemma spends_signal_handler {A} n k num h before (body : handler -> Sup A) :
  spends k before -> (forall old, spends n (body old)) ->
  spends (n + k) (signal_handler num h before body).
Proof.
  intros Hbefore Hbody. unfold signal_handler.
  apply (spends_bind 0); [apply spends_signal|intros old].
  apply spends_finally; [apply Hbody|].
  replace k with (k + (0 + 0)) by lia.
  apply spends_bind; [exact Hbefore|intros _].
  apply spends_bind; [apply spends_signal|intros _; apply spends_ret].
Qed.

Lemma spends_with_Popen {A} n k preexec_fn before (body : Sup A) :
  spends k before -> spends n body ->
  spends (n + k) (with_Popen preexec_fn before body).
Proof.
  intros Hbefore Hbody. unfold with_Popen.
  apply (spends_bind 0); [apply spends_Popen|intros _].
  apply spends_finally; [exact Hbody|].
  replace k with (k + (0 + 0)) by lia.
  apply spends_bind; [exact Hbefore|intros _]. unfold Popen_exit.
  apply (spends_finally 0 0); [apply spends_close_stdin|].
  apply spends_update_kid; reflexivity.
Qed.

Lemma spends_stdin_write pl : spends 0 (stdin_write pl).
Proof.
  unfold stdin_write. destruct (write_ok pl); [now apply spends_update_kid|].
  intros s. cbn. lia.
Qed.

(** The SIGTERMs that arrive during a run. *)
Definition arrived (pl : plan) : nat :=
  arrivals pl 1 + (arrivals pl 2 + (arrivals pl 3 + (arrivals pl 4
    + (0 + (arrivals pl 5 + (0 + (arrivals pl 6 + 0)))) + arrivals pl 7)
    + arrivals pl 8) + arrivals pl 9) + arrivals pl 10.

Lemma spends_main_supervise pl : spends (arrived pl) (main_supervise pl).
Proof.
  unfold main_supervise, popen_forward_sigterm, arrived.
  apply spends_signal_mask; [apply spends_point|intros old_mask].
  apply spends_bind; [apply spends_point|intros _].
  apply spends_with_Popen; [apply spends_point|].
  apply spends_bind; [apply spends_point|intros _].
  apply spends_signal_handler; [apply spends_point|intros _].
  apply spends_bind; [apply spends_point|intros _].
  apply spends_signal_mask; [apply spends_point|intros _].
  apply spends_bind; [apply spends_point|intros _].
  apply spends_bind; [apply spends_stdin_write|intros _].
  apply spends_bind; [apply spends_point|intros _].
  apply spends_bind; [apply spends_close_stdin|intros _].
  apply spends_bind; [apply spends_point|intros _].
  apply spends_waitid.
Qed.

Lemma arrived_at_most_once pl :
  arrived pl <= 1 /\ (sigterm_at pl = None -> arrived pl = 0).
Proof.
  unfold arrived, arrivals. destruct (sigterm_at pl) as [k|]; cbn [happens].
  - split; [|discriminate].
    do 11 (destruct k as [|k]; [cbn; lia|]). cbn. lia.
  - split; [cbn; lia|reflexivity].
Qed.

(** X17.  In no run does the supervisor send the child more SIGTERMs than
    it received itself: at most one when a SIGTERM arrives, whatever the
    point at which it arrives, the mask and the handlers the supervisor
    started with, and the way the child and the write end; and none when
    no SIGTERM arrives. *)
Theorem child_is_never_signalled_twice (pl : plan) (mask : gset signum)
    (hs : gmap signum handler) :
  sigterms_received (main_supervise pl (initial mask hs)).2 <= 1 /\
  (sigterm_at pl = None ->
   sigterms_received (main_supervise pl (initial mask hs)).2 = 0).
Proof.
  pose proof (spends_main_supervise pl (initial mask hs)) as H.
  destruct (arrived_at_most_once pl) as [Hle Hnone].
  assert (H0 : tally (initial mask hs) = 0) by reflexivity.
  unfold tally at 1 in H. split; [lia|].
  intros Hno. specialize (Hnone Hno). lia.
Qed.

Lemma child_is_never_signalled_twice_witness :
  sigterms_received
    (main_supervise {| sigterm_at := None; child_exit_at := Some 5; write_ok := false |}
       (initial {[SIGTERM]} ∅)).2 = 0.
Proof.
  apply (proj2 (child_is_never_signalled_twice
                  {| sigterm_at := None; child_exit_at := Some 5; write_ok := false |}
                  {[SIGTERM]} ∅)).
  reflexivity.
Defined.

(** ** The two context managers by themselves *)



(** X19.  [signal_handler] puts the handler back that was installed for the
    signal when it was entered, whatever its body installs and whether the
    body returns or raises, unless the process is killed meanwhile. *)
Theorem signal_handler_restores_the_handler {A : Type} (num : signum) (h : handler)
    (body : handler -> Sup A) (s : state) :
  (signal_handler num h (ret tt) body s).1 <> Killed ->
  handler_of (signal_handler num h (ret tt) body s).2 num = handler_of s num.
Proof.
  destruct (signal_handler num h (ret tt) body s) as [f s'] eqn:Hrun. cbn [fst snd].
  intros Halive. unfold signal_handler, bind, finally in Hrun.
  unfold signal at 1 in Hrun. cbn [ret] in Hrun.
  match type of Hrun with
  | context [body ?old ?s1] => destruct (body old s1) as [[a| |] s2]
  end; [| |injection Hrun as <- <-; now destruct Halive];
    unfold signal in Hrun; injection Hrun as <- <-;
    unfold handler_of at 1; cbn [handlers]; now rewrite lookup_insert_eq.
Qed.

Lemma signal_handler_restores_the_handler_witness :
  handler_of (signal_handler SIGTERM Forward (ret tt)
                (fun _ => signal SIGTERM SIG_IGN) (initial ∅ {[SIGTERM := Callable 7]})).2
    SIGTERM
  = Callable 7.
Proof.
  rewrite (signal_handler_restores_the_handler SIGTERM Forward
             (fun _ => signal SIGTERM SIG_IGN) (initial ∅ {[SIGTERM := Callable 7]})).
  - vm_compute. reflexivity.
  - vm_compute. discriminate.
Defined.

End SupervisorBounds.

(** ** The settings of [main] *)

Module MainFacts.
Import Main.

Lemma assoc_dict_put {A} k k' (v : A) d :
  assoc k (dict_put k' v d) = if String.eqb k k' then Some v else assoc k d.
Proof.
  induction d as [|[k0 v0] d IH]; cbn [dict_put assoc]; [reflexivity|].
  destruct (String.eqb k' k0) eqn:Hk'; cbn [assoc].
  - apply String.eqb_eq in Hk'. subst k0. now destruct (String.eqb k k').
  - destruct (String.eqb k k0) eqn:Hk.
    + apply String.eqb_eq in Hk. subst k0. now rewrite String.eqb_sym, Hk'.
    + exact IH.
Qed.

Lemma assoc_map_Some k (d : list (string * string)) :
  assoc k (map (fun kv => (fst kv, Some (snd kv))) d) = Some <$> assoc k d.
Proof.
  induction d as [|[k0 v0] d IH]; cbn [map assoc fst snd]; [reflexivity|].
  now destruct (String.eqb k k0).
Qed.

Section Settings.

Variable repr : json -> string.
Variable interpolate_some :
  string -> string -> string -> list (string * option string) -> result string.
Variable int : string -> result Z.
Variable shlex_split : string -> result (list string).
Variable subprocess_run : list string -> result CompletedProcess.
Variable splitlines : string -> list string.
Variable pyotp : bool.

(** What [vars] gives for the option [k]: the value of the last entry whose
    transformed name is [k], among those [keep] lets through. *)
Definition given (k : string) (keep : string * json -> bool)
    (vars : list (string * json)) : option (option string) :=
  foldl (fun acc kv =>
           if String.eqb k (optionxform (fst kv)) && keep kv
           then Some (if is_None (snd kv) then None else Some (str repr (snd kv)))
           else acc)
        None vars.

Lemma assoc_vardict_from k vars :
  forall d,
    assoc k (foldl (fun d kv =>
                      dict_put (optionxform (fst kv))
                        (if is_None (snd kv) then None else Some (str repr (snd kv))) d)
                   d vars)
    = foldl (fun acc kv =>
               if String.eqb k (optionxform (fst kv)) && true
               then Some (if is_None (snd kv) then None else Some (str repr (snd kv)))
               else acc)
            (assoc k d) vars.
Proof.
  induction vars as [|kv vars IH]; intros d; cbn [foldl]; [reflexivity|].
  rewrite IH, assoc_dict_put, andb_true_r. reflexivity.
Qed.

Lemma given_filter k keep vars :
  forall acc,
    foldl (fun acc kv =>
             if String.eqb k (optionxform (fst kv)) && true
             then Some (if is_None (snd kv) then None else Some (str repr (snd kv)))
             else acc)
          acc (List.filter keep vars)
    = foldl (fun acc kv =>
               if String.eqb k (optionxform (fst kv)) && keep kv
               then Some (if is_None (snd kv) then None else Some (str repr (snd kv)))
               else acc)
            acc vars.
Proof.
  induction vars as [|kv vars IH]; intros acc; cbn [List.filter foldl]; [reflexivity|].
  destruct (keep kv); cbn [foldl]; rewrite IH; [reflexivity|].
  now rewrite andb_false_r.
Qed.

(** The command line's entry for an option, as [conf.get] sees it. *)
Lemma assoc_vardict_args k c :
  assoc k (vardict repr (main_args c))
  = given k (fun kv => negb (is_None (snd kv))) (main_locals c).
Proof.
  unfold vardict, main_args, given. rewrite assoc_vardict_from. apply given_filter.
Qed.

(** [conf.get] by where the option is found. *)
Lemma conf_get_spec conf opt c fallback :
  conf_get repr interpolate_some conf "common" opt (main_args c) fallback
  = match assoc "common" (conf_sections conf) with
    | None => Ok fallback
    | Some sectiondict =>
        match given (optionxform opt) (fun kv => negb (is_None (snd kv))) (main_locals c) with
        | Some None => Ok JNull
        | Some (Some value) =>
            result_bind
              (before_get interpolate_some "common" (optionxform opt) value
                 (vardict repr (main_args c)
                  ++ map (fun kv => (fst kv, Some (snd kv))) sectiondict
                  ++ map (fun kv => (fst kv, Some (snd kv))) (conf_defaults conf)))
              (fun text => Ok (JStr text))
        | None =>
            match assoc (optionxform opt) sectiondict,
                  assoc (optionxform opt) (conf_defaults conf) with
            | Some value, _ | None, Some value =>
                result_bind
                  (before_get interpolate_some "common" (optionxform opt) value
                     (vardict repr (main_args c)
                      ++ map (fun kv => (fst kv, Some (snd kv))) sectiondict
                      ++ map (fun kv => (fst kv, Some (snd kv))) (conf_defaults conf)))
                  (fun text => Ok (JStr text))
            | None, None => Ok fallback
            end
        end
    end.
Proof.
  unfold conf_get. destruct (assoc "common" (conf_sections conf)) as [sd|]; [|reflexivity].
  cbv zeta. rewrite !assoc_app, !assoc_map_Some, assoc_vardict_args.
  destruct (given _ _ _) as [[value|]|]; try reflexivity.
  destruct (assoc (optionxform opt) sd); [reflexivity|].
  now destruct (assoc (optionxform opt) (conf_defaults conf)).
Qed.

(** The steps of [main_settings], one by one. *)
Lemma main_settings_steps c conf st :
  main_settings repr interpolate_some int shlex_split c conf = Ok st ->
  conf_get repr interpolate_some conf "common" "gateway" (main_args c)
    (py_opt (cli_gateway c)) = Ok (gateway st) /\
  conf_get repr interpolate_some conf "common" "username" (main_args c)
    (py_opt (cli_username c)) = Ok (username st) /\
  conf_get repr interpolate_some conf "common" "password" (main_args c)
    (py_opt (cli_password c)) = Ok (password st) /\
  conf_get repr interpolate_some conf "common" "password-cmd" (main_args c)
    (py_opt (cli_password_cmd c)) = Ok (password_cmd st) /\
  conf_get repr interpolate_some conf "common" "totp-key" (main_args c)
    (py_opt (cli_totp_key c)) = Ok (totp_key st) /\
  conf_get repr interpolate_some conf "common" "totp-key-cmd" (main_args c)
    (totp_key st) = Ok (totp_key_cmd st) /\
  conf_get repr interpolate_some conf "common" "sudo" (main_args c)
    (JBool (match cli_sudo c with None => false | Some b => b end)) = Ok (sudo st) /\
  with_configured_priorities interpolate_some int conf (cli_factor_priorities c)
  = Ok (factor_priorities st).
Proof.
  unfold main_settings. cbv zeta.
  destruct (conf_get _ _ conf "common" "gateway" _ _) as [g|]; [|discriminate].
  cbn [result_bind].
  destruct (conf_get _ _ conf "common" "openconnect-args" _ _) as [more|]; [|discriminate].
  cbn [result_bind].
  destruct (shlex_split_value shlex_split more) as [more_args|]; [|discriminate].
  cbn [result_bind].
  destruct (conf_get _ _ conf "common" "username" _ _) as [u|]; [|discriminate].
  cbn [result_bind].
  destruct (conf_get _ _ conf "common" "password" _ _) as [p|]; [|discriminate].
  cbn [result_bind].
  destruct (conf_get _ _ conf "common" "password-cmd" _ _) as [pc|]; [|discriminate].
  cbn [result_bind].
  destruct (conf_get _ _ conf "common" "totp-key" _ _) as [tk|]; [|discriminate].
  cbn [result_bind].
  destruct (conf_get _ _ conf "common" "totp-key-cmd" _ _) as [tkc|] eqn:Htkc;
    [|discriminate].
  cbn [result_bind].
  destruct (conf_get _ _ conf "common" "sudo" _ _) as [sd|]; [|discriminate].
  cbn [result_bind].
  destruct (with_configured_priorities _ _ conf _) as [fps|]; [|discriminate].
  cbn [result_bind]. intros [= <-]. cbn. repeat split; assumption.
Qed.

(** What [main_prepare] leaves as it found it, when it returns. *)
Lemma main_prepare_returns st w st' w' :
  main_prepare shlex_split subprocess_run splitlines pyotp st w = (Returns st', w') ->
  gateway st' = gateway st /\
  (is_None (username st) = false -> username st' = username st) /\
  (is_None (password_cmd st) = true -> is_None (password st) = false ->
   password st' = password st).
Proof.
  unfold main_prepare. rewrite bind_eq.
  destruct ((if negb (is_None (totp_key_cmd st))
             then run_cmd shlex_split subprocess_run splitlines (totp_key_cmd st) "TOTP"
             else ret (totp_key st)) w) as [[tk|e| |] w1]; try discriminate.
  destruct (negb (is_None tk) && negb pyotp); [discriminate|].
  destruct (is_None (gateway st)); [discriminate|].
  rewrite bind_eq.
  destruct ((if is_None (username st) then click_prompt "Username" []
             else ret (username st)) w1) as [[u|e| |] w2] eqn:Hu; try discriminate.
  rewrite bind_eq.
  destruct ((if negb (is_None (password_cmd st))
             then run_cmd shlex_split subprocess_run splitlines (password_cmd st) "Password"
             else ret (password st)) w2) as [[p|e| |] w3] eqn:Hp; try discriminate.
  rewrite bind_eq.
  destruct ((if is_None p then click_prompt "Password" [] else ret p) w3)
    as [[p'|e| |] w4] eqn:Hp'; try discriminate.
  intros [= <- <-]. cbn [gateway username password]. split; [reflexivity|]. split.
  - intros Hsome. rewrite Hsome in Hu. now injection Hu as <- _.
  - intros Hcmd Hsome. rewrite Hcmd in Hp. cbn [negb] in Hp. injection Hp as <- _.
    rewrite Hsome in Hp'. now injection Hp' as <- _.
Qed.

(** X20.  A gateway or a user name given on the command line is the one
    [main] goes on with after its preparations, whatever the configuration
    file holds for it, provided it has no [%] in it (with a [common] section
    in the file the value goes through the parser's interpolation).  The
    same holds for a password given on the command line when no password
    command is configured; a password command, when there is one, decides
    the password instead. *)
Theorem command_line_beats_config_file (c : options) (conf : ConfigParser)
    (st : settings) (w : world) (st' : settings) (w' : world) :
  main_settings repr interpolate_some int shlex_split c conf = Ok st ->
  main_prepare shlex_split subprocess_run splitlines pyotp st w = (Returns st', w') ->
  (forall v, cli_gateway c = Some v -> has_percent v = false -> gateway st' = JStr v) /\
  (forall v, cli_username c = Some v -> has_percent v = false -> username st' = JStr v) /\
  (forall v, cli_password c = Some v -> has_percent v = false ->
             is_None (password_cmd st) = true -> password st' = JStr v).
Proof.
  intros Hst Hrun.
  destruct (main_prepare_returns st w st' w' Hrun) as (Hg' & Hu' & Hp').
  assert (Hset :
    (forall v, cli_gateway c = Some v -> has_percent v = false -> gateway st = JStr v) /\
    (forall v, cli_username c = Some v -> has_percent v = false -> username st = JStr v) /\
    (forall v, cli_password c = Some v -> has_percent v = false -> password st = JStr v)).
  { destruct (main_settings_steps c conf st Hst) as (Hg & Hu & Hp & _).
    rewrite conf_get_spec in Hg, Hu, Hp.
    repeat split; intros v Hv Hpc;
      [clear Hu Hp; rename Hg into H|clear Hg Hp; rename Hu into H
      |clear Hg Hu; rename Hp into H];
      (destruct (assoc "common" (conf_sections conf)) as [sd|];
       [|rewrite Hv in H; now injection H as <-]);
      unfold given, main_locals in H; cbn [foldl fst snd optionxform] in H;
      rewrite Hv in H; cbn in H; unfold before_get in H; rewrite Hpc in H;
      cbn in H; now injection H as <-. }
  destruct Hset as (Hg & Hu & Hp). repeat split; intros v Hv Hpc.
  - rewrite Hg'. now apply Hg.
  - rewrite Hu'; [now apply Hu|]. now rewrite (Hu v Hv Hpc).
  - intros Hcmd. rewrite Hp'; [now apply Hp|exact Hcmd|]. now rewrite (Hp v Hv Hpc).
Qed.

(** The option is set neither in the [common] section nor in the defaults
    of the configuration file. *)
Definition not_configured (conf : ConfigParser) (opt : string) : Prop :=
  forall sectiondict,
    assoc "common" (conf_sections conf) = Some sectiondict ->
    assoc opt sectiondict = None /\ assoc opt (conf_defaults conf) = None.

(** X21.  When no TOTP command is given, on the command line or in the
    configuration file, [main] takes the TOTP key for the command: the two
    settings are equal, so that a configured key is split into words and run
    as a program, and [main] ends with the exception of [subprocess.run]
    when no such program can be started. *)
Theorem totp_key_is_taken_for_the_command (c : options) (conf : ConfigParser)
    (st : settings) :
  main_settings repr interpolate_some int shlex_split c conf = Ok st ->
  cli_totp_key_cmd c = None ->
  not_configured conf "totp-key-cmd" ->
  totp_key_cmd st = totp_key st /\
  forall key argv e w,
    totp_key st = JStr key ->
    shlex_split key = Ok argv ->
    subprocess_run argv = Err e ->
    main_prepare shlex_split subprocess_run splitlines pyotp st w = (Raises e, w).
Proof.
  intros Hst Hcli Hconf.
  destruct (main_settings_steps c conf st Hst) as (_ & _ & _ & _ & _ & Hcmd & _).
  rewrite conf_get_spec in Hcmd.
  assert (Heq : totp_key_cmd st = totp_key st).
  { destruct (assoc "common" (conf_sections conf)) as [sd|] eqn:Hsd;
      [|now injection Hcmd as <-].
    destruct (Hconf sd Hsd) as [Hsec Hdef].
    unfold given, main_locals in Hcmd. cbn [foldl fst snd optionxform] in Hcmd.
    rewrite Hcli in Hcmd. cbn in Hcmd. 
    change (optionxform "totp-key-cmd") with "totp-key-cmd"%string in Hcmd.
    rewrite Hsec, Hdef in Hcmd. now injection Hcmd as <-. }
  split; [exact Heq|].
  intros key argv e w Hkey Hsplit Hrun. unfold main_prepare.
  rewrite Heq, Hkey. cbn [is_None negb]. rewrite bind_eq.
  unfold run_cmd. rewrite bind_eq, lift_eq. cbn [shlex_split_value]. rewrite Hsplit.
  now rewrite bind_eq, lift_eq, Hrun.
Qed.

(** X22.  With a [common] section in the configuration file, [--sudo] and
    [--no-sudo] alike leave [main] with a non-empty string for [sudo]
    (['True'] or ['False'], the option's value as the parser's [vars] hold
    it), which counts as true: the VPN client is started through [sudo] in
    both cases.  Without the section the option's own value is used. *)
Theorem sudo_option_with_a_common_section (c : options) (conf : ConfigParser)
    (st : settings) (b : bool) :
  main_settings repr interpolate_some int shlex_split c conf = Ok st ->
  cli_sudo c = Some b ->
  if has_section conf "common" then
    sudo st = JStr (if b then "True" else "False") /\
    forall gateway saml_username,
      head (subprocess_args gateway saml_username (openconnect_args st) (sudo st))
      = Some "sudo"%string
  else sudo st = JBool b.
Proof.
  intros Hst Hcli.
  destruct (main_settings_steps c conf st Hst) as (_ & _ & _ & _ & _ & _ & Hsudo & _).
  rewrite conf_get_spec in Hsudo. unfold has_section.
  destruct (assoc "common" (conf_sections conf)) as [sd|].
  - unfold given, main_locals in Hsudo. cbn [foldl fst snd optionxform] in Hsudo.
    rewrite Hcli in Hsudo. cbn in Hsudo.
    assert (Hs : sudo st = JStr (if b then "True" else "False")).
    { destruct b; cbn in Hsudo; now injection Hsudo as <-. }
    split; [exact Hs|]. intros g u. unfold subprocess_args. rewrite Hs.
    now destruct b.
  - rewrite Hcli in Hsudo. now injection Hsudo as <-.
Qed.

(** A prompt passes over empty answers and returns the first answer that is
    not empty, having put its question once more for each empty one. *)
Lemma ask_until_answered_skips question line rest blanks :
  line <> ""%string ->
  forall co,
    ask_until_answered question (repeat ""%string blanks ++ line :: rest) co
    = (Returns (JStr line), rest, co ++ repeat question (S blanks)).
Proof.
  intros Hline. apply String.eqb_neq in Hline.
  induction blanks as [|n IH]; intros co; cbn [repeat app ask_until_answered].
  - now rewrite Hline.
  - change (String.eqb "" "") with true. cbv iota. rewrite IH, <- app_assoc. reflexivity.
Qed.

(** X23.  When a password command is configured and fails (a return
    status other than 0), [main] asks the user for the password, whether or
    not a password was configured as well: the password it goes on with is
    the first line typed at the prompt that is not empty. *)
Theorem failed_password_command_asks_the_user (st : settings) (w : world)
    (cmd : string) (argv : list string) (out : CompletedProcess)
    (blanks : nat) (line : string) (rest : list string) :
  is_None (totp_key_cmd st) = true ->
  is_None (totp_key st) = true ->
  is_None (gateway st) = false ->
  is_None (username st) = false ->
  password_cmd st = JStr cmd ->
  shlex_split cmd = Ok argv ->
  subprocess_run argv = Ok out ->
  returncode out <> 0%Z ->
  typed w = repeat ""%string blanks ++ line :: rest ->
  line <> ""%string ->
  exists st' w',
    main_prepare shlex_split subprocess_run splitlines pyotp st w = (Returns st', w') /\
    password st' = JStr line /\ username st' = username st /\ typed w' = rest.
Proof.
  intros Hcmd Hkey Hgw Huser Hpc Hsplit Hrun Hrc Htyped Hline. unfold main_prepare.
  rewrite Hcmd. cbn [negb]. rewrite bind_eq. cbn [ret]. rewrite Hkey. cbn [negb andb].
  rewrite Hgw, Huser, bind_eq. cbn [ret]. rewrite Hpc. cbn [is_None negb].
  rewrite bind_eq. unfold run_cmd. rewrite bind_eq, lift_eq. cbn [shlex_split_value].
  rewrite Hsplit, bind_eq, lift_eq, Hrun. cbv zeta.
  apply Z.eqb_neq in Hrc. rewrite Hrc. cbn [negb orb].
  rewrite bind_eq. cbn [click_echo]. rewrite bind_eq. cbn [click_echo ret].
  rewrite bind_eq. cbn [is_None]. unfold click_prompt. cbn [typed set_terminal console].
  rewrite Htyped, (ask_until_answered_skips _ _ _ _ Hline).
  cbn [ret]. eexists _, _. repeat split; reflexivity.
Qed.

Lemma override_for_keeps ft (pairs : list (string * Z)) :
  forall acc,
    assoc ft (rev pairs) = None ->
    foldl (fun acc kv => if String.eqb (fst kv) ft then Some (snd kv) else acc) acc pairs
    = acc.
Proof.
  induction pairs as [|[k v] pairs IH]; intros acc H; cbn [foldl fst snd]; [reflexivity|].
  cbn [rev] in H. rewrite assoc_app in H.
  destruct (assoc ft (rev pairs)) eqn:Hrest; [discriminate|].
  cbn [assoc] in H. rewrite String.eqb_sym.
  destruct (String.eqb ft k); [discriminate|]. now apply IH.
Qed.

Lemma override_for_last ft (pairs : list (string * Z)) :
  forall acc n,
    assoc ft (rev pairs) = Some n ->
    foldl (fun acc kv => if String.eqb (fst kv) ft then Some (snd kv) else acc) acc pairs
    = Some n.
Proof.
  induction pairs as [|[k v] pairs IH]; intros acc n H; [discriminate|].
  cbn [foldl fst snd]. cbn [rev] in H. rewrite assoc_app in H.
  destruct (assoc ft (rev pairs)) as [m|] eqn:Hrest.
  - injection H as ->. now apply IH.
  - cbn [assoc] in H. rewrite String.eqb_sym.
    destruct (String.eqb ft k); [|discriminate]. injection H as ->.
    now apply override_for_keeps.
Qed.

Lemma converted_none ft (items : list (string * string)) (pairs : list (string * Z)) :
  Forall2 (fun x y => result_bind (int (snd x)) (fun n => Ok (fst x, n)) = Ok y)
    items pairs ->
  assoc ft (rev items) = None -> assoc ft (rev pairs) = None.
Proof.
  induction 1 as [|[k v] [k' n'] items pairs Hxy _ IH]; intros Hrest; [reflexivity|].
  cbn [fst snd] in Hxy. destruct (int v); [|discriminate]. injection Hxy as <- <-.
  cbn [rev] in *. rewrite assoc_app in Hrest. rewrite assoc_app.
  destruct (assoc ft (rev items)); [discriminate|]. rewrite (IH eq_refl).
  cbn [assoc] in *. now destruct (String.eqb ft k).
Qed.

Lemma converted_last ft (items : list (string * string)) (pairs : list (string * Z)) :
  Forall2 (fun x y => result_bind (int (snd x)) (fun n => Ok (fst x, n)) = Ok y)
    items pairs ->
  forall text n,
    assoc ft (rev items) = Some text -> int text = Ok n ->
    assoc ft (rev pairs) = Some n.
Proof.
  induction 1 as [|[k v] [k' n'] items pairs Hxy Hall IH]; intros text n Hitem Hint;
    [discriminate|].
  cbn [fst snd] in Hxy. destruct (int v) as [m|] eqn:Hv; [|discriminate].
  injection Hxy as <- <-. cbn [rev] in *. rewrite assoc_app in Hitem. rewrite assoc_app.
  destruct (assoc ft (rev items)) as [t|] eqn:Hrest.
  - injection Hitem as ->. now rewrite (IH _ _ eq_refl Hint).
  - rewrite (converted_none ft _ _ Hall Hrest).
    cbn [assoc] in *. destruct (String.eqb ft k); [|discriminate].
    injection Hitem as ->. congruence.
Qed.

(** X24.  A priority that the [factor-priority] section of the
    configuration file gives to a factor type is the one used, whatever the
    command line gives for that type: the file's pairs are appended to the
    command line's, and in the final dict a later pair replaces an earlier
    one. *)
Theorem configured_priority_beats_command_line (conf : ConfigParser)
    (given_priorities merged : list (string * Z)) (items : list (string * string))
    (ft text : string) (n : Z) (key : option string) :
  has_section conf "factor-priority" = true ->
  conf_items interpolate_some conf "factor-priority" = Ok items ->
  with_configured_priorities interpolate_some int conf given_priorities = Ok merged ->
  assoc ft (rev items) = Some text ->
  int text = Ok n ->
  main_factor_priorities key merged !! ft = Some n.
Proof.
  intros Hhas Hitems Hmerged Hitem Hint. unfold with_configured_priorities in Hmerged.
  rewrite Hhas, Hitems in Hmerged. cbn [result_bind] in Hmerged.
  destruct (result_mapM _ items) as [pairs|] eqn:Hpairs; [|discriminate].
  injection Hmerged as <-. apply result_mapM_Ok in Hpairs.
  unfold main_factor_priorities. apply lookup_union_Some_l.
  rewrite dict_of_pairs_lookup. unfold override_for. rewrite foldl_app.
  apply override_for_last. eapply converted_last; eassumption.
Qed.

End Settings.

(** Stand-ins for the library in the examples: no interpolation, decimal
    digits only where needed, one word per command, and a machine on which
    no command can be started. *)
Definition no_interpolation (_ _ _ : string) (_ : list (string * option string))
    : result string :=
  Err (OtherError "InterpolationSyntaxError").

Definition small_int (text : string) : result Z :=
  if String.eqb text "5" then Ok 5%Z else Err (OtherError "ValueError").

Definition one_word (cmd : string) : result (list string) :=
  if String.eqb cmd "" then Ok [] else Ok [cmd].

Definition nothing_runs (_ : list string) : result CompletedProcess :=
  Err (OtherError "FileNotFoundError").

Definition one_line (text : string) : list string :=
  if String.eqb text "" then [] else [text].

Definition example_options : options :=
  {| cli_gateway := Some "vpn.example.com"; cli_openconnect_args := [];
     cli_config := "vpn.conf"; cli_username := Some "alice"; cli_password := None;
     cli_password_cmd := None; cli_factor_priorities := [("push", 9%Z)];
     cli_totp_key := Some "JBSWY3DPEHPK3PXP"; cli_totp_key_cmd := None;
     cli_sudo := Some false |}.

Definition example_conf : ConfigParser :=
  {| conf_sections :=
       [("common", [("username", "bob"); ("password", "hunter2")]);
        ("factor-priority", [("push", "5")])];
     conf_defaults := [] |}.

(** What [main] settles on for them. *)
Definition example_settings : settings :=
  {| gateway := JStr "vpn.example.com"; openconnect_args := [];
     username := JStr "alice"; password := JStr "hunter2"; password_cmd := JNull;
     totp_key := JStr "JBSWY3DPEHPK3PXP"; totp_key_cmd := JStr "JBSWY3DPEHPK3PXP";
     sudo := JStr "False"; factor_priorities := [("push", 9%Z); ("push", 5%Z)] |}.

Lemma example_settings_ok :
  main_settings (fun _ => "") no_interpolation small_int one_word
    example_options example_conf = Ok example_settings.
Proof. vm_compute. reflexivity. Qed.

(** Another command line, with a password and no TOTP key. *)
Definition plain_options : options :=
  {| cli_gateway := Some "vpn.example.com"; cli_openconnect_args := [];
     cli_config := "vpn.conf"; cli_username := Some "alice";
     cli_password := Some "from-the-command-line";
     cli_password_cmd := None; cli_factor_priorities := [];
     cli_totp_key := None; cli_totp_key_cmd := None; cli_sudo := None |}.

Definition plain_settings : settings :=
  {| gateway := JStr "vpn.example.com"; openconnect_args := [];
     username := JStr "alice"; password := JStr "from-the-command-line";
     password_cmd := JNull; totp_key := JNull; totp_key_cmd := JNull;
     sudo := JBool false; factor_priorities := [("push", 5%Z)] |}.

Lemma plain_settings_ok :
  main_settings (fun _ => "") no_interpolation small_int one_word
    plain_options example_conf = Ok plain_settings.
Proof. vm_compute. reflexivity. Qed.

Lemma command_line_beats_config_file_witness :
  main_prepare one_word nothing_runs one_line true plain_settings (example_world [] [])
  = (Returns plain_settings, example_world [] []) /\
  password plain_settings = JStr "from-the-command-line".
Proof.
  split; [reflexivity|].
  exact (proj2 (proj2 (command_line_beats_config_file (fun _ => "") no_interpolation
                         small_int one_word nothing_runs one_line true
                         plain_options example_conf plain_settings
                         (example_world [] []) plain_settings (example_world [] [])
                         plain_settings_ok eq_refl))
           "from-the-command-line" eq_refl eq_refl eq_refl).
Defined.

Lemma totp_key_is_taken_for_the_command_witness :
  main_prepare one_word nothing_runs one_line true example_settings (example_world [] [])
  = (Raises (OtherError "FileNotFoundError"), example_world [] []).
Proof.
  refine (proj2 (totp_key_is_taken_for_the_command (fun _ => "") no_interpolation
                   small_int one_word nothing_runs one_line true
                   example_options example_conf example_settings
                   example_settings_ok eq_refl _)
            "JBSWY3DPEHPK3PXP" ["JBSWY3DPEHPK3PXP"] _ _ eq_refl eq_refl eq_refl).
  intros sd [= <-]. split; reflexivity.
Defined.

Lemma sudo_option_with_a_common_section_witness :
  sudo example_settings = JStr "False" /\
  head (subprocess_args "vpn.example.com" "alice" (openconnect_args example_settings)
          (sudo example_settings))
  = Some "sudo"%string.
Proof.
  pose proof (sudo_option_with_a_common_section (fun _ => "") no_interpolation
                small_int one_word example_options example_conf example_settings false
                example_settings_ok eq_refl) as H.
  split; [exact (proj1 H)|exact (proj2 H _ _)].
Defined.

Definition failing_command (_ : list string) : result CompletedProcess :=
  Ok {| returncode := 1; stdout := ""; stderr := "no such entry" |}.

Definition settings_with_password_command : settings :=
  {| gateway := JStr "vpn.example.com"; openconnect_args := [];
     username := JStr "alice"; password := JStr "hunter2";
     password_cmd := JStr "pass"; totp_key := JNull; totp_key_cmd := JNull;
     sudo := JBool false; factor_priorities := [] |}.

Lemma failed_password_command_asks_the_user_witness :
  exists st' w',
    main_prepare one_word failing_command one_line true settings_with_password_command
      (example_world [] [""; "typed-secret"])
    = (Returns st', w') /\
    password st' = JStr "typed-secret" /\ username st' = JStr "alice" /\ typed w' = [].
Proof.
  apply (failed_password_command_asks_the_user one_word failing_command one_line true
           settings_with_password_command (example_world [] [""; "typed-secret"])
           "pass" ["pass"] {| returncode := 1; stdout := ""; stderr := "no such entry" |}
           1 "typed-secret" []); try reflexivity; discriminate.
Defined.

Lemma configured_priority_beats_command_line_witness :
  main_factor_priorities None [("push", 9%Z); ("push", 5%Z)] !! "push" = Some 5%Z.
Proof.
  apply (configured_priority_beats_command_line no_interpolation small_int example_conf
           [("push", 9%Z)] [("push", 9%Z); ("push", 5%Z)] [("push", "5")]
           "push" "5" 5%Z None); reflexivity.
Defined.

End MainFacts.
